(** * ClickUp multi-workspace MCP server: credential routing

    A shallow embedding of the multi-workspace core of the server:

    - [Config]   : src/config.ts (workspace blob validation, legacy
                   fallback, [getWorkspaceConfig], [getAvailableWorkspaces],
                   [getDefaultWorkspace]);
    - [Shared]   : src/services/shared.ts (the process-wide
                   [workspaceServicesMap] and [getClickUpServices]);
    - [Helper]   : src/tools/workspace-helper.ts ([getServicesForWorkspace]);
    - [Filter]   : the tool visibility policy;
    - [Response] : src/utils/sponsor-service.ts ([createResponse],
                   [createErrorResponse]), and [Bulk] for
                   [createBulkResponse];
    - [Lists], [Args] : the comma-separated lists and the [--env]
                   arguments of src/config.ts;
    - [WorkspaceTools], [HierarchyTool] : the handlers of
                   src/tools/workspace.ts and [formatTreeOutput];
    - [DependencyTools] : the dependency and link handlers of the task
                   tools, run in a [Remote.World] that records the calls
                   made on services objects;
    - [TaskDependencies] : src/services/clickup/task/task-dependencies.ts;
    - [ToolEnhancer] : src/tools/tool-enhancer.ts;
    - [Session]  : sequences of tool calls.

    JavaScript strings are modelled as [string]; thrown exceptions as values
    of [JsError] carried by [result]; the module-level [Map] of shared.ts as
    a [gmap] threaded through a small state-and-exception monad.  Console
    and logger output is not modelled. *)

From Stdlib Require Import ZArith Ascii String List Bool Lia.
From Stdlib Require Import Decimal DecimalString DecimalZ DecimalN DecimalPos.
From stdpp Require Import gmap strings list.

Local Open Scope string_scope.

(** ** JavaScript preliminaries *)

Module Js.

(** An exception object: [new Error(msg)] has [name = "Error"]; the error
    raised by [JSON.parse] has [name = "SyntaxError"]. *)
Record JsError := mkError { err_name : string; err_message : string }.

Definition new_Error (msg : string) : JsError := mkError "Error" msg.

(** Outcome of an expression that may throw. *)
Inductive result (A : Type) : Type :=
| Ok (a : A)
| Throw (e : JsError).
Arguments Ok {A} a.
Arguments Throw {A} e.

Definition is_Ok {A} (r : result A) : bool :=
  match r with Ok _ => true | Throw _ => false end.

(** Truthiness of an optional string ([undefined] and [''] are falsy). *)
Definition truthy (v : option string) : bool :=
  match v with
  | None => false
  | Some s => negb (String.eqb s "")
  end.

(** [a || b] where [b] is a string. *)
Definition or_else (a : option string) (b : string) : string :=
  match a with
  | Some s => if String.eqb s "" then b else s
  | None => b
  end.

(** [a === s] for a string [s]. *)
Definition strict_eq (a : option string) (s : string) : bool :=
  match a with
  | Some x => String.eqb x s
  | None => false
  end.

(** The double-quote character, for messages that contain it. *)
Definition dq : string := String (ascii_of_nat 34) EmptyString.

(** The line feed, ['\n']. *)
Definition newline : string := String (ascii_of_nat 10) EmptyString.

(** [xs.join(sep)] on an array of strings. *)
Definition join (sep : string) (xs : list string) : string :=
  String.concat sep xs.

(** Property names every plain object inherits from [Object.prototype].
    A property read [o[k]] on an object built by [JSON.parse] finds the own
    property first and these members otherwise; each of them is a function
    (or, for [__proto__], the prototype object), hence truthy, and none has
    a [token], [teamId] or [description] property. *)
Definition Object_prototype_members : list string :=
  [ "constructor"; "__defineGetter__"; "__defineSetter__"; "hasOwnProperty";
    "__lookupGetter__"; "__lookupSetter__"; "isPrototypeOf";
    "propertyIsEnumerable"; "toString"; "valueOf"; "__proto__";
    "toLocaleString" ].

Definition inherited (k : string) : bool :=
  existsb (String.eqb k) Object_prototype_members.

(** [t] occurs inside [s] (what "the message includes the key" means). *)
Definition includes (s t : string) : Prop :=
  exists pre post, s = pre ++ t ++ post.

Definition starts_with (s t : string) : Prop :=
  exists post, s = t ++ post.

End Js.
Export Js.

(** ** src/config.ts *)

Module Config.

(** [interface WorkspaceConfig] *)
Record WorkspaceConfig := mkWorkspaceConfig {
  token : string;
  teamId : string;
  description : option string
}.

(** [interface ClickUpWorkspacesConfig].  The [workspaces] record is kept
    as its own properties in [Object.keys] order. *)
Record ClickUpWorkspacesConfig := mkWorkspaces {
  default : string;
  workspaces : list (string * WorkspaceConfig)
}.

(** What [JSON.parse] hands to the validation in [parseWorkspaces]: the
    shape of the interfaces above with every field still optional. *)
Record RawWorkspace := mkRawWorkspace {
  raw_token : option string;
  raw_teamId : option string;
  raw_description : option string
}.

Record RawWorkspaces := mkRawWorkspaces {
  raw_default : option string;
  raw_workspaces : option (list (string * RawWorkspace))
}.

Inductive ParsedJson :=
| SyntaxError (msg : string)          (* JSON.parse throws *)
| Parsed (p : RawWorkspaces).

(** The part of the process environment config.ts reads for credentials
    and tool filtering, after [envArgs.x || process.env.X]. *)
Record Env := mkEnv {
  env_clickupApiKey : option string;
  env_clickupTeamId : option string;
  env_clickupWorkspaces : option ParsedJson;   (* None: unset or '' *)
  env_disabledTools : list string;
  env_enabledTools : list string
}.

(** [interface Config], restricted to the fields of the core. *)
Record Configuration := mkConfiguration {
  clickupApiKey : string;
  clickupTeamId : string;
  clickupWorkspaces : option ClickUpWorkspacesConfig;
  disabledTools : list string;
  enabledTools : list string
}.

(** The loop body of [parseWorkspaces]: [!ws.token || !ws.teamId] throws. *)
Definition check_workspace (entry : string * RawWorkspace)
  : result (string * WorkspaceConfig) :=
  let '(key, ws) := entry in
  if negb (truthy (raw_token ws)) || negb (truthy (raw_teamId ws)) then
    Throw (new_Error ("Invalid workspace " ++ dq ++ key ++ dq ++
                      ": must have " ++ dq ++ "token" ++ dq ++ " and " ++
                      dq ++ "teamId" ++ dq ++ " properties"))
  else
    Ok (key, mkWorkspaceConfig (or_else (raw_token ws) "")
                               (or_else (raw_teamId ws) "")
                               (raw_description ws)).

Fixpoint check_workspaces (entries : list (string * RawWorkspace))
  : result (list (string * WorkspaceConfig)) :=
  match entries with
  | [] => Ok []
  | entry :: rest =>
      match check_workspace entry with
      | Throw e => Throw e
      | Ok w =>
          match check_workspaces rest with
          | Throw e => Throw e
          | Ok ws => Ok (w :: ws)
          end
      end
  end.

Definition invalid_format : string :=
  "Invalid CLICKUP_WORKSPACES format: must have " ++ dq ++ "default" ++ dq ++
  " and " ++ dq ++ "workspaces" ++ dq ++ " properties".

(** The [try] block of [parseWorkspaces]. *)
Definition parseWorkspaces_try (src : ParsedJson)
  : result ClickUpWorkspacesConfig :=
  match src with
  | SyntaxError msg => Throw (mkError "SyntaxError" msg)
  | Parsed parsed =>
      match raw_workspaces parsed with
      | Some entries =>
          if truthy (raw_default parsed) then
            match check_workspaces entries with
            | Throw e => Throw e
            | Ok ws => Ok (mkWorkspaces (or_else (raw_default parsed) "") ws)
            end
          else
            Throw (new_Error invalid_format)
      | None => Throw (new_Error invalid_format)
      end
  end.

Definition parseWorkspaces (workspacesJson : option ParsedJson)
  : result (option ClickUpWorkspacesConfig) :=
  match workspacesJson with
  | Some src =>
      match parseWorkspaces_try src with
      | Ok parsed => Ok (Some parsed)
      | Throw error =>
          Throw (new_Error ("Failed to parse CLICKUP_WORKSPACES: " ++
                            err_message error))
      end
  | None => Ok None
  end.

(** Own-property lookup in the [workspaces] record. *)
Fixpoint own_property (ws : list (string * WorkspaceConfig)) (k : string)
  : option WorkspaceConfig :=
  match ws with
  | [] => None
  | (k', w) :: rest => if String.eqb k k' then Some w else own_property rest k
  end.

(** The value of the property read [workspaces[k]] when it is not
    [undefined]. *)
Inductive PropertyValue :=
| OwnWorkspace (w : WorkspaceConfig)
| InheritedMember (name : string).

Definition get_property (ws : list (string * WorkspaceConfig)) (k : string)
  : option PropertyValue :=
  match own_property ws k with
  | Some w => Some (OwnWorkspace w)
  | None => if inherited k then Some (InheritedMember k) else None
  end.

(** [v.token], [v.teamId], [v.description] *)
Definition pv_token (v : PropertyValue) : option string :=
  match v with OwnWorkspace w => Some (token w) | InheritedMember _ => None end.
Definition pv_teamId (v : PropertyValue) : option string :=
  match v with OwnWorkspace w => Some (teamId w) | InheritedMember _ => None end.
Definition pv_description (v : PropertyValue) : option string :=
  match v with OwnWorkspace w => description w | InheritedMember _ => None end.

(** [Object.keys(workspaces)] *)
Definition Object_keys (ws : list (string * WorkspaceConfig)) : list string :=
  map fst ws.

(** The validation block at module level (lines 209-233). *)
Definition requiredVars : list string := ["clickupApiKey"; "clickupTeamId"].

(** [configuration[key]] for the two keys of [requiredVars]. *)
Definition config_field (c : Configuration) (key : string) : option string :=
  if String.eqb key "clickupApiKey" then Some (clickupApiKey c)
  else if String.eqb key "clickupTeamId" then Some (clickupTeamId c)
  else None.

Definition missingEnvVars (c : Configuration) : list string :=
  List.filter (fun key => negb (truthy (config_field c key))) requiredVars.

Definition validate (c : Configuration) : result Configuration :=
  match clickupWorkspaces c with
  | Some cw =>
      let defaultWorkspace := default cw in
      match get_property (workspaces cw) defaultWorkspace with
      | None =>
          Throw (new_Error ("Default workspace " ++ dq ++ defaultWorkspace ++
                            dq ++ " not found in workspaces configuration"))
      | Some _ => Ok c
      end
  | None =>
      match missingEnvVars c with
      | [] => Ok c
      | missing =>
          Throw (new_Error ("Missing required environment variables: " ++
            join ", " missing ++ ". " ++
            "Either provide CLICKUP_API_KEY and CLICKUP_TEAM_ID, or CLICKUP_WORKSPACES for multi-workspace support."))
      end
  end.

(** Evaluation of the module: build [configuration], then validate it.
    A [Throw] here aborts the import of config.ts, and with it the process
    start. *)
Definition load (env : Env) : result Configuration :=
  match parseWorkspaces (env_clickupWorkspaces env) with
  | Throw e => Throw e
  | Ok cw =>
      validate (mkConfiguration (or_else (env_clickupApiKey env) "")
                                (or_else (env_clickupTeamId env) "")
                                cw
                                (env_disabledTools env)
                                (env_enabledTools env))
  end.

(** The message of the legacy-mode failure of [getWorkspaceConfig]. *)
Definition not_configured_message : string :=
  "Multiple workspaces not configured. Only default workspace is available. " ++
  "Set CLICKUP_WORKSPACES environment variable to enable multi-workspace support.".

Definition getWorkspaceConfig (configuration : Configuration)
    (workspaceId : option string) : result PropertyValue :=
  match clickupWorkspaces configuration with
  | Some cw =>
      let wsId := or_else workspaceId (default cw) in
      match get_property (workspaces cw) wsId with
      | None =>
          let available := join ", " (Object_keys (workspaces cw)) in
          Throw (new_Error ("Workspace " ++ dq ++ wsId ++ dq ++
                            " not found. Available workspaces: " ++ available))
      | Some workspace => Ok workspace
      end
  | None =>
      if truthy workspaceId && negb (strict_eq workspaceId "default")
      then
        Throw (new_Error not_configured_message)
      else
        Ok (OwnWorkspace (mkWorkspaceConfig (clickupApiKey configuration)
                                            (clickupTeamId configuration)
                                            (Some "Default workspace")))
  end.

Definition getAvailableWorkspaces (configuration : Configuration) : list string :=
  match clickupWorkspaces configuration with
  | Some cw => Object_keys (workspaces cw)
  | None => ["default"]
  end.

Definition getDefaultWorkspace (configuration : Configuration) : string :=
  match clickupWorkspaces configuration with
  | Some cw => default cw
  | None => "default"
  end.

(** A configuration object the process can be running with: the value
    of [configuration] after config.ts was imported without throwing. *)
Definition loaded (c : Configuration) : Prop := exists env, load env = Ok c.

End Config.

(** ** src/services/shared.ts *)

Module Shared.
Import Config.

(** A [ClickUpServices] object.  [instance] is the identity of the object
    on the heap (two references are the same instance iff these agree); the
    credentials are the ones the factory bound it to. *)
Record ClickUpServices := mkServices {
  instance : nat;
  apiKey : option string;
  bound_teamId : option string
}.

(** The argument object of [createClickUpServices]. *)
Record ClickUpServiceConfig := mkServiceConfig {
  cfg_apiKey : option string;
  cfg_teamId : option string
}.

(** Module state of shared.ts: the [workspaceServicesMap], and the record
    of every call of [createClickUpServices] made so far, oldest first,
    each with the workspace id it was made for. *)
Record Registry := mkRegistry {
  workspaceServicesMap : gmap string ClickUpServices;
  constructions : list (string * ClickUpServices)
}.

Definition empty_registry : Registry := mkRegistry ∅ [].

(** Computations over the module state that may throw. *)
Definition M (A : Type) : Type := Registry -> result A * Registry.

Definition ret {A} (a : A) : M A := fun st => (Ok a, st).
Definition raise {A} (e : JsError) : M A := fun st => (Throw e, st).
Definition bind {A B} (m : M A) (k : A -> M B) : M B :=
  fun st =>
    match m st with
    | (Ok a, st') => k a st'
    | (Throw e, st') => (Throw e, st')
    end.
Definition lift {A} (r : result A) : M A := fun st => (r, st).
(** [try { m } catch (error) { handler error }] *)
Definition try_catch {A} (m : M A) (handler : JsError -> M A) : M A :=
  fun st =>
    match m st with
    | (Ok a, st') => (Ok a, st')
    | (Throw e, st') => handler e st'
    end.

Notation "'let*' x ':=' m 'in' k" := (bind m (fun x => k))
  (at level 10, x name, m at level 100, k at level 200).

(** [workspaceServicesMap.get(wsId)] *)
Definition map_get (wsId : string) : M (option ClickUpServices) :=
  fun st => (Ok (workspaceServicesMap st !! wsId), st).

(** [workspaceServicesMap.set(wsId, services)] *)
Definition map_set (wsId : string) (services : ClickUpServices) : M unit :=
  fun st => (Ok tt, mkRegistry (<[wsId := services]> (workspaceServicesMap st))
                               (constructions st)).

(** [createClickUpServices(config)] called on behalf of [wsId]: the factory
    of services/clickup/index.ts is opaque to the core; it allocates a new
    object bound to the given credentials. *)
Definition createClickUpServices (wsId : string) (config : ClickUpServiceConfig)
  : M ClickUpServices :=
  fun st =>
    let services := mkServices (length (constructions st))
                               (cfg_apiKey config) (cfg_teamId config) in
    (Ok services, mkRegistry (workspaceServicesMap st)
                             (constructions st ++ [(wsId, services)])).

Definition getClickUpServices (configuration : Configuration)
    (workspaceId : option string) : M ClickUpServices :=
  let wsId := or_else workspaceId (getDefaultWorkspace configuration) in
  let* cached := map_get wsId in
  match cached with
  | Some services => ret services
  | None =>
      let* workspaceConfig := lift (getWorkspaceConfig configuration (Some wsId)) in
      let* services := createClickUpServices wsId
                         (mkServiceConfig (pv_token workspaceConfig)
                                          (pv_teamId workspaceConfig)) in
      let* stored := map_set wsId services in
      ret services
  end.

(** The [for] loop of [getAllWorkspaceServices]. *)
Fixpoint for_each_workspace (configuration : Configuration)
    (ids : list string) : M unit :=
  match ids with
  | [] => ret tt
  | wsId :: rest =>
      let* services := getClickUpServices configuration (Some wsId) in
      for_each_workspace configuration rest
  end.

Definition getAllWorkspaceServices (configuration : Configuration)
  : M (gmap string ClickUpServices) :=
  let* done := for_each_workspace configuration
                 (getAvailableWorkspaces configuration) in
  fun st => (Ok (workspaceServicesMap st), st).

(** Evaluation of the module: the map starts empty and the exported
    constant [clickUpServices] is computed at once. *)
Definition module_init (configuration : Configuration)
  : result ClickUpServices * Registry :=
  getClickUpServices configuration None empty_registry.

(** A call sequence: the selectors passed to [getClickUpServices], in
    order; a call that throws leaves the state as it was. *)
Fixpoint run_calls (configuration : Configuration)
    (calls : list (option string)) (st : Registry) : Registry :=
  match calls with
  | [] => st
  | c :: rest =>
      run_calls configuration rest (snd (getClickUpServices configuration c st))
  end.

(** How often [createClickUpServices] ran for workspace [k]. *)
Definition constructions_for (k : string) (st : Registry) : nat :=
  length (List.filter (fun c => String.eqb (fst c) k) (constructions st)).

(** States the process can be in: the module starts from the empty map
    and only [getClickUpServices] touches it. *)
Definition reachable (configuration : Configuration) (st : Registry) : Prop :=
  exists calls, st = run_calls configuration calls empty_registry.

(** The registry invariant: a key is cached exactly when the factory ran
    for it, it ran once, and only keys the configuration resolves are
    cached. *)
Definition registry_inv (configuration : Configuration) (st : Registry) : Prop :=
  forall k,
    match workspaceServicesMap st !! k with
    | Some _ =>
        constructions_for k st = 1 /\
        is_Ok (getWorkspaceConfig configuration (Some k)) = true
    | None => constructions_for k st = 0
    end.

(** Object identity: the [i]-th object the factory made is instance [i],
    and every cached object is one the factory made for that key. *)
Definition heap_inv (st : Registry) : Prop :=
  (forall i k s, constructions st !! i = Some (k, s) -> instance s = i) /\
  (forall k s, workspaceServicesMap st !! k = Some s ->
               exists i, constructions st !! i = Some (k, s)).

End Shared.

(** ** src/tools/workspace-helper.ts *)

Module Helper.
Import Config Shared.

(** [params.workspace] is the only field the helper reads. *)
Definition getServicesForWorkspace (configuration : Configuration)
    (params_workspace : option string) : M ClickUpServices :=
  try_catch (getClickUpServices configuration params_workspace)
    (fun error =>
       let available := join ", " (getAvailableWorkspaces configuration) in
       raise (new_Error (err_message error ++ newline ++
                         "Available workspaces: " ++ available))).

End Helper.

(** ** Tool visibility filter *)

Module Filter.
Import Config.

(** Modelled from the spec: the function that applies [enabledTools] and
    [disabledTools] to the tool catalog (the server's tool registration) is
    not among the source files; config.ts only parses the two lists.
    Section 4.3 of the specification gives the contract
    [effectiveSet(catalog, enabledList, disabledList)] in three clauses:
    a non-empty enabled list selects [catalog ∩ enabledList]; else the
    result is [catalog − disabledList]; else, both being empty, it is the
    catalog. *)
Definition effectiveSet (catalog enabledList disabledList : gset string)
  : gset string :=
  if decide (enabledList ≠ ∅) then catalog ∩ enabledList
  else if decide (disabledList ≠ ∅) then catalog ∖ disabledList
  else catalog.

(** The policy of a configuration: the two arrays config.ts builds from
    [ENABLED_TOOLS] and [DISABLED_TOOLS], read as sets. *)
Definition configured_tools (catalog : gset string) (c : Configuration)
  : gset string :=
  effectiveSet catalog (list_to_set (enabledTools c))
                       (list_to_set (disabledTools c)).

End Filter.

(** ** JavaScript values and JSON *)

Module Json.

(** The values handlers pass around: finite trees of plain data.  A string
    stands for the UTF-8 bytes of a well-formed JavaScript string; [VNum n]
    is the integer-valued number [n], meant for safe integers
    (|n| ≤ 2^53 − 1); [VObj props] lists the own enumerable properties of a
    plain object in the order JavaScript enumerates them. *)
#[local] Unset Elimination Schemes.
Inductive value :=
| VUndefined
| VNull
| VBool (b : bool)
| VNum (n : Z)
| VStr (s : string)
| VArr (items : list value)
| VObj (props : list (string * value)).
#[local] Set Elimination Schemes.

Definition backslash : ascii := ascii_of_nat 92.
Definition dquote : ascii := ascii_of_nat 34.

(** *** Property order *)

(** An array index: a canonical decimal numeral below 2^32 − 1. *)
Definition array_index (k : string) : option N :=
  match NilZero.uint_of_string k with
  | Some d =>
      let n := N.of_uint d in
      if String.eqb (NilZero.string_of_uint (N.to_uint n)) k
         && (n <? 4294967295)%N
      then Some n else None
  | None => None
  end.

(** A new key [k] is enumerated before the existing key [k'] when [k] is an
    array index and [k'] is a larger one or none at all. *)
Definition key_before (k k' : string) : bool :=
  match array_index k with
  | Some a =>
      match array_index k' with
      | Some b => (a <? b)%N
      | None => true
      end
  | None => false
  end.

(** [CreateDataProperty(obj, k, v)]: an existing property keeps its place
    and takes the new value; a new array index goes among the indices, in
    ascending order; any other new key goes last. *)
Fixpoint set_property (props : list (string * value)) (k : string) (v : value)
  : list (string * value) :=
  match props with
  | [] => [(k, v)]
  | (k', v') :: rest =>
      if String.eqb k k' then (k', v) :: rest
      else if key_before k k' then (k, v) :: (k', v') :: rest
      else (k', v') :: set_property rest k v
  end.

(** [{...target, ...source}]: the properties of [source] are copied in
    their order. *)
Definition assign (target source : list (string * value))
  : list (string * value) :=
  fold_left (fun acc kv => set_property acc (fst kv) (snd kv)) source target.

(** [obj[k]] for an own property. *)
Fixpoint get_own (props : list (string * value)) (k : string) : option value :=
  match props with
  | [] => None
  | (k', v) :: rest => if String.eqb k k' then Some v else get_own rest k
  end.

(** [k'] may follow [k] in the enumeration of one object. *)
Definition ordered (k k' : string) : bool :=
  negb (String.eqb k k') &&
  match array_index k, array_index k' with
  | Some a, Some b => (a <? b)%N
  | Some _, None => true
  | None, Some _ => false
  | None, None => true
  end.

(** Keys as JavaScript enumerates them: distinct, array indices first and
    ascending. *)
Fixpoint canonical (keys : list string) : bool :=
  match keys with
  | [] => true
  | k :: rest => forallb (ordered k) rest && canonical rest
  end.

(** *** JSON.stringify(value, null, 2) *)

Definition hex_digit (n : nat) : ascii :=
  nth n [ "0"; "1"; "2"; "3"; "4"; "5"; "6"; "7"; "8"; "9";
          "a"; "b"; "c"; "d"; "e"; "f" ]%char "0"%char.

(** One code unit inside [QuoteJSONString]. *)
Definition escape_char (c : ascii) : string :=
  let n := nat_of_ascii c in
  if (n =? 34)%nat then String backslash (String dquote EmptyString)
  else if (n =? 92)%nat then String backslash (String backslash EmptyString)
  else if (n =? 8)%nat then String backslash "b"
  else if (n =? 12)%nat then String backslash "f"
  else if (n =? 10)%nat then String backslash "n"
  else if (n =? 13)%nat then String backslash "r"
  else if (n =? 9)%nat then String backslash "t"
  else if (n <? 32)%nat then
    String backslash
      (String "u" (String "0" (String "0"
         (String (hex_digit (n / 16)) (String (hex_digit (n mod 16)) EmptyString)))))
  else String c EmptyString.

Fixpoint escape (s : string) : string :=
  match s with
  | EmptyString => EmptyString
  | String c rest => escape_char c ++ escape rest
  end.

Definition QuoteJSONString (s : string) : string :=
  String dquote (escape s ++ String dquote EmptyString).

(** [Number::toString] on an integer. *)
Definition number_to_string (n : Z) : string :=
  NilZero.string_of_int (Z.to_int n).

(** [Number.isSafeInteger] *)
Definition safe_integer (n : Z) : bool :=
  (Z.abs n <=? 9007199254740991)%Z.

Definition gap : string := "  ".

(** The lines of a non-empty array or object between its brackets. *)
Definition wrap (open close stepback indent : string) (partial : list string)
  : string :=
  open ++ newline ++ indent ++ join ("," ++ newline ++ indent) partial ++
  newline ++ stepback ++ close.

(** [SerializeJSONProperty]: [None] is [undefined] (nothing to emit). *)
Fixpoint SerializeJSONProperty (indent : string) (v : value) : option string :=
  match v with
  | VUndefined => None
  | VNull => Some "null"
  | VBool true => Some "true"
  | VBool false => Some "false"
  | VNum n => Some (number_to_string n)
  | VStr s => Some (QuoteJSONString s)
  | VArr items =>
      let stepback := indent in
      let indent := indent ++ gap in
      let partial :=
        map (fun item =>
               match SerializeJSONProperty indent item with
               | Some str => str
               | None => "null"
               end) items in
      Some (match partial with
            | [] => "[]"
            | _ => wrap "[" "]" stepback indent partial
            end)
  | VObj props =>
      let stepback := indent in
      let indent := indent ++ gap in
      let partial :=
        (fix members (ps : list (string * value)) : list string :=
           match ps with
           | [] => []
           | (k, item) :: rest =>
               match SerializeJSONProperty indent item with
               | Some str => (QuoteJSONString k ++ ": " ++ str) :: members rest
               | None => members rest
               end
           end) props in
      Some (match partial with
            | [] => "{}"
            | _ => wrap "{" "}" stepback indent partial
            end)
  end.

Definition JSON_stringify (v : value) : option string :=
  SerializeJSONProperty EmptyString v.

(** *** JSON.parse(text)

    A recursive-descent reader for the texts [JSON.stringify] emits.  Texts
    with numbers that are not canonical integers, or with [\u] escapes
    above 0x7f, are reported as [NotModelled] instead of being decided. *)

Inductive parse_error := SyntaxErr | Outside.

Inductive presult (A : Type) : Type :=
| POk (a : A) (rest : string)
| PErr (e : parse_error).
Arguments POk {A} a rest.
Arguments PErr {A} e.

Definition is_ws (c : ascii) : bool :=
  let n := nat_of_ascii c in
  (n =? 32)%nat || (n =? 9)%nat || (n =? 10)%nat || (n =? 13)%nat.

Fixpoint skip_ws (s : string) : string :=
  match s with
  | EmptyString => EmptyString
  | String c rest => if is_ws c then skip_ws rest else s
  end.

Definition is_digit (c : ascii) : bool :=
  let n := nat_of_ascii c in (48 <=? n)%nat && (n <=? 57)%nat.

Definition hex_value (c : ascii) : option nat :=
  let n := nat_of_ascii c in
  if (48 <=? n)%nat && (n <=? 57)%nat then Some (n - 48)
  else if (97 <=? n)%nat && (n <=? 102)%nat then Some (n - 87)
  else if (65 <=? n)%nat && (n <=? 70)%nat then Some (n - 55)
  else None.

(** The character an escape [\c] stands for. *)
Definition unescape (c : ascii) : option ascii :=
  let n := nat_of_ascii c in
  if (n =? 34)%nat then Some dquote
  else if (n =? 92)%nat then Some backslash
  else if (n =? 47)%nat then Some "/"%char
  else if (n =? 98)%nat then Some (ascii_of_nat 8)
  else if (n =? 102)%nat then Some (ascii_of_nat 12)
  else if (n =? 110)%nat then Some (ascii_of_nat 10)
  else if (n =? 114)%nat then Some (ascii_of_nat 13)
  else if (n =? 116)%nat then Some (ascii_of_nat 9)
  else None.

Definition cons_char (c : ascii) (r : presult string) : presult string :=
  match r with
  | POk str rest => POk (String c str) rest
  | PErr e => PErr e
  end.

(** The characters of a string literal, after the opening quote and up to
    the closing one. *)
Fixpoint parse_chars (s : string) : presult string :=
  match s with
  | EmptyString => PErr SyntaxErr
  | String c rest =>
      if Ascii.eqb c dquote then POk EmptyString rest
      else if Ascii.eqb c backslash then
        match rest with
        | EmptyString => PErr SyntaxErr
        | String e rest1 =>
            if Ascii.eqb e "u" then
              match rest1 with
              | String h1 (String h2 (String h3 (String h4 rest2))) =>
                  match hex_value h1, hex_value h2, hex_value h3, hex_value h4 with
                  | Some a, Some b, Some c', Some d =>
                      let code := ((a * 16 + b) * 16 + c') * 16 + d in
                      if (code <? 128)%nat
                      then cons_char (ascii_of_nat code) (parse_chars rest2)
                      else PErr Outside
                  | _, _, _, _ => PErr SyntaxErr
                  end
              | _ => PErr SyntaxErr
              end
            else
              match unescape e with
              | Some c' => cons_char c' (parse_chars rest1)
              | None => PErr SyntaxErr
              end
        end
      else if (nat_of_ascii c <? 32)%nat then PErr SyntaxErr
      else cons_char c (parse_chars rest)
  end.

Fixpoint span_digits (s : string) : string * string :=
  match s with
  | EmptyString => (EmptyString, EmptyString)
  | String c rest =>
      if is_digit c then
        let (digits, rest') := span_digits rest in (String c digits, rest')
      else (EmptyString, s)
  end.

(** An optional minus sign and the digits after it. *)
Definition span_number (s : string) : string * string :=
  match s with
  | String c rest =>
      if Ascii.eqb c "-" then
        let (digits, rest') := span_digits rest in (String c digits, rest')
      else span_digits s
  | EmptyString => (EmptyString, EmptyString)
  end.

Definition continues_number (rest : string) : bool :=
  match rest with
  | String c _ => Ascii.eqb c "." || Ascii.eqb c "e" || Ascii.eqb c "E"
  | EmptyString => false
  end.

Definition parse_number (s : string) : presult value :=
  let (token, rest) := span_number s in
  if continues_number rest then PErr Outside
  else
    match NilZero.int_of_string token with
    | Some d =>
        let n := Z.of_int d in
        if String.eqb (number_to_string n) token && safe_integer n
        then POk (VNum n) rest
        else PErr Outside
    | None => PErr Outside
    end.

Fixpoint strip_prefix (p s : string) : option string :=
  match p with
  | EmptyString => Some s
  | String c p' =>
      match s with
      | String c' s' => if Ascii.eqb c c' then strip_prefix p' s' else None
      | EmptyString => None
      end
  end.

Definition parse_literal (word : string) (v : value) (s : string)
  : presult value :=
  match strip_prefix word s with
  | Some rest => POk v rest
  | None => PErr SyntaxErr
  end.

(** What follows an element of an array or a member of an object. *)
Inductive separator := Comma (rest : string) | Close (rest : string) | Neither.

Definition next_separator (close : ascii) (s : string) : separator :=
  match skip_ws s with
  | String c rest =>
      if Ascii.eqb c "," then Comma rest
      else if Ascii.eqb c close then Close rest
      else Neither
  | EmptyString => Neither
  end.

Fixpoint parse_value (fuel : nat) (s : string) : presult value :=
  match fuel with
  | O => PErr Outside
  | S fuel =>
      match skip_ws s with
      | EmptyString => PErr SyntaxErr
      | String c rest =>
          if Ascii.eqb c "{" then
            match skip_ws rest with
            | String c' rest' =>
                if Ascii.eqb c' "}" then POk (VObj []) rest'
                else
                  match parse_members fuel rest with
                  | POk members r => POk (VObj (assign [] members)) r
                  | PErr e => PErr e
                  end
            | EmptyString => PErr SyntaxErr
            end
          else if Ascii.eqb c "[" then
            match skip_ws rest with
            | String c' rest' =>
                if Ascii.eqb c' "]" then POk (VArr []) rest'
                else
                  match parse_elements fuel rest with
                  | POk items r => POk (VArr items) r
                  | PErr e => PErr e
                  end
            | EmptyString => PErr SyntaxErr
            end
          else if Ascii.eqb c dquote then
            match parse_chars rest with
            | POk str r => POk (VStr str) r
            | PErr e => PErr e
            end
          else if Ascii.eqb c "t" then parse_literal "true" (VBool true) (String c rest)
          else if Ascii.eqb c "f" then parse_literal "false" (VBool false) (String c rest)
          else if Ascii.eqb c "n" then parse_literal "null" VNull (String c rest)
          else if Ascii.eqb c "-" || is_digit c then parse_number (String c rest)
          else PErr SyntaxErr
      end
  end

with parse_elements (fuel : nat) (s : string) : presult (list value) :=
  match fuel with
  | O => PErr Outside
  | S fuel =>
      match parse_value fuel s with
      | PErr e => PErr e
      | POk v r =>
          match next_separator "]" r with
          | Comma r' =>
              match parse_elements fuel r' with
              | POk vs r'' => POk (v :: vs) r''
              | PErr e => PErr e
              end
          | Close r' => POk [v] r'
          | Neither => PErr SyntaxErr
          end
      end
  end

with parse_members (fuel : nat) (s : string) : presult (list (string * value)) :=
  match fuel with
  | O => PErr Outside
  | S fuel =>
      match skip_ws s with
      | String q rest =>
          if Ascii.eqb q dquote then
            match parse_chars rest with
            | PErr e => PErr e
            | POk k r =>
                match skip_ws r with
                | String colon r1 =>
                    if Ascii.eqb colon ":" then
                      match parse_value fuel r1 with
                      | PErr e => PErr e
                      | POk v r2 =>
                          match next_separator "}" r2 with
                          | Comma r3 =>
                              match parse_members fuel r3 with
                              | POk ms r4 => POk ((k, v) :: ms) r4
                              | PErr e => PErr e
                              end
                          | Close r3 => POk [(k, v)] r3
                          | Neither => PErr SyntaxErr
                          end
                      end
                    else PErr SyntaxErr
                | EmptyString => PErr SyntaxErr
                end
            end
          else PErr SyntaxErr
      | EmptyString => PErr SyntaxErr
      end
  end.

(** Values that are JSON data: nothing undefined inside, numbers are safe
    integers, and every object lists its keys in enumeration order. *)
Fixpoint json_data (v : value) : bool :=
  match v with
  | VUndefined => false
  | VNull | VBool _ | VStr _ => true
  | VNum n => safe_integer n
  | VArr items => forallb json_data items
  | VObj props =>
      canonical (map fst props) &&
      (fix all (ps : list (string * value)) : bool :=
         match ps with
         | [] => true
         | (_, item) :: rest => json_data item && all rest
         end) props
  end.

(** Fuel that suffices to read a value back. *)
Fixpoint size (v : value) : nat :=
  match v with
  | VArr items => S (fold_right (fun item n => S (size item + n)) 0 items)
  | VObj props =>
      S ((fix members (ps : list (string * value)) : nat :=
            match ps with
            | [] => 0
            | (_, item) :: rest => S (size item + members rest)
            end) props)
  | _ => 1
  end.

(** What [JSON.parse(text)] does. *)
Inductive parsed :=
| Returns (v : value)
| ThrowsSyntaxError
| NotModelled.

Definition JSON_parse (text : string) : parsed :=
  match parse_value (S (String.length text)) text with
  | POk v rest =>
      match skip_ws rest with
      | EmptyString => Returns v
      | String _ _ => ThrowsSyntaxError
      end
  | PErr SyntaxErr => ThrowsSyntaxError
  | PErr Outside => NotModelled
  end.

(** *** Vocabulary for the round trip *)

(** Indentation: spaces only. *)
Fixpoint all_spaces (s : string) : bool :=
  match s with
  | EmptyString => true
  | String c rest => Ascii.eqb c " " && all_spaces rest
  end.

(** What may follow a serialized value inside the text [JSON.stringify]
    builds: nothing, a comma, or a line break. *)
Definition delimited (rest : string) : bool :=
  match rest with
  | EmptyString => true
  | String c _ => Ascii.eqb c "," || Ascii.eqb c (ascii_of_nat 10)
  end.

(** The first character of a serialized value: no white space and no
    closing bracket. *)
Definition starts_value (text : string) : bool :=
  match text with
  | EmptyString => false
  | String c _ =>
      negb (is_ws c) && negb (Ascii.eqb c "]") && negb (Ascii.eqb c "}")
  end.

(** What an array element contributes to the text. *)
Definition element_text (indent : string) (item : value) : string :=
  match SerializeJSONProperty indent item with
  | Some str => str
  | None => "null"
  end.

Definition member_text (indent : string) (kv : string * value) : string :=
  QuoteJSONString (fst kv) ++ ": " ++ element_text indent (snd kv).

(** The fuel the element loop and the member loop need. *)
Definition elements_size (items : list value) : nat :=
  fold_right (fun item n => S (size item + n)) 0 items.

Definition members_size (props : list (string * value)) : nat :=
  fold_right (fun kv n => S (size (snd kv) + n)) 0 props.

(** [v] reads back: its text, followed by anything that can follow a
    value, is read as [v], with that rest left over. *)
Definition reads_back (v : value) : Prop :=
  json_data v = true ->
  forall fuel indent rest,
    size v <= fuel ->
    all_spaces indent = true ->
    delimited rest = true ->
    starts_value (element_text indent v) = true /\
    parse_value fuel (element_text indent v ++ rest) = POk v rest.

End Json.

(** ** src/utils/sponsor-service.ts *)

Module Response.
Import Json.

(** One element of [content]; [text] is [None] when the expression stored
    there evaluated to [undefined]. *)
Record TextContent := mkContent {
  type : string;
  text : option string
}.

Record Envelope := mkEnvelope { content : list TextContent }.

(** [data.hierarchy] when the first test of [createResponse] passes:
    [data] is truthy, an object, has the property and it is a string. *)
Definition preformatted_hierarchy (data : value) : option string :=
  match data with
  | VObj props =>
      match get_own props "hierarchy" with
      | Some (VStr tree) => Some tree
      | _ => None
      end
  | _ => None
  end.

(** The second parameter, [_includeSponsorMessage], is never read. *)
Definition createResponse (data : value) : Envelope :=
  match preformatted_hierarchy data with
  | Some tree => mkEnvelope [mkContent "text" (Some tree)]
  | None =>
      match data with
      | VStr s => mkEnvelope [mkContent "text" (Some s)]
      | _ => mkEnvelope [mkContent "text" (JSON_stringify data)]
      end
  end.

(** [...context]: spreading [undefined] adds nothing. *)
Definition spread (context : option (list (string * value)))
  : list (string * value) :=
  match context with
  | Some props => props
  | None => []
  end.

(** [typeof error === 'string' ? error : error.message] *)
Definition error_message (error : JsError + string) : string :=
  match error with
  | inr message => message
  | inl e => err_message e
  end.

(** [{ error: message, ...context }] *)
Definition error_object (message : string)
    (context : option (list (string * value))) : list (string * value) :=
  assign [("error", VStr message)] (spread context).

(** The first parameter is an [Error] or a string; the second an object
    or [undefined]. *)
Definition createErrorResponse (error : JsError + string)
    (context : option (list (string * value))) : Envelope :=
  createResponse (VObj (error_object (error_message error) context)).

End Response.

(** ** Sample environments *)

Module Examples.
Import Config Shared.

(** [CLICKUP_WORKSPACES] with two workspaces, default [work]; the legacy
    variables are set as well. *)
Definition two_workspaces : RawWorkspaces :=
  mkRawWorkspaces (Some "work")
    (Some [ ("work", mkRawWorkspace (Some "pk_work") (Some "9001")
                                    (Some "Work account"));
            ("personal", mkRawWorkspace (Some "pk_home") (Some "9002") None) ]).

Definition env_multi : Env :=
  mkEnv (Some "pk_legacy") (Some "9000") (Some (Parsed two_workspaces)) [] [].

Definition config_multi : Configuration :=
  mkConfiguration "pk_legacy" "9000"
    (Some (mkWorkspaces "work"
       [ ("work", mkWorkspaceConfig "pk_work" "9001" (Some "Work account"));
         ("personal", mkWorkspaceConfig "pk_home" "9002" None) ]))
    [] [].

(** The same blob without the legacy variables. *)
Definition env_multi_only : Env :=
  mkEnv None None (Some (Parsed two_workspaces)) [] [].

(** Only [CLICKUP_API_KEY] and [CLICKUP_TEAM_ID]. *)
Definition env_legacy : Env :=
  mkEnv (Some "pk_legacy") (Some "9000") None [] [].

Definition config_legacy : Configuration :=
  mkConfiguration "pk_legacy" "9000" None [] [].

(** A blob whose [default] names no workspace of the map: the name is one
    every object inherits. *)
Definition env_default_toString : Env :=
  mkEnv None None
    (Some (Parsed (mkRawWorkspaces (Some "toString")
       (Some [ ("work", mkRawWorkspace (Some "pk_work") (Some "9001") None) ]))))
    [] [].

(** A blob whose [default] names no workspace and nothing inherited. *)
Definition env_default_missing : Env :=
  mkEnv None None
    (Some (Parsed (mkRawWorkspaces (Some "staging")
       (Some [ ("work", mkRawWorkspace (Some "pk_work") (Some "9001") None) ]))))
    [] [].

(** A payload shaped like the one of the hierarchy tool. *)
Definition hierarchy_payload : Json.value :=
  Json.VObj [("hierarchy", Json.VStr "root"); ("count", Json.VNum 1)].

(** An error context that happens to carry a [hierarchy] string. *)
Definition hierarchy_context : list (string * Json.value) :=
  [("hierarchy", Json.VStr "tree")].

Definition tool_context : list (string * Json.value) :=
  [("code", Json.VNum 404); ("tool", Json.VStr "get_task")].

End Examples.

(** ** Tenancy of the cached objects *)

Module Tenancy.
Import Config Shared.

(** The services object [s] carries the credentials the configuration
    gives for the key [k]. *)
Definition bound_to (configuration : Configuration) (k : string)
    (s : ClickUpServices) : Prop :=
  exists v,
    getWorkspaceConfig configuration (Some k) = Ok v /\
    apiKey s = pv_token v /\
    bound_teamId s = pv_teamId v.

(** Every cached object carries the credentials of the key it is cached
    under. *)
Definition credentials_inv (configuration : Configuration) (st : Registry)
  : Prop :=
  forall k s, workspaceServicesMap st !! k = Some s -> bound_to configuration k s.

(** The key a selector resolves to in [getClickUpServices]. *)
Definition resolved_key (configuration : Configuration) (sel : option string)
  : string :=
  or_else sel (getDefaultWorkspace configuration).

End Tenancy.

(** ** Vocabulary for the load of config.ts *)

Module LoadFacts.
Import Config.

(** The names the legacy validation reports as missing. *)
Definition missing_names (env : Env) : list string :=
  (if truthy (env_clickupApiKey env) then [] else ["clickupApiKey"]) ++
  (if truthy (env_clickupTeamId env) then [] else ["clickupTeamId"]).



End LoadFacts.

(** ** What JSON keeps of a value *)

Module JsonLoss.
Import Json.

(** What is left of a value after [JSON.stringify] and [JSON.parse]: a
    property whose value is [undefined] is gone, an [undefined] element of
    an array is [null]. *)
Fixpoint prune (v : value) : value :=
  match v with
  | VArr items =>
      VArr (map (fun item =>
                   match item with
                   | VUndefined => VNull
                   | _ => prune item
                   end) items)
  | VObj props =>
      VObj ((fix members (ps : list (string * value)) : list (string * value) :=
               match ps with
               | [] => []
               | (k, item) :: rest =>
                   match item with
                   | VUndefined => members rest
                   | _ => (k, prune item) :: members rest
                   end
               end) props)
  | _ => v
  end.

(** Values of the model proper: numbers are safe integers and every object
    lists its keys in enumeration order; [undefined] may occur anywhere. *)
Fixpoint plain (v : value) : bool :=
  match v with
  | VNum n => safe_integer n
  | VArr items => forallb plain items
  | VObj props =>
      canonical (map fst props) &&
      (fix all (ps : list (string * value)) : bool :=
         match ps with
         | [] => true
         | (_, item) :: rest => plain item && all rest
         end) props
  | _ => true
  end.

(** The properties [prune] keeps. *)
Definition kept (kv : string * value) : option (string * value) :=
  match snd kv with
  | VUndefined => None
  | item => Some (fst kv, prune item)
  end.

(** JavaScript truthiness of a value. *)
Definition truthy_value (v : value) : bool :=
  match v with
  | VUndefined | VNull => false
  | VBool b => b
  | VNum n => negb (n =? 0)%Z
  | VStr s => negb (String.eqb s "")
  | VArr _ | VObj _ => true
  end.

End JsonLoss.

(** ** src/utils/sponsor-service.ts, the bulk response *)

Module Bulk.
Import Json JsonLoss Response.

(** The parts of a bulk result [createBulkResponse] reads. *)
Record Totals := mkTotals { total : Z; success : Z; failure : Z }.

Record Failure := mkFailure { item : value; error : JsError }.

Record BulkResult := mkBulkResult { totals : Totals; failed : list Failure }.

(** [item?.id] *)
Definition optional_id (item : value) : value :=
  match item with
  | VObj props =>
      match get_own props "id" with
      | Some v => v
      | None => VUndefined
      end
  | _ => VUndefined
  end.

(** The arrow function mapped over [result.failed]. *)
Definition failure_entry (f : Failure) : value :=
  VObj [ ("id", if truthy_value (optional_id (item f))
                then optional_id (item f) else item f);
         ("error", VStr (err_message (error f))) ].

Definition bulk_object (result : BulkResult) : value :=
  VObj [ ("success", VBool true);
         ("total", VNum (total (totals result)));
         ("successful", VNum (success (totals result)));
         ("failed", VNum (failure (totals result)));
         ("failures", VArr (map failure_entry (failed result))) ].

Definition createBulkResponse (result : BulkResult) : Envelope :=
  createResponse (bulk_object result).

End Bulk.

(** ** src/config.ts, the comma-separated lists *)

Module Lists.

(** [s.split(c)] for a one-character separator: never the empty array. *)
Fixpoint split (sep : ascii) (s : string) : list string :=
  match s with
  | EmptyString => [EmptyString]
  | String c rest =>
      if Ascii.eqb c sep then EmptyString :: split sep rest
      else
        match split sep rest with
        | piece :: pieces => String c piece :: pieces
        | [] => [String c EmptyString]
        end
  end.

(** The white space and line terminators [String.prototype.trim] removes,
    as the UTF-8 bytes of the code points: U+0009 to U+000D and U+0020; *)
Definition space1 (a : ascii) : bool :=
  let n := nat_of_ascii a in
  Nat.leb 9 n && Nat.leb n 13 || Nat.eqb n 32.

(** U+00A0; *)
Definition space2 (a b : ascii) : bool :=
  Nat.eqb (nat_of_ascii a) 194 && Nat.eqb (nat_of_ascii b) 160.

(** U+1680, U+2000 to U+200A, U+2028, U+2029, U+202F, U+205F, U+3000 and
    U+FEFF. *)
Definition space3 (a b c : ascii) : bool :=
  let x := nat_of_ascii a in
  let y := nat_of_ascii b in
  let z := nat_of_ascii c in
  Nat.eqb x 225 && Nat.eqb y 154 && Nat.eqb z 128 ||
  Nat.eqb x 226 && Nat.eqb y 128 &&
    (Nat.leb 128 z && Nat.leb z 138 || Nat.eqb z 168 || Nat.eqb z 169 ||
     Nat.eqb z 175) ||
  Nat.eqb x 226 && Nat.eqb y 129 && Nat.eqb z 159 ||
  Nat.eqb x 227 && Nat.eqb y 128 && Nat.eqb z 128 ||
  Nat.eqb x 239 && Nat.eqb y 187 && Nat.eqb z 191.

(** [s.trimStart()] *)
Fixpoint trimStart (s : string) : string :=
  match s with
  | String a r1 =>
      if space1 a then trimStart r1
      else
        match r1 with
        | String b r2 =>
            if space2 a b then trimStart r2
            else
              match r2 with
              | String c r3 => if space3 a b c then trimStart r3 else s
              | EmptyString => s
              end
        | EmptyString => s
        end
  | EmptyString => s
  end.

(** Nothing but white space. *)
Definition blank (s : string) : bool := String.eqb (trimStart s) "".

(** [s.trimEnd()]: the text up to the last character that is not white
    space. *)
Fixpoint trimEnd (s : string) : string :=
  match s with
  | EmptyString => EmptyString
  | String c rest => if blank s then EmptyString else String c (trimEnd rest)
  end.

(** [s.trim()] *)
Definition trim (s : string) : string := trimEnd (trimStart s).

(** [value.split(',').map(x => x.trim()).filter(x => x !== '')] *)
Definition parse_list (value : string) : list string :=
  List.filter (fun x => negb (String.eqb x ""))
              (map trim (split ","%char value)).

(** [parseOrigins], lines 132-135. *)
Definition parseOrigins (value : option string) (defaultValue : list string)
  : list string :=
  match value with
  | Some s => if truthy value then parse_list s else defaultValue
  | None => defaultValue
  end.

(** The [disabledTools] and [enabledTools] fields of the configuration
    object, lines 171-176: [value?.split(',')... || []], where [value] is
    the first non-empty setting or [undefined]. *)
Definition tool_list (value : option string) : list string :=
  match value with
  | Some s => parse_list s
  | None => []
  end.

(** The characters of a string. *)
Definition has_char (c : ascii) (s : string) : Prop :=
  In c (list_ascii_of_string s).

(** One white-space code point at the head of [s]: what follows it. *)
Definition white_prefix (s : string) : option string :=
  match s with
  | String a r1 =>
      if space1 a then Some r1
      else
        match r1 with
        | String b r2 =>
            if space2 a b then Some r2
            else
              match r2 with
              | String c r3 => if space3 a b c then Some r3 else None
              | EmptyString => None
              end
        | EmptyString => None
        end
  | EmptyString => None
  end.

(** A name as the lists hold it. *)
Definition clean (x : string) : Prop :=
  x <> "" /\ trim x = x /\ ~ has_char ","%char x.

End Lists.

(** ** src/config.ts, the command line *)

Module Args.
Import Lists.

(** The variables [--env KEY=value] may set, each with the property of
    [envArgs] it is stored under (lines 35-45). *)
Definition env_keys : list (string * string) :=
  [ ("CLICKUP_API_KEY", "clickupApiKey");
    ("CLICKUP_TEAM_ID", "clickupTeamId");
    ("CLICKUP_WORKSPACES", "clickupWorkspaces");
    ("DOCUMENT_SUPPORT", "documentSupport");
    ("LOG_LEVEL", "logLevel");
    ("DISABLED_TOOLS", "disabledTools");
    ("ENABLED_TOOLS", "enabledTools");
    ("ENABLE_SSE", "enableSSE");
    ("SSE_PORT", "ssePort");
    ("ENABLE_STDIO", "enableStdio");
    ("PORT", "port") ].

(** [envArgs]: the properties assigned so far.  A property may hold
    [undefined]. *)
Abbreviation EnvArgs := (gmap string (option string)).

(** [envArgs.x] *)
Definition read (envArgs : EnvArgs) (property : string) : option string :=
  match envArgs !! property with
  | Some value => value
  | None => None
  end.

(** [const [key, value] = arg.split('=')] *)
Definition key_value (arg : string) : option string * option string :=
  match split "="%char arg with
  | key :: value :: _ => (Some key, Some value)
  | [key] => (Some key, None)
  | [] => (None, None)
  end.

(** The eleven statements [if (key === NAME) envArgs.x = value], in
    order. *)
Definition assign_env (key value : option string) (envArgs : EnvArgs)
  : EnvArgs :=
  fold_left (fun acc entry =>
               if strict_eq key (fst entry)
               then <[snd entry := value]> acc
               else acc)
            env_keys envArgs.

(** The loop over [process.argv.slice(2)]: an [--env] that is not the last
    argument takes the next argument, whatever that is. *)
Fixpoint parse_args (args : list string) (envArgs : EnvArgs) : EnvArgs :=
  match args with
  | arg :: rest =>
      match rest with
      | next :: rest' =>
          if String.eqb arg "--env" then
            let '(key, value) := key_value next in
            parse_args rest' (assign_env key value envArgs)
          else parse_args rest envArgs
      | [] => envArgs
      end
  | [] => envArgs
  end.

(** [a || b] on settings. *)
Definition or_setting (a b : option string) : option string :=
  if truthy a then a else b.

(** The [disabledTools] and [enabledTools] fields of the configuration
    object (lines 171-176), from the command line and the environment. *)
Definition disabledTools_of (envArgs : EnvArgs) (process_env : gmap string string)
  : list string :=
  tool_list (or_setting (or_setting (read envArgs "disabledTools")
                                    (process_env !! "DISABLED_TOOLS"))
                        (process_env !! "DISABLED_COMMANDS")).

Definition enabledTools_of (envArgs : EnvArgs) (process_env : gmap string string)
  : list string :=
  tool_list (or_setting (read envArgs "enabledTools")
                        (process_env !! "ENABLED_TOOLS")).

(** The properties of [envArgs] the loop can set. *)
Definition env_properties : list string := map snd env_keys.

(** Every value held is free of ['='] and sits under one of the eleven
    properties. *)
Definition args_inv (envArgs : EnvArgs) : Prop :=
  forall property value,
    envArgs !! property = Some value ->
    In property env_properties /\
    forall v, value = Some v -> ~ has_char "="%char v.

End Args.

(** ** src/tools/workspace.ts, the discovery tool *)

Module WorkspaceTools.
Import Config Json JsonLoss Response.

(** A property that holds a string or [undefined]. *)
Definition optional_string (v : option string) : value :=
  match v with
  | Some s => VStr s
  | None => VUndefined
  end.

(** The arrow function mapped over [workspaceIds]. *)
Definition workspace_info (configuration : Configuration)
    (defaultWorkspace id : string) : result value :=
  match getWorkspaceConfig configuration (Some id) with
  | Throw e => Throw e
  | Ok config =>
      Ok (VObj [ ("id", VStr id);
                 ("teamId", optional_string (pv_teamId config));
                 ("description",
                  if truthy (pv_description config)
                  then optional_string (pv_description config)
                  else if String.eqb id "default"
                       then VStr "Default workspace"
                       else VUndefined);
                 ("isDefault", VBool (String.eqb id defaultWorkspace)) ])
  end.

(** [xs.map(f)] for a callback that may throw. *)
Fixpoint map_result {A B : Type} (f : A -> result B) (xs : list A)
  : result (list B) :=
  match xs with
  | [] => Ok []
  | x :: rest =>
      match f x with
      | Throw e => Throw e
      | Ok y =>
          match map_result f rest with
          | Throw e => Throw e
          | Ok ys => Ok (y :: ys)
          end
      end
  end.

Definition handleGetAvailableWorkspaces (configuration : Configuration)
  : Envelope :=
  let workspaceIds := getAvailableWorkspaces configuration in
  let defaultWorkspace := getDefaultWorkspace configuration in
  match map_result (workspace_info configuration defaultWorkspace)
                   workspaceIds with
  | Ok workspaces =>
      createResponse
        (VObj [ ("default", VStr defaultWorkspace);
                ("workspaces", VArr workspaces);
                ("count", VNum (Z.of_nat (length workspaces))) ])
  | Throw error =>
      createErrorResponse
        (inr ("Error getting available workspaces: " ++ err_message error))
        None
  end.

(** What the reply says of the workspace [id]: the entry [e] names it,
    gives the team id of the configuration [getWorkspaceConfig] returns for
    it, flags the default, and has no other property than these and a
    description. *)
Definition describes (configuration : Configuration) (id : string)
    (e : value) : Prop :=
  exists props config,
    e = VObj props /\
    getWorkspaceConfig configuration (Some id) = Ok config /\
    get_own props "id" = Some (VStr id) /\
    get_own props "teamId" = option_map VStr (pv_teamId config) /\
    get_own props "isDefault"
    = Some (VBool (String.eqb id (getDefaultWorkspace configuration))) /\
    forall k, In k (map fst props) ->
              In k ["id"; "teamId"; "description"; "isDefault"].

End WorkspaceTools.

(** ** Tool handlers and the services they await *)

Module Remote.
Import Config Shared.

(** The service methods the handlers below call, with the arguments as the
    handlers pass them. *)
Inductive Call :=
| AddDependency (taskId depends_on dependency_of : option string)
| DeleteDependency (taskId dependsOn dependencyOf : option string)
| AddTaskLink (taskId linksTo : option string)
| DeleteTaskLink (taskId linksTo : option string)
| GetWorkspaceHierarchy.

(** A method call on the services object [on]. *)
Record Request := mkRequest { on : ClickUpServices; call : Call }.

(** The state a handler runs in: the module state of shared.ts and the
    calls made on services objects so far, oldest first. *)
Record World := mkWorld { registry : Registry; requests : list Request }.

(** Code that may throw and that changes a state of type [S]. *)
Definition St (S A : Type) : Type := S -> result A * S.

Definition wret {S A} (a : A) : St S A := fun w => (Ok a, w).
Definition wraise {S A} (e : JsError) : St S A := fun w => (Throw e, w).
Definition wbind {S A B} (m : St S A) (k : A -> St S B) : St S B :=
  fun w =>
    match m w with
    | (Ok a, w') => k a w'
    | (Throw e, w') => (Throw e, w')
    end.
(** [try { m } catch (error) { handler error }] *)
Definition wtry {S A} (m : St S A) (handler : JsError -> St S A) : St S A :=
  fun w =>
    match m w with
    | (Ok a, w') => (Ok a, w')
    | (Throw e, w') => handler e w'
    end.

(** Handler code: it may throw, change the registry and call services. *)
Definition W (A : Type) : Type := St World A.

Notation "'let+' x ':=' m 'in' k" := (wbind m (fun x => k))
  (at level 10, x name, m at level 100, k at level 200).

(** Code of shared.ts and workspace-helper.ts run from a handler. *)
Definition on_registry {A} (m : M A) : W A :=
  fun w =>
    let '(r, st) := m (registry w) in
    (r, mkWorld st (requests w)).

(** [await services.x.method(...)]: the call is made, and the promise
    settles as [outcome] says, given the calls made before it: it resolves
    with a value or rejects with an [Error]. *)
Definition await {A} (outcome : list Request -> Request -> result A)
    (services : ClickUpServices) (c : Call) : W A :=
  fun w =>
    let r := mkRequest services c in
    (outcome (requests w) r, mkWorld (registry w) (requests w ++ [r])).

(** A template literal prints [undefined] by name. *)
Definition template (v : option string) : string :=
  match v with
  | Some s => s
  | None => "undefined"
  end.

End Remote.

(** ** src/tools/task, the dependency and link handlers *)

Module DependencyTools.
Import Config Shared Helper Json Response Remote.

(** The parameter object of [handleAddDependency] and
    [handleDeleteDependency]; any field may be missing at run time. *)
Record DependencyParams := mkDependencyParams {
  task_id : option string;
  depends_on : option string;
  dependency_of : option string;
  workspace : option string
}.

(** The parameter object of [handleAddTaskLink] and
    [handleDeleteTaskLink], with the fields [task_id], [links_to] and
    [workspace]. *)
Record LinkParams := mkLinkParams {
  link_task_id : option string;
  links_to : option string;
  link_workspace : option string
}.

Section Handlers.
Variable configuration : Configuration.
(** The task service of a services object. *)
Variable taskService : list Request -> Request -> result value.

Definition handleAddDependency (params : DependencyParams) : W Envelope :=
  wtry
    (if negb (truthy (task_id params)) then
       wret (createErrorResponse (inr "task_id is required") None)
     else if negb (truthy (depends_on params)) &&
             negb (truthy (dependency_of params)) then
       wret (createErrorResponse
               (inr "Either depends_on or dependency_of is required") None)
     else
       let+ services :=
         on_registry (getServicesForWorkspace configuration (workspace params)) in
       let+ dependency :=
         await taskService services
           (AddDependency (task_id params) (depends_on params)
                          (dependency_of params)) in
       let relationshipType :=
         if truthy (depends_on params)
         then "Task " ++ template (task_id params) ++
              " now depends on task " ++ template (depends_on params)
         else "Task " ++ template (dependency_of params) ++
              " now depends on task " ++ template (task_id params) in
       wret (createResponse
               (VObj [ ("message",
                        VStr ("Dependency added successfully. " ++
                              relationshipType));
                       ("dependency", dependency) ])))
    (fun error =>
       wret (createErrorResponse
               (inr ("Error adding dependency: " ++ err_message error)) None)).

Definition handleDeleteDependency (params : DependencyParams) : W Envelope :=
  wtry
    (if negb (truthy (task_id params)) then
       wret (createErrorResponse (inr "task_id is required") None)
     else if negb (truthy (depends_on params)) &&
             negb (truthy (dependency_of params)) then
       wret (createErrorResponse
               (inr "Either depends_on or dependency_of is required") None)
     else
       let+ services :=
         on_registry (getServicesForWorkspace configuration (workspace params)) in
       let+ done :=
         await taskService services
           (DeleteDependency (task_id params) (depends_on params)
                             (dependency_of params)) in
       wret (createResponse
               (VObj [ ("message",
                        VStr ("Dependency removed successfully from task " ++
                              template (task_id params))) ])))
    (fun error =>
       wret (createErrorResponse
               (inr ("Error removing dependency: " ++ err_message error)) None)).

Definition handleAddTaskLink (params : LinkParams) : W Envelope :=
  wtry
    (if negb (truthy (link_task_id params)) then
       wret (createErrorResponse (inr "task_id is required") None)
     else if negb (truthy (links_to params)) then
       wret (createErrorResponse (inr "links_to is required") None)
     else
       let+ services :=
         on_registry (getServicesForWorkspace configuration
                        (link_workspace params)) in
       let+ link :=
         await taskService services
           (AddTaskLink (link_task_id params) (links_to params)) in
       wret (createResponse
               (VObj [ ("message",
                        VStr ("Task link added successfully: " ++
                              template (link_task_id params) ++ " <-> " ++
                              template (links_to params)));
                       ("link", link) ])))
    (fun error =>
       wret (createErrorResponse
               (inr ("Error adding task link: " ++ err_message error)) None)).

Definition handleDeleteTaskLink (params : LinkParams) : W Envelope :=
  wtry
    (if negb (truthy (link_task_id params)) then
       wret (createErrorResponse (inr "task_id is required") None)
     else if negb (truthy (links_to params)) then
       wret (createErrorResponse (inr "links_to is required") None)
     else
       let+ services :=
         on_registry (getServicesForWorkspace configuration
                        (link_workspace params)) in
       let+ done :=
         await taskService services
           (DeleteTaskLink (link_task_id params) (links_to params)) in
       wret (createResponse
               (VObj [ ("message",
                        VStr ("Task link removed successfully: " ++
                              template (link_task_id params) ++ " <-> " ++
                              template (links_to params))) ])))
    (fun error =>
       wret (createErrorResponse
               (inr ("Error removing task link: " ++ err_message error)) None)).

End Handlers.


(** The handler returned, without touching the world [w], a reply whose
    text reads back as [{error: message}]. *)
Definition refuses (outcome : result Envelope * World) (w : World)
    (message : string) : Prop :=
  exists text,
    outcome = (Ok (mkEnvelope [mkContent "text" (Some text)]), w) /\
    JSON_parse text = Returns (VObj [("error", VStr message)]).

(** The message of [getServicesForWorkspace] for a selector whose lookup
    failed with [e]. *)
Definition unavailable (configuration : Configuration) (e : JsError) : string :=
  err_message e ++ newline ++ "Available workspaces: " ++
  join ", " (getAvailableWorkspaces configuration).

(** The checks a handler makes before it asks for services. *)
Definition dependency_params_ok (params : DependencyParams) : bool :=
  truthy (task_id params) &&
  (truthy (depends_on params) || truthy (dependency_of params)).

Definition link_params_ok (params : LinkParams) : bool :=
  truthy (link_task_id params) && truthy (links_to params).

(** What one run of a handler did to the world [w], for the workspace
    selector [sel] and the service call [c] of the handler: when the
    parameters pass the checks ([ok]) and the selector resolves, the one
    new call is [c], made on the services object cached for the selector's
    workspace, which carries that workspace's credentials; otherwise the
    world is as it was. *)
Definition routed (configuration : Configuration) (ok : bool)
    (sel : option string) (c : Call) (w w' : World) : Prop :=
  if ok && is_Ok (getWorkspaceConfig configuration sel) then
    exists services,
      requests w' = (requests w ++ [mkRequest services c])%list /\
      workspaceServicesMap (registry w')
        !! Tenancy.resolved_key configuration sel = Some services /\
      Tenancy.bound_to configuration
        (Tenancy.resolved_key configuration sel) services /\
      reachable configuration (registry w')
  else w' = w.

(** A task service for the examples: it accepts a dependency on the
    task [86a2] and rejects every other call. *)
Definition sample_taskService (log : list Request) (r : Request)
  : result value :=
  match call r with
  | AddDependency _ depends_on _ =>
      if strict_eq depends_on "86a2"
      then Ok (VObj [("task_id", VStr "86a1"); ("depends_on", VStr "86a2")])
      else Throw (new_Error "Team not authorized")
  | _ => Throw (new_Error "Team not authorized")
  end.

Definition sample_world : World := mkWorld empty_registry [].

End DependencyTools.

(** ** src/services/clickup/task/task-dependencies.ts *)

Module TaskDependencies.
Import Json Lists Remote.

Inductive Method := POST | DELETE.

(** [AddDependencyData] *)
Record AddDependencyData := mkAddDependencyData {
  data_depends_on : option string;
  data_dependency_of : option string
}.

(** A request handed to the HTTP client of the core. *)
Record HttpRequest := mkHttp {
  method : Method;
  url : string;
  body : option AddDependencyData
}.

(** The bytes the [application/x-www-form-urlencoded] serializer leaves as
    they are: ASCII letters and digits and [*], [-], [.], [_]. *)
Definition unreserved (c : ascii) : bool :=
  let n := nat_of_ascii c in
  Nat.leb 48 n && Nat.leb n 57 || Nat.leb 65 n && Nat.leb n 90 ||
  Nat.leb 97 n && Nat.leb n 122 ||
  Nat.eqb n 42 || Nat.eqb n 45 || Nat.eqb n 46 || Nat.eqb n 95.

Definition HEX (n : nat) : ascii :=
  nth n [ "0"; "1"; "2"; "3"; "4"; "5"; "6"; "7"; "8"; "9";
          "A"; "B"; "C"; "D"; "E"; "F" ]%char "0"%char.

Definition percent_encode (c : ascii) : string :=
  let n := nat_of_ascii c in
  String "%" (String (HEX (n / 16)) (String (HEX (n mod 16)) "")).

(** One byte of a name or value: a space becomes [+]. *)
Definition form_byte (c : ascii) : string :=
  if unreserved c then String c ""
  else if Ascii.eqb c " " then "+"
  else percent_encode c.

Fixpoint form_urlencode (s : string) : string :=
  match s with
  | EmptyString => EmptyString
  | String c rest => form_byte c ++ form_urlencode rest
  end.

(** [params.toString()] for a [URLSearchParams] holding the pairs
    [params], in the order they were appended. *)
Definition URLSearchParams_toString (params : list (string * string))
  : string :=
  join "&" (map (fun p => form_urlencode (fst p) ++ "=" ++
                          form_urlencode (snd p)) params).

Section Service.
(** [core.client]: how a request settles given the requests made before
    it; a resolved request gives [response.data]. *)
Variable client : list HttpRequest -> HttpRequest -> result value.
(** [core.handleError(error, message)]; [core.logOperation] only logs. *)
Variable handleError : JsError -> string -> JsError.

Definition send (r : HttpRequest) : St (list HttpRequest) value :=
  fun log => (client log r, (log ++ [r])%list).

Definition addDependency (taskId : string) (data : AddDependencyData)
  : St (list HttpRequest) value :=
  wtry
    (if negb (truthy (data_depends_on data)) &&
        negb (truthy (data_dependency_of data)) then
       wraise (new_Error "Either depends_on or dependency_of is required")
     else
       let+ response_data :=
         send (mkHttp POST ("/task/" ++ taskId ++ "/dependency") (Some data)) in
       wret response_data)
    (fun error => wraise (handleError error "Failed to add dependency")).

(** The pairs appended to the [URLSearchParams] of [deleteDependency]. *)
Definition dependency_query (dependsOn dependencyOf : option string)
  : list (string * string) :=
  ((if truthy dependsOn then [("depends_on", or_else dependsOn "")] else []) ++
   (if truthy dependencyOf then [("dependency_of", or_else dependencyOf "")]
    else []))%list.

Definition deleteDependency (taskId : string)
    (dependsOn dependencyOf : option string) : St (list HttpRequest) unit :=
  wtry
    (if negb (truthy dependsOn) && negb (truthy dependencyOf) then
       wraise (new_Error
                 "Either depends_on or dependency_of query parameter is required")
     else
       let params := dependency_query dependsOn dependencyOf in
       let+ response_data :=
         send (mkHttp DELETE
                 ("/task/" ++ taskId ++ "/dependency?" ++
                  URLSearchParams_toString params) None) in
       wret tt)
    (fun error => wraise (handleError error "Failed to remove dependency")).

Definition addTaskLink (taskId linksTo : string)
  : St (list HttpRequest) value :=
  wtry
    (let+ response_data :=
       send (mkHttp POST ("/task/" ++ taskId ++ "/link/" ++ linksTo) None) in
     wret response_data)
    (fun error => wraise (handleError error "Failed to add task link")).

Definition deleteTaskLink (taskId linksTo : string)
  : St (list HttpRequest) unit :=
  wtry
    (let+ response_data :=
       send (mkHttp DELETE ("/task/" ++ taskId ++ "/link/" ++ linksTo) None) in
     wret tt)
    (fun error => wraise (handleError error "Failed to remove task link")).

End Service.

(** Characters an encoded name or value is made of. *)
Definition form_safe (c : ascii) : bool :=
  unreserved c || Ascii.eqb c "+" || Ascii.eqb c "%".

(** A client and an error handler for the examples. *)
Definition sample_client (log : list HttpRequest) (r : HttpRequest)
  : result value :=
  Ok VNull.

Definition sample_handleError (error : JsError) (message : string) : JsError :=
  new_Error (message ++ ": " ++ err_message error).

End TaskDependencies.

(** ** src/tools/workspace.ts, the hierarchy tool *)

Module HierarchyTool.
Import Config Shared Helper Json Response Remote Lists.

(** [WorkspaceNode], and the root of a [WorkspaceTree], which is a node
    without a [type] property.  A node without [children] is a node with
    none: the code reads [node.children || []]. *)
#[local] Unset Elimination Schemes.
Inductive WorkspaceNode :=
| Node (name id : string) (type : option string)
       (children : list WorkspaceNode).
#[local] Set Elimination Schemes.

Section Format.
(** [t.charAt(0).toUpperCase() + t.slice(1)]; for the node types of the
    hierarchy, [space], [folder] and [list], it gives [Space], [Folder]
    and [List]. *)
Variable capitalized : string -> string.

Definition idType (type : option string) : string :=
  match type with
  | Some t => capitalized t ++ " ID"
  | None => "Workspace ID"
  end.

(** [formatNodeAsTree(node, level, isLast, parentPrefix)] *)
Fixpoint formatNodeAsTree (node : WorkspaceNode) (level : nat)
    (isLast : bool) (parentPrefix : string) : list string :=
  match node with
  | Node name id type children =>
      let currentPrefix :=
        match level with
        | 0 => ""
        | _ => parentPrefix ++ (if isLast then "└── " else "├── ")
        end in
      let childPrefix :=
        match level with
        | 0 => ""
        | _ => parentPrefix ++ (if isLast then "    " else "│   ")
        end in
      (currentPrefix ++ name ++ " (" ++ idType type ++ ": " ++ id ++ ")")
      :: (fix each (cs : list WorkspaceNode) : list string :=
            match cs with
            | [] => []
            | child :: rest =>
                (formatNodeAsTree child (S level)
                   (match rest with [] => true | _ => false end)
                   childPrefix
                 ++ each rest)%list
            end) children
  end.

(** [formatTreeOutput(hierarchy)], for [hierarchy.root]. *)
Definition formatTreeOutput (root : WorkspaceNode) : string :=
  join newline (formatNodeAsTree root 0 true "").

(** The [forEach] over the children of a node. *)
Fixpoint format_children (level : nat) (childPrefix : string)
    (cs : list WorkspaceNode) : list string :=
  match cs with
  | [] => []
  | child :: rest =>
      (formatNodeAsTree child (S level)
         (match rest with [] => true | _ => false end) childPrefix
       ++ format_children level childPrefix rest)%list
  end.

(** What a line says of its node. *)
Definition label (node : WorkspaceNode) : string :=
  match node with
  | Node name id type _ => name ++ " (" ++ idType type ++ ": " ++ id ++ ")"
  end.

(** The line [line] shows the node [node] behind some drawing. *)
Definition shows (line : string) (node : WorkspaceNode) : Prop :=
  exists drawing,
    line = drawing ++ label node /\
    ~ has_char (ascii_of_nat 10) drawing.

Variable configuration : Configuration.
(** The workspace service of a services object. *)
Variable workspaceService : list Request -> Request -> result WorkspaceNode.

Definition handleGetWorkspaceHierarchy (params_workspace : option string)
  : W Envelope :=
  wtry
    (let+ services :=
       on_registry (getServicesForWorkspace configuration params_workspace) in
     let+ hierarchy := await workspaceService services GetWorkspaceHierarchy in
     let treeOutput := formatTreeOutput hierarchy in
     wret (createResponse (VObj [("hierarchy", VStr treeOutput)])))
    (fun error =>
       wret (createErrorResponse
               (inr ("Error getting workspace hierarchy: " ++
                     err_message error)) None)).

End Format.

(** The nodes of a tree, each before its children. *)
Fixpoint preorder (node : WorkspaceNode) : list WorkspaceNode :=
  match node with
  | Node _ _ _ children => node :: flat_map preorder children
  end.

(** A capitalizer for the examples: ASCII letters only. *)
Definition ascii_capitalized (t : string) : string :=
  match t with
  | EmptyString => EmptyString
  | String c rest =>
      let n := nat_of_ascii c in
      String (if Nat.leb 97 n && Nat.leb n 122 then ascii_of_nat (n - 32)
              else c) rest
  end.

Definition sample_tree : WorkspaceNode :=
  Node "Acme" "9001" None
    [ Node "Engineering" "s1" (Some "space")
        [ Node "Backlog" "l1" (Some "list") [];
          Node "Sprints" "f1" (Some "folder")
            [ Node "Sprint 12" "l2" (Some "list") [] ] ];
      Node "Sales" "s2" (Some "space") [] ].


End HierarchyTool.

(** ** src/tools/tool-enhancer.ts and the parameter helpers *)

Module ToolEnhancer.
Import Json.

(** [workspaceParameter] of workspace-helper.ts. *)
Definition workspaceParameter : list (string * value) :=
  [ ("workspace",
     VObj [ ("type", VStr "string");
            ("description",
             VStr "Workspace identifier (optional, uses default if not specified)");
            ("optional", VBool true) ]) ].

(** [v.k] and [v?.k] for a key no prototype defines: the own property of
    an object, [undefined] for anything else. *)
Definition member (v : value) (k : string) : value :=
  match v with
  | VObj props =>
      match get_own props k with
      | Some x => x
      | None => VUndefined
      end
  | _ => VUndefined
  end.

(** The properties a spread [...(v || {})] copies.  Read for values of
    the type [Tool], where [inputSchema] and its [properties] are objects
    when they are there; a falsy value, a number and a boolean have none.
    (An array or a non-empty string would contribute its indices, which
    this model leaves out: see [record_like].) *)
Definition own_properties (v : value) : list (string * value) :=
  match v with
  | VObj props => props
  | _ => []
  end.

(** The values whose spread [own_properties] gives. *)
Definition record_like (v : value) : bool :=
  match v with
  | VArr _ => false
  | VStr s => String.eqb s ""
  | _ => true
  end.

(** [enhanceToolWithWorkspace(tool)], on the properties of [tool]. *)
Definition enhanceToolWithWorkspace (tool : list (string * value))
  : list (string * value) :=
  let inputSchema := member (VObj tool) "inputSchema" in
  let properties := member inputSchema "properties" in
  set_property (assign [] tool) "inputSchema"
    (VObj (set_property
             (assign [("type", VStr "object")] (own_properties inputSchema))
             "properties"
             (VObj (assign (assign [] (own_properties properties))
                           workspaceParameter)))).

Definition enhanceToolsWithWorkspace (tools : list (list (string * value)))
  : list (list (string * value)) :=
  map enhanceToolWithWorkspace tools.

(** A tool as the type [Tool] has it: [inputSchema] and its [properties]
    are objects when they are there, and each of the three objects lists
    its keys as JavaScript enumerates them. *)
Definition typed_tool (tool : list (string * value)) : bool :=
  let inputSchema := member (VObj tool) "inputSchema" in
  let properties := member inputSchema "properties" in
  record_like inputSchema && record_like properties &&
  canonical (map fst tool) &&
  canonical (map fst (own_properties inputSchema)) &&
  canonical (map fst (own_properties properties)).

(** The keys of [props] up to [k] are array indices, and [k] is none. *)
Definition headed (k : string) (props : list (string * value)) : Prop :=
  exists indices v rest,
    props = (indices ++ (k, v) :: rest)%list /\
    array_index k = None /\
    Forall (fun kv => array_index (fst kv) <> None) indices.

(** The [add_dependency] tool of the dependency tools, abridged. *)
Definition sample_tool : list (string * value) :=
  [ ("name", VStr "add_dependency");
    ("description", VStr "Adds a dependency between two tasks.");
    ("inputSchema",
     VObj [ ("type", VStr "object");
            ("properties",
             VObj [ ("task_id", VObj [("type", VStr "string")]);
                    ("depends_on", VObj [("type", VStr "string")]) ]);
            ("required", VArr [VStr "task_id"]) ]) ].

End ToolEnhancer.

(** ** A run of the server: tool calls in sequence *)

Module Session.
Import Config Shared Helper Json Response Remote DependencyTools HierarchyTool.

(** A call of one of the tools above, by the name the tool is registered
    under, with its parameters. *)
Inductive ToolCall :=
| add_dependency (params : DependencyParams)
| delete_dependency (params : DependencyParams)
| add_task_link (params : LinkParams)
| delete_task_link (params : LinkParams)
| get_workspace_hierarchy (params_workspace : option string).

Section Run.
Variable configuration : Configuration.
Variable taskService : list Request -> Request -> result value.
Variable workspaceService : list Request -> Request -> result WorkspaceNode.
Variable capitalized : string -> string.

(** The handler of a tool call. *)
Definition handle (c : ToolCall) : W Envelope :=
  match c with
  | add_dependency params =>
      handleAddDependency configuration taskService params
  | delete_dependency params =>
      handleDeleteDependency configuration taskService params
  | add_task_link params =>
      handleAddTaskLink configuration taskService params
  | delete_task_link params =>
      handleDeleteTaskLink configuration taskService params
  | get_workspace_hierarchy params_workspace =>
      handleGetWorkspaceHierarchy capitalized configuration workspaceService
                                  params_workspace
  end.

(** The world after a sequence of tool calls, one after the other. *)
Fixpoint run_tools (calls : list ToolCall) (w : World) : World :=
  match calls with
  | [] => w
  | c :: rest => run_tools rest (snd (handle c w))
  end.

(** Every call made so far was made on a services object that is cached,
    under a key whose credentials it carries. *)
Definition requests_inv (w : World) : Prop :=
  forall r, In r (requests w) ->
    exists k,
      workspaceServicesMap (registry w) !! k = Some (on r) /\
      Tenancy.bound_to configuration k (on r).

End Run.

(** The world at start-up: nothing cached, nothing called. *)
Definition start : World := mkWorld empty_registry [].

End Session.

(** * Properties *)

(** ** Strings *)

Section StringFacts.

Lemma append_cons (c : ascii) (s t : string) :
  String c s ++ t = String c (s ++ t).
Proof. reflexivity. Qed.

Lemma append_nil_r (s : string) : s ++ "" = s.
Proof.
  induction s as [|c s IH]; [reflexivity|].
  now rewrite append_cons, IH.
Qed.

Lemma append_assoc (a b c : string) : (a ++ b) ++ c = a ++ (b ++ c).
Proof.
  induction a as [|x a IH]; [reflexivity|].
  now rewrite !append_cons, IH.
Qed.

Lemma includes_refl (s : string) : includes s s.
Proof. exists "", "". now rewrite append_nil_r. Qed.

Lemma includes_app_l (a s t : string) : includes s t -> includes (a ++ s) t.
Proof.
  intros (pre & post & ->). exists (a ++ pre), post.
  now rewrite append_assoc.
Qed.

Lemma includes_app_r (a s t : string) : includes s t -> includes (s ++ a) t.
Proof.
  intros (pre & post & ->). exists pre, (post ++ a).
  now rewrite !append_assoc.
Qed.

(** Every element of an array occurs in its [join]. *)
Lemma join_includes (sep : string) (xs : list string) (x : string) :
  In x xs -> includes (join sep xs) x.
Proof.
  unfold join. induction xs as [|y ys IH]; intros Hin; [destruct Hin|].
  destruct Hin as [->|Hin].
  - destruct ys as [|z zs].
    + apply includes_refl.
    + apply includes_app_r, includes_refl.
  - destruct ys as [|z zs]; [destruct Hin|].
    change (String.concat sep (y :: z :: zs))
      with (y ++ sep ++ String.concat sep (z :: zs)).
    apply includes_app_l, includes_app_l, IH, Hin.
Qed.

Lemma eqb_empty_false (s : string) : s <> "" -> String.eqb s "" = false.
Proof. intros H. now apply String.eqb_neq. Qed.

Lemma or_else_Some (s d : string) : s <> "" -> or_else (Some s) d = s.
Proof. intros H. unfold or_else. now rewrite eqb_empty_false. Qed.

Lemma or_else_idem (a : option string) (d : string) :
  or_else (Some (or_else a d)) d = or_else a d.
Proof.
  unfold or_else. destruct a as [s|].
  - destruct (String.eqb s "") eqn:E; [|now rewrite E].
    now destruct (String.eqb d "").
  - now destruct (String.eqb d "").
Qed.

Lemma or_else_empty (d : string) : or_else (Some "") d = or_else None d.
Proof. reflexivity. Qed.

End StringFacts.

(** ** Facts about config.ts *)

Section ConfigFacts.
Import Config.

Lemma own_property_None (ws : list (string * WorkspaceConfig)) (k : string) :
  own_property ws k = None <-> ~ In k (Object_keys ws).
Proof.
  induction ws as [|[k' w] ws IH]; simpl.
  - tauto.
  - destruct (String.eqb k k') eqn:E.
    + apply String.eqb_eq in E. subst. split; [discriminate | tauto].
    + apply String.eqb_neq in E. rewrite IH. split.
      * intros H [H1|H1]; [congruence | tauto].
      * tauto.
Qed.

Lemma own_property_In (ws : list (string * WorkspaceConfig)) (k : string) :
  In k (Object_keys ws) -> exists w, own_property ws k = Some w.
Proof.
  intros Hin. destruct (own_property ws k) as [w|] eqn:E; [eauto|].
  apply own_property_None in E. contradiction.
Qed.

(** A configured key is always found by the property read. *)
Lemma get_property_In (ws : list (string * WorkspaceConfig)) (k : string) :
  In k (Object_keys ws) -> exists w, get_property ws k = Some (OwnWorkspace w).
Proof.
  intros Hin. destruct (own_property_In ws k Hin) as [w Hw].
  exists w. unfold get_property. now rewrite Hw.
Qed.

(** The property read misses exactly on names that are neither own keys
    nor inherited members. *)
Lemma get_property_None (ws : list (string * WorkspaceConfig)) (k : string) :
  get_property ws k = None <-> ~ In k (Object_keys ws) /\ inherited k = false.
Proof.
  unfold get_property. destruct (own_property ws k) as [w|] eqn:E.
  - split; [discriminate|]. intros [H _]. apply own_property_None in H. congruence.
  - apply own_property_None in E. destruct (inherited k); split;
      try discriminate; try tauto. intros [_ H]. discriminate.
Qed.

Lemma validate_Ok (c c' : Configuration) : validate c = Ok c' -> c' = c.
Proof.
  unfold validate. destruct (clickupWorkspaces c) as [cw|].
  - destruct (get_property _ _); [congruence | discriminate].
  - destruct (missingEnvVars c); [congruence | discriminate].
Qed.

Lemma loaded_validate (c : Configuration) : loaded c -> validate c = Ok c.
Proof.
  intros [env H]. unfold load in H.
  destruct (parseWorkspaces _) as [cw|e]; [|discriminate].
  pose proof (validate_Ok _ _ H) as ->. exact H.
Qed.

Lemma loaded_default_truthy (c : Configuration) (cw : ClickUpWorkspacesConfig) :
  loaded c -> clickupWorkspaces c = Some cw -> default cw <> "".
Proof.
  intros [env H] Hcw. unfold load in H.
  destruct (parseWorkspaces _) as [cw'|e] eqn:P; [|discriminate].
  apply validate_Ok in H. subst c. simpl in Hcw. subst cw'.
  unfold parseWorkspaces in P.
  destruct (env_clickupWorkspaces env) as [src|]; [|discriminate].
  destruct (parseWorkspaces_try src) as [p|e] eqn:T; [|discriminate].
  injection P as ->. unfold parseWorkspaces_try in T.
  destruct src as [msg|parsed]; [discriminate|].
  destruct (raw_workspaces parsed) as [entries|]; [|discriminate].
  destruct (truthy (raw_default parsed)) eqn:D; [|discriminate].
  destruct (check_workspaces entries); [|discriminate].
  injection T as <-. simpl.
  unfold truthy in D. destruct (raw_default parsed) as [d|]; [|discriminate].
  unfold or_else. destruct (String.eqb d "") eqn:E; [discriminate|].
  now apply String.eqb_neq.
Qed.

(** The selector [undefined], [''] and the default key itself all read the
    same property. *)
Lemma getWorkspaceConfig_default (c : Configuration) :
  getWorkspaceConfig c (Some (getDefaultWorkspace c)) = getWorkspaceConfig c None.
Proof.
  unfold getWorkspaceConfig, getDefaultWorkspace.
  destruct (clickupWorkspaces c) as [cw|]; [|reflexivity].
  replace (or_else (Some (default cw)) (default cw)) with (default cw);
    [reflexivity|].
  unfold or_else. now destruct (String.eqb (default cw) "").
Qed.

Lemma getWorkspaceConfig_resolved (c : Configuration) (sel : option string) :
  getWorkspaceConfig c (Some (or_else sel (getDefaultWorkspace c)))
  = getWorkspaceConfig c sel.
Proof.
  unfold getWorkspaceConfig, getDefaultWorkspace.
  destruct (clickupWorkspaces c) as [cw|].
  - now rewrite or_else_idem.
  - destruct sel as [s|]; [|reflexivity]. simpl.
    destruct (String.eqb s "") eqn:E; [reflexivity|]. simpl. now rewrite E.
Qed.

(** After a successful load the default workspace always resolves. *)
Lemma loaded_default_Ok (c : Configuration) :
  loaded c -> exists v, getWorkspaceConfig c None = Ok v.
Proof.
  intros H. apply loaded_validate in H. unfold validate in H.
  unfold getWorkspaceConfig. destruct (clickupWorkspaces c) as [cw|].
  - simpl. destruct (get_property _ _) as [v|]; [eauto | discriminate].
  - simpl. eauto.
Qed.

End ConfigFacts.

(** ** Facts about the registry of shared.ts *)

Section RegistryFacts.
Import Config Shared.

Variable configuration : Configuration.

Local Abbreviation resolve := (getClickUpServices configuration).
Local Abbreviation wsId_of sel := (or_else sel (getDefaultWorkspace configuration)).
Local Abbreviation registry_inv := (Shared.registry_inv configuration).
Local Abbreviation reachable := (Shared.reachable configuration).

(** The three ways a call of [getClickUpServices] can go. *)
Lemma getClickUpServices_cached sel st services :
  workspaceServicesMap st !! wsId_of sel = Some services ->
  resolve sel st = (Ok services, st).
Proof.
  intros H. unfold getClickUpServices, bind, map_get. now rewrite H.
Qed.

Lemma getClickUpServices_unknown sel st e :
  workspaceServicesMap st !! wsId_of sel = None ->
  getWorkspaceConfig configuration sel = Throw e ->
  resolve sel st = (Throw e, st).
Proof.
  intros H G. rewrite <- getWorkspaceConfig_resolved in G.
  unfold getClickUpServices, bind, map_get, lift. now rewrite H, G.
Qed.

Lemma getClickUpServices_fresh sel st v :
  workspaceServicesMap st !! wsId_of sel = None ->
  getWorkspaceConfig configuration sel = Ok v ->
  let services :=
    mkServices (length (constructions st)) (pv_token v) (pv_teamId v) in
  resolve sel st =
    (Ok services,
     mkRegistry (<[wsId_of sel := services]> (workspaceServicesMap st))
                (constructions st ++ [(wsId_of sel, services)])).
Proof.
  intros H G. rewrite <- getWorkspaceConfig_resolved in G.
  unfold getClickUpServices, bind, map_get, lift. now rewrite H, G.
Qed.

(** A successful call leaves the returned object cached under the
    resolved key. *)
Lemma getClickUpServices_Ok_cached sel st services st' :
  resolve sel st = (Ok services, st') ->
  workspaceServicesMap st' !! wsId_of sel = Some services.
Proof.
  intros H.
  destruct (workspaceServicesMap st !! wsId_of sel) as [s|] eqn:L.
  - rewrite (getClickUpServices_cached _ _ _ L) in H. congruence.
  - destruct (getWorkspaceConfig configuration sel) as [v|e] eqn:G.
    + rewrite (getClickUpServices_fresh _ _ _ L G) in H.
      injection H as <- <-. simpl. apply lookup_insert_eq.
    + rewrite (getClickUpServices_unknown _ _ _ L G) in H. discriminate.
Qed.

(** Entries are never replaced or evicted. *)
Lemma getClickUpServices_keeps sel st k services :
  workspaceServicesMap st !! k = Some services ->
  workspaceServicesMap (snd (resolve sel st)) !! k = Some services.
Proof.
  intros Hk.
  destruct (workspaceServicesMap st !! wsId_of sel) as [s|] eqn:L.
  - now rewrite (getClickUpServices_cached _ _ _ L).
  - destruct (getWorkspaceConfig configuration sel) as [v|e] eqn:G.
    + rewrite (getClickUpServices_fresh _ _ _ L G). simpl.
      rewrite lookup_insert_ne; [exact Hk | congruence].
    + now rewrite (getClickUpServices_unknown _ _ _ L G).
Qed.

Lemma run_calls_keeps calls st k services :
  workspaceServicesMap st !! k = Some services ->
  workspaceServicesMap (run_calls configuration calls st) !! k = Some services.
Proof.
  revert st. induction calls as [|c calls IH]; intros st Hk; simpl; [exact Hk|].
  apply IH, getClickUpServices_keeps, Hk.
Qed.

Lemma run_calls_app calls1 calls2 st :
  run_calls configuration (calls1 ++ calls2) st
  = run_calls configuration calls2 (run_calls configuration calls1 st).
Proof.
  revert st. induction calls1 as [|c calls1 IH]; intros st; simpl; [reflexivity|].
  apply IH.
Qed.

Lemma registry_inv_empty : registry_inv empty_registry.
Proof. intros k. unfold empty_registry. simpl. now rewrite lookup_empty. Qed.

Lemma constructions_for_snoc k k' s m cs :
  constructions_for k (mkRegistry m (cs ++ [(k', s)]))
  = constructions_for k (mkRegistry m cs) + (if String.eqb k' k then 1 else 0).
Proof.
  unfold constructions_for. simpl.
  rewrite List.filter_app, length_app. simpl.
  now destruct (String.eqb k' k).
Qed.

Lemma constructions_for_map k m m' cs :
  constructions_for k (mkRegistry m cs) = constructions_for k (mkRegistry m' cs).
Proof. reflexivity. Qed.

Lemma getClickUpServices_inv sel st :
  registry_inv st -> registry_inv (snd (resolve sel st)).
Proof.
  intros Hinv.
  destruct (workspaceServicesMap st !! wsId_of sel) as [s|] eqn:L.
  - now rewrite (getClickUpServices_cached _ _ _ L).
  - destruct (getWorkspaceConfig configuration sel) as [v|e] eqn:G.
    + rewrite (getClickUpServices_fresh _ _ _ L G). simpl.
      intros k. simpl. rewrite constructions_for_snoc.
      destruct (String.eqb (wsId_of sel) k) eqn:E.
      * apply String.eqb_eq in E. subst k. rewrite lookup_insert_eq.
        pose proof (Hinv (wsId_of sel)) as Hk. rewrite L in Hk.
        rewrite (constructions_for_map _ _ (workspaceServicesMap st)).
        destruct st as [m cs]. simpl in *. rewrite Hk. split; [reflexivity|].
        rewrite getWorkspaceConfig_resolved, G. reflexivity.
      * apply String.eqb_neq in E. rewrite lookup_insert_ne by exact E.
        pose proof (Hinv k) as Hk.
        rewrite (constructions_for_map _ _ (workspaceServicesMap st)).
        destruct st as [m cs]. simpl in *.
        destruct (m !! k); [destruct Hk as [-> Hk]; split; [reflexivity | exact Hk]
                           | rewrite Hk; reflexivity].
    + now rewrite (getClickUpServices_unknown _ _ _ L G).
Qed.

Lemma run_calls_inv calls st :
  registry_inv st -> registry_inv (run_calls configuration calls st).
Proof.
  revert st. induction calls as [|c calls IH]; intros st H; simpl; [exact H|].
  apply IH, getClickUpServices_inv, H.
Qed.

Lemma reachable_inv st : reachable st -> registry_inv st.
Proof. intros [calls ->]. apply run_calls_inv, registry_inv_empty. Qed.

Lemma registry_inv_at_most_once st k :
  registry_inv st -> constructions_for k st <= 1.
Proof.
  intros H. specialize (H k).
  destruct (workspaceServicesMap st !! k); [destruct H as [-> _]|rewrite H]; lia.
Qed.

Lemma heap_inv_empty : heap_inv empty_registry.
Proof.
  split.
  - intros i k s H. simpl in H. now rewrite lookup_nil in H.
  - intros k s H. simpl in H. now rewrite lookup_empty in H.
Qed.

Lemma getClickUpServices_heap_inv sel st :
  heap_inv st -> heap_inv (snd (resolve sel st)).
Proof.
  intros [Hid Hmade].
  destruct (workspaceServicesMap st !! wsId_of sel) as [s|] eqn:L.
  - rewrite (getClickUpServices_cached _ _ _ L). now split.
  - destruct (getWorkspaceConfig configuration sel) as [v|e] eqn:G.
    + rewrite (getClickUpServices_fresh _ _ _ L G). simpl. split; simpl.
      * intros i k s H. apply lookup_app_Some in H as [H|[Hlen H]].
        -- now apply (Hid i k s).
        -- apply list_lookup_singleton_Some in H as [Hi H].
           injection H as <- <-. simpl. lia.
      * intros k s H. destruct (decide (wsId_of sel = k)) as [<-|Hne].
        -- rewrite lookup_insert_eq in H. injection H as <-.
           exists (length (constructions st)).
           rewrite lookup_app_r by lia. now rewrite Nat.sub_diag.
        -- rewrite lookup_insert_ne in H by exact Hne.
           destruct (Hmade k s H) as [i Hi]. exists i.
           now apply lookup_app_l_Some.
    + rewrite (getClickUpServices_unknown _ _ _ L G). now split.
Qed.

Lemma reachable_heap_inv st : reachable st -> heap_inv st.
Proof.
  intros [calls ->]. generalize heap_inv_empty. generalize empty_registry.
  induction calls as [|c calls IH]; intros st H; simpl; [exact H|].
  apply IH, getClickUpServices_heap_inv, H.
Qed.

(** No services object is shared between two workspace keys. *)
Lemma bundles_not_shared st k k' s s' :
  reachable st ->
  k <> k' ->
  workspaceServicesMap st !! k = Some s ->
  workspaceServicesMap st !! k' = Some s' ->
  instance s <> instance s'.
Proof.
  intros Hreach Hne Hk Hk' Heq.
  destruct (reachable_heap_inv st Hreach) as [Hid Hmade].
  destruct (Hmade k s Hk) as [i Hi], (Hmade k' s' Hk') as [i' Hi'].
  pose proof (Hid _ _ _ Hi). pose proof (Hid _ _ _ Hi').
  assert (i = i') by congruence. subst i'. congruence.
Qed.

(** A key the configuration does not resolve is never cached. *)
Lemma unresolved_not_cached st k e :
  registry_inv st ->
  getWorkspaceConfig configuration (Some k) = Throw e ->
  workspaceServicesMap st !! k = None.
Proof.
  intros H G. specialize (H k).
  destruct (workspaceServicesMap st !! k); [|reflexivity].
  destruct H as [_ H]. rewrite G in H. discriminate.
Qed.

End RegistryFacts.

(** ** More facts used by the claims *)

Section ResolveFacts.
Import Config Shared.

Variable configuration : Configuration.

(** A configured key always resolves to a credential: its own entry, or
    for the empty key, which the selector logic reads as "no selector",
    the default workspace. *)
Lemma configured_resolves (k : string) :
  loaded configuration ->
  In k (getAvailableWorkspaces configuration) ->
  exists v, getWorkspaceConfig configuration (Some k) = Ok v.
Proof.
  intros Hload Hk.
  destruct (String.eqb k "") eqn:E.
  - apply String.eqb_eq in E. subst k.
    change (getWorkspaceConfig configuration (Some ""))
      with (getWorkspaceConfig configuration (Some (or_else (Some "") ""))).
    destruct (loaded_default_Ok _ Hload) as [v Hv]. exists v.
    rewrite <- Hv. unfold getWorkspaceConfig.
    destruct (clickupWorkspaces configuration); reflexivity.
  - apply String.eqb_neq in E.
    unfold getWorkspaceConfig, getAvailableWorkspaces in *.
    destruct (clickupWorkspaces configuration) as [cw|].
    + rewrite (or_else_Some _ _ E).
      destruct (get_property_In _ _ Hk) as [w ->]. eauto.
    + destruct Hk as [<-|[]]. simpl. eauto.
Qed.

(** Whenever the credential lookup succeeds, so does the registry, from
    any state. *)
Lemma getClickUpServices_total sel st v :
  getWorkspaceConfig configuration sel = Ok v ->
  exists services st',
    getClickUpServices configuration sel st = (Ok services, st').
Proof.
  intros G.
  destruct (workspaceServicesMap st !!
              or_else sel (getDefaultWorkspace configuration)) as [s|] eqn:L.
  - rewrite (getClickUpServices_cached _ _ _ _ L). eauto.
  - rewrite (getClickUpServices_fresh _ _ _ _ L G). eauto.
Qed.

(** Once a selector has been served, every later call with it returns the
    same object and leaves the state alone. *)
Lemma getClickUpServices_again sel st services st1 calls :
  getClickUpServices configuration sel st = (Ok services, st1) ->
  let st2 := run_calls configuration calls st1 in
  getClickUpServices configuration sel st2 = (Ok services, st2).
Proof.
  intros H st2. apply getClickUpServices_cached.
  apply run_calls_keeps. eapply getClickUpServices_Ok_cached, H.
Qed.

End ResolveFacts.

(** ** Facts about property order *)

Section PropertyFacts.
Import Json.

(** An array index determines its key. *)
Lemma array_index_inj (k k' : string) (n : N) :
  array_index k = Some n -> array_index k' = Some n -> k = k'.
Proof.
  unfold array_index. intros H H'.
  destruct (NilZero.uint_of_string k) as [d|]; [|discriminate].
  destruct (NilZero.uint_of_string k') as [d'|]; [|discriminate].
  simpl in *.
  destruct (String.eqb _ k) eqn:E; [|discriminate].
  destruct (String.eqb _ k') eqn:E'; [|discriminate].
  simpl in *.
  destruct (N.of_uint d <? 4294967295)%N; [|discriminate].
  destruct (N.of_uint d' <? 4294967295)%N; [|discriminate].
  apply String.eqb_eq in E, E'. congruence.
Qed.

Lemma ordered_neq (k k' : string) : ordered k k' = true -> k <> k'.
Proof.
  unfold ordered. intros H ->. rewrite String.eqb_refl in H. discriminate.
Qed.

(** A key that is not enumerated before [k'] and differs from it may
    follow it. *)
Lemma not_before_ordered (k k' : string) :
  String.eqb k k' = false -> key_before k k' = false -> ordered k' k = true.
Proof.
  unfold key_before, ordered. intros E B.
  rewrite String.eqb_sym, E. simpl.
  destruct (array_index k) as [a|] eqn:A, (array_index k') as [b|] eqn:A';
    try reflexivity; try discriminate.
  apply N.ltb_ge in B. apply N.ltb_lt.
  destruct (N.eq_dec a b) as [->|Hne]; [|lia].
  apply String.eqb_neq in E. exfalso. apply E.
  eapply array_index_inj; eassumption.
Qed.

(** A key enumerated before [k'] precedes whatever may follow [k']. *)
Lemma before_ordered_trans (k k' y : string) :
  key_before k k' = true -> ordered k' y = true -> ordered k y = true.
Proof.
  unfold key_before, ordered. intros B O.
  apply andb_true_iff in O as [Hne O].
  destruct (array_index k) as [a|] eqn:A; [|discriminate].
  destruct (array_index k') as [b|] eqn:A', (array_index y) as [c|] eqn:Ay;
    try discriminate.
  - apply N.ltb_lt in B, O. apply andb_true_iff. split.
    + apply negb_true_iff, String.eqb_neq. intros ->.
      rewrite A in Ay. injection Ay as ->. lia.
    + apply N.ltb_lt. lia.
  - apply andb_true_iff. split; [|reflexivity].
    apply negb_true_iff, String.eqb_neq. intros ->. congruence.
  - apply andb_true_iff. split; [|reflexivity].
    apply negb_true_iff, String.eqb_neq. intros ->. congruence.
Qed.

Lemma before_ordered (k k' : string) :
  String.eqb k k' = false -> key_before k k' = true -> ordered k k' = true.
Proof.
  unfold key_before, ordered. intros E B. rewrite E. simpl.
  destruct (array_index k); [|discriminate].
  now destruct (array_index k').
Qed.

Lemma set_property_keys props k v y :
  In y (map fst (set_property props k v)) -> y = k \/ In y (map fst props).
Proof.
  induction props as [|[k' v'] props IH]; simpl.
  - intros [<-|[]]. now left.
  - destruct (String.eqb k k') eqn:E; [|destruct (key_before k k')]; simpl.
    + tauto.
    + intros [<-|H]; tauto.
    + intros [<-|H]; [tauto|]. destruct (IH H); tauto.
Qed.

(** [set_property] keeps the enumeration order. *)
Lemma set_property_canonical props k v :
  canonical (map fst props) = true ->
  canonical (map fst (set_property props k v)) = true.
Proof.
  induction props as [|[k' v'] props IH]; simpl; [reflexivity|].
  intros H. apply andb_true_iff in H as [Hall Hc].
  destruct (String.eqb k k') eqn:E; [|destruct (key_before k k') eqn:B]; simpl.
  - now rewrite Hall, Hc.
  - rewrite Hall, Hc, (before_ordered _ _ E B). simpl.
    rewrite andb_true_r. apply forallb_forall. intros y Hy.
    eapply before_ordered_trans; [exact B|].
    rewrite forallb_forall in Hall. now apply Hall.
  - rewrite (IH Hc), andb_true_r. apply forallb_forall. intros y Hy.
    destruct (set_property_keys _ _ _ _ Hy) as [->|Hin].
    + now apply not_before_ordered.
    + rewrite forallb_forall in Hall. now apply Hall.
Qed.

Lemma assign_canonical target source :
  canonical (map fst target) = true ->
  canonical (map fst (assign target source)) = true.
Proof.
  unfold assign. revert target.
  induction source as [|[k v] source IH]; intros target H; simpl; [exact H|].
  apply IH, set_property_canonical, H.
Qed.

(** Appending the next key of an enumeration is what [set_property] does. *)
Lemma set_property_snoc props k v :
  canonical (map fst (props ++ [(k, v)])%list) = true ->
  set_property props k v = (props ++ [(k, v)])%list.
Proof.
  induction props as [|[k' v'] props IH]; simpl; [reflexivity|].
  intros H. apply andb_true_iff in H as [Hall Hc].
  rewrite map_app, forallb_app in Hall. simpl in Hall.
  apply andb_true_iff in Hall as [_ Hk]. rewrite andb_true_r in Hk.
  assert (E : String.eqb k k' = false).
  { apply String.eqb_neq. intros ->. now apply ordered_neq in Hk. }
  rewrite E.
  assert (B : key_before k k' = false).
  { unfold ordered in Hk. unfold key_before.
    apply andb_true_iff in Hk as [_ Hk].
    destruct (array_index k') as [b|], (array_index k) as [a|];
      try reflexivity; try discriminate.
    apply N.ltb_lt in Hk. apply N.ltb_ge. lia. }
  rewrite B. now rewrite (IH Hc).
Qed.

Lemma canonical_app_l (l1 l2 : list string) :
  canonical (l1 ++ l2)%list = true -> canonical l1 = true.
Proof.
  induction l1 as [|k l1 IH]; simpl; [reflexivity|].
  intros H. apply andb_true_iff in H as [Hall Hc].
  rewrite forallb_app in Hall. apply andb_true_iff in Hall as [Hall _].
  now rewrite Hall, (IH Hc).
Qed.

(** Building an object from its properties, in their order, gives the
    object. *)
Lemma assign_canonical_id props :
  canonical (map fst props) = true -> assign [] props = props.
Proof.
  unfold assign. induction props as [|[k v] props IH] using rev_ind;
    [reflexivity|].
  intros H. rewrite fold_left_app. simpl.
  rewrite IH.
  - now apply set_property_snoc.
  - rewrite map_app in H. now apply canonical_app_l in H.
Qed.

Lemma get_own_set_property props k v k' :
  get_own (set_property props k v) k'
  = if String.eqb k' k then Some v else get_own props k'.
Proof.
  induction props as [|[k0 v0] props IH]; simpl.
  - reflexivity.
  - destruct (String.eqb k k0) eqn:E; [|destruct (key_before k k0)]; simpl.
    + apply String.eqb_eq in E. subst k0. now destruct (String.eqb k' k).
    + reflexivity.
    + rewrite IH. destruct (String.eqb k' k0) eqn:E0; [|reflexivity].
      apply String.eqb_eq in E0. subst k0.
      now rewrite String.eqb_sym, E.
Qed.

Lemma canonical_get_own_None k (props : list (string * value)) :
  forallb (ordered k) (map fst props) = true -> get_own props k = None.
Proof.
  induction props as [|[k' v'] props IH]; simpl; [reflexivity|].
  intros H. apply andb_true_iff in H as [Hk Hall].
  apply ordered_neq in Hk. apply String.eqb_neq in Hk. rewrite Hk.
  now apply IH.
Qed.

(** The fields of [{...target, ...source}]: those of [source], then those
    of [target]. *)
Lemma get_own_assign target source k :
  canonical (map fst source) = true ->
  get_own (assign target source) k
  = match get_own source k with
    | Some v => Some v
    | None => get_own target k
    end.
Proof.
  unfold assign. revert target.
  induction source as [|[k0 v0] source IH]; intros target H; simpl in *;
    [reflexivity|].
  apply andb_true_iff in H as [Hall Hc].
  rewrite (IH _ Hc), get_own_set_property.
  destruct (String.eqb k k0) eqn:E; [|reflexivity].
  apply String.eqb_eq in E. subst k0.
  now rewrite (canonical_get_own_None _ _ Hall).
Qed.

End PropertyFacts.

(** ** Facts about the JSON reader *)

Section ReaderFacts.
Import Json.

Lemma length_append (a b : string) :
  String.length (a ++ b) = String.length a + String.length b.
Proof.
  induction a as [|c a IH]; [reflexivity|].
  rewrite append_cons. simpl. now rewrite IH.
Qed.

(** Reading one escaped character gives the character back. *)
Lemma parse_chars_escape_char (c : ascii) (s : string) :
  parse_chars (escape_char c ++ s) = cons_char c (parse_chars s).
Proof.
  destruct c as [[] [] [] [] [] [] [] []]; reflexivity.
Qed.

Lemma parse_chars_escape (s rest : string) :
  parse_chars (escape s ++ String dquote rest) = POk s rest.
Proof.
  induction s as [|c s IH].
  - reflexivity.
  - change (escape (String c s)) with (escape_char c ++ escape s).
    rewrite append_assoc, parse_chars_escape_char, IH. reflexivity.
Qed.

Lemma parse_chars_quoted (s rest : string) :
  exists body,
    QuoteJSONString s ++ rest = String dquote body /\
    parse_chars body = POk s rest.
Proof.
  exists (escape s ++ String dquote rest). split.
  - unfold QuoteJSONString. rewrite append_cons, append_assoc. reflexivity.
  - apply parse_chars_escape.
Qed.

(** *** White space *)

Lemma skip_ws_spaces (indent s : string) :
  all_spaces indent = true -> skip_ws (indent ++ s) = skip_ws s.
Proof.
  induction indent as [|c indent IH]; [reflexivity|].
  intros H. simpl in H. apply andb_true_iff in H as [Hc H].
  apply Ascii.eqb_eq in Hc. subst c. rewrite append_cons. simpl.
  now apply IH.
Qed.

Lemma skip_ws_line (indent s : string) :
  all_spaces indent = true -> skip_ws (newline ++ indent ++ s) = skip_ws s.
Proof.
  intros H. unfold newline. rewrite append_cons. simpl.
  change (EmptyString ++ indent ++ s) with (indent ++ s).
  now apply skip_ws_spaces.
Qed.

Lemma all_spaces_gap (indent : string) :
  all_spaces indent = true -> all_spaces (indent ++ gap) = true.
Proof.
  induction indent as [|c indent IH]; [reflexivity|].
  intros H. simpl in H. apply andb_true_iff in H as [Hc H].
  rewrite append_cons. simpl. now rewrite Hc, IH.
Qed.

Lemma skip_ws_starts_value (text rest : string) :
  starts_value text = true -> skip_ws (text ++ rest) = text ++ rest.
Proof.
  destruct text as [|c text]; [discriminate|]. intros H. simpl in H.
  rewrite append_cons. simpl.
  destruct (is_ws c); [discriminate | reflexivity].
Qed.

(** The reader looks at its input only after skipping white space. *)
Lemma parse_value_skip_ws fuel s1 s2 :
  skip_ws s1 = skip_ws s2 -> parse_value fuel s1 = parse_value fuel s2.
Proof. intros H. destruct fuel; simpl; [reflexivity | now rewrite H]. Qed.

Lemma parse_members_skip_ws fuel s1 s2 :
  skip_ws s1 = skip_ws s2 -> parse_members fuel s1 = parse_members fuel s2.
Proof. intros H. destruct fuel; simpl; [reflexivity | now rewrite H]. Qed.

Lemma parse_elements_skip_ws fuel s1 s2 :
  skip_ws s1 = skip_ws s2 -> parse_elements fuel s1 = parse_elements fuel s2.
Proof.
  intros H. destruct fuel; simpl; [reflexivity|].
  now rewrite (parse_value_skip_ws fuel s1 s2 H).
Qed.

(** *** Numbers *)

Lemma span_digits_uint (d : uint) (rest : string) :
  delimited rest = true ->
  span_digits (NilEmpty.string_of_uint d ++ rest)
  = (NilEmpty.string_of_uint d, rest).
Proof.
  intros Hrest.
  induction d; simpl NilEmpty.string_of_uint;
    try (rewrite append_cons; simpl; now rewrite IHd).
  destruct rest as [|c rest]; [reflexivity|].
  simpl in Hrest. change ("" ++ String c rest) with (String c rest). simpl.
  apply orb_true_iff in Hrest as [H|H]; apply Ascii.eqb_eq in H; subst c;
    reflexivity.
Qed.

Lemma string_of_uint_nonnil (d : uint) :
  d <> Nil -> NilZero.string_of_uint d = NilEmpty.string_of_uint d.
Proof. destruct d; try reflexivity. congruence. Qed.

Lemma string_of_uint_head (d : uint) :
  d <> Nil ->
  exists c s, NilEmpty.string_of_uint d = String c s /\ is_digit c = true.
Proof. destruct d; try congruence; intros _; simpl; eauto. Qed.

(** The numeral of an integer: an optional sign, then digits. *)
Lemma number_to_string_shape (n : Z) :
  exists d, d <> Nil /\
    (number_to_string n = NilEmpty.string_of_uint d \/
     number_to_string n = String "-" (NilEmpty.string_of_uint d)).
Proof.
  unfold number_to_string. destruct n as [|p|p]; simpl.
  - exists (D0 Nil). split; [discriminate | now left].
  - exists (Pos.to_uint p). split; [apply Unsigned.to_uint_nonnil|]. left.
    apply string_of_uint_nonnil, Unsigned.to_uint_nonnil.
  - exists (Pos.to_uint p). split; [apply Unsigned.to_uint_nonnil|]. right.
    f_equal. apply string_of_uint_nonnil, Unsigned.to_uint_nonnil.
Qed.

Lemma span_number_to_string (n : Z) (rest : string) :
  delimited rest = true ->
  span_number (number_to_string n ++ rest) = (number_to_string n, rest).
Proof.
  intros Hrest. destruct (number_to_string_shape n) as (d & Hd & [->| ->]).
  - destruct (string_of_uint_head d Hd) as (c & s & E & Hc).
    pose proof (span_digits_uint d rest Hrest) as S.
    rewrite E in *. rewrite append_cons in *. unfold span_number.
    destruct (Ascii.eqb c "-") eqn:M; [|exact S].
    apply Ascii.eqb_eq in M. subst c. discriminate.
  - rewrite append_cons. unfold span_number. simpl.
    now rewrite (span_digits_uint d rest Hrest).
Qed.

Lemma int_of_number_to_string (n : Z) :
  NilZero.int_of_string (number_to_string n) = Some (Z.to_int n).
Proof.
  unfold number_to_string. apply NilZero.isi.
  - destruct n; simpl; try discriminate.
    intros H. injection H. apply Unsigned.to_uint_nonnil.
  - destruct n; simpl; try discriminate.
    intros H. injection H. apply Unsigned.to_uint_nonnil.
Qed.

Lemma delimited_not_continues (rest : string) :
  delimited rest = true -> continues_number rest = false.
Proof.
  destruct rest as [|c rest]; [reflexivity|]. simpl. intros H.
  apply orb_true_iff in H as [H|H]; apply Ascii.eqb_eq in H; subst c;
    reflexivity.
Qed.

Lemma parse_number_to_string (n : Z) (rest : string) :
  safe_integer n = true ->
  delimited rest = true ->
  parse_number (number_to_string n ++ rest) = POk (VNum n) rest.
Proof.
  intros Hsafe Hrest. unfold parse_number.
  rewrite (span_number_to_string n rest Hrest).
  rewrite (delimited_not_continues rest Hrest).
  rewrite int_of_number_to_string, DecimalZ.of_to.
  now rewrite String.eqb_refl, Hsafe.
Qed.

Lemma number_to_string_head (n : Z) :
  exists c s, number_to_string n = String c s /\
              (Ascii.eqb c "-" || is_digit c) = true.
Proof.
  destruct (number_to_string_shape n) as (d & Hd & [->| ->]).
  - destruct (string_of_uint_head d Hd) as (c & s & E & Hc).
    exists c, s. split; [exact E|]. rewrite Hc. apply orb_true_r.
  - eauto.
Qed.

(** *** Induction on values *)

Lemma value_ind (P : value -> Prop)
    (Hundefined : P VUndefined) (Hnull : P VNull)
    (Hbool : forall b, P (VBool b)) (Hnum : forall n, P (VNum n))
    (Hstr : forall s, P (VStr s))
    (Harr : forall items, Forall P items -> P (VArr items))
    (Hobj : forall props, Forall (fun kv => P (snd kv)) props -> P (VObj props)) :
  forall v, P v.
Proof.
  fix IH 1. intros [| |b|n|s|items|props].
  - exact Hundefined.
  - exact Hnull.
  - apply Hbool.
  - apply Hnum.
  - apply Hstr.
  - apply Harr. induction items as [|item items IHitems];
      constructor; [apply IH | exact IHitems].
  - apply Hobj. induction props as [|[k item] props IHprops];
      constructor; [apply IH | exact IHprops].
Qed.

Lemma size_VObj (props : list (string * value)) :
  size (VObj props) = S (members_size props).
Proof.
  simpl. f_equal. induction props as [|[k item] props IH]; simpl;
    [reflexivity | now rewrite IH].
Qed.

Lemma json_data_VObj (props : list (string * value)) :
  json_data (VObj props)
  = canonical (map fst props) && forallb (fun kv => json_data (snd kv)) props.
Proof.
  simpl. f_equal. induction props as [|[k item] props IH]; simpl;
    [reflexivity | now rewrite IH].
Qed.

Lemma json_data_defined (indent : string) (v : value) :
  json_data v = true ->
  SerializeJSONProperty indent v = Some (element_text indent v).
Proof.
  unfold element_text. destruct v as [| |[]| | | |]; try reflexivity.
  discriminate.
Qed.

(** *** What the serializer emits for arrays and objects *)

Lemma SerializeJSONProperty_VArr (indent : string) (items : list value) :
  SerializeJSONProperty indent (VArr items)
  = Some (let partial := map (element_text (indent ++ gap)) items in
          match partial with
          | [] => "[]"
          | _ => wrap "[" "]" indent (indent ++ gap) partial
          end).
Proof. reflexivity. Qed.

Lemma SerializeJSONProperty_VObj (indent : string) (props : list (string * value)) :
  forallb (fun kv => json_data (snd kv)) props = true ->
  SerializeJSONProperty indent (VObj props)
  = Some (let partial := map (member_text (indent ++ gap)) props in
          match partial with
          | [] => "{}"
          | _ => wrap "{" "}" indent (indent ++ gap) partial
          end).
Proof.
  intros H. simpl.
  match goal with
  | |- Some (match ?m with _ => _ end) = _ =>
      assert (E : m = map (member_text (indent ++ gap)) props)
  end.
  { induction props as [|[k item] props IH]; [reflexivity|].
    simpl in H. apply andb_true_iff in H as [Hitem H].
    rewrite (json_data_defined _ _ Hitem). simpl. f_equal. now apply IH. }
  rewrite E. reflexivity.
Qed.

(** *** One step of the reader *)

Lemma parse_value_array fuel (rest : string) :
  parse_value (S fuel) (String "[" rest)
  = match skip_ws rest with
    | String c' rest' =>
        if Ascii.eqb c' "]" then POk (VArr []) rest'
        else match parse_elements fuel rest with
             | POk items r => POk (VArr items) r
             | PErr e => PErr e
             end
    | EmptyString => PErr SyntaxErr
    end.
Proof. reflexivity. Qed.

Lemma parse_value_object fuel (rest : string) :
  parse_value (S fuel) (String "{" rest)
  = match skip_ws rest with
    | String c' rest' =>
        if Ascii.eqb c' "}" then POk (VObj []) rest'
        else match parse_members fuel rest with
             | POk members r => POk (VObj (assign [] members)) r
             | PErr e => PErr e
             end
    | EmptyString => PErr SyntaxErr
    end.
Proof. reflexivity. Qed.

Lemma parse_value_string fuel (body : string) :
  parse_value (S fuel) (String dquote body)
  = match parse_chars body with
    | POk str r => POk (VStr str) r
    | PErr e => PErr e
    end.
Proof. reflexivity. Qed.

Lemma parse_value_number fuel (c : ascii) (rest : string) :
  (Ascii.eqb c "-" || is_digit c) = true ->
  parse_value (S fuel) (String c rest) = parse_number (String c rest).
Proof.
  destruct c as [[] [] [] [] [] [] [] []]; intros H;
    try discriminate H; reflexivity.
Qed.

Lemma parse_elements_S fuel (s : string) :
  parse_elements (S fuel) s
  = match parse_value fuel s with
    | PErr e => PErr e
    | POk v r =>
        match next_separator "]" r with
        | Comma r' =>
            match parse_elements fuel r' with
            | POk vs r'' => POk (v :: vs) r''
            | PErr e => PErr e
            end
        | Close r' => POk [v] r'
        | Neither => PErr SyntaxErr
        end
    end.
Proof. reflexivity. Qed.

Lemma parse_members_S fuel (body : string) :
  parse_members (S fuel) (String dquote body)
  = match parse_chars body with
    | PErr e => PErr e
    | POk k r =>
        match skip_ws r with
        | String colon r1 =>
            if Ascii.eqb colon ":" then
              match parse_value fuel r1 with
              | PErr e => PErr e
              | POk v r2 =>
                  match next_separator "}" r2 with
                  | Comma r3 =>
                      match parse_members fuel r3 with
                      | POk ms r4 => POk ((k, v) :: ms) r4
                      | PErr e => PErr e
                      end
                  | Close r3 => POk [(k, v)] r3
                  | Neither => PErr SyntaxErr
                  end
              end
            else PErr SyntaxErr
        | EmptyString => PErr SyntaxErr
        end
    end.
Proof. reflexivity. Qed.

Lemma next_separator_comma (close : ascii) (s : string) :
  next_separator close (String "," s) = Comma s.
Proof. reflexivity. Qed.

Lemma next_separator_close (close : ascii) (stepback rest : string) :
  is_ws close = false ->
  Ascii.eqb close "," = false ->
  all_spaces stepback = true ->
  next_separator close (newline ++ stepback ++ String close rest) = Close rest.
Proof.
  intros Hws Hcomma Hsp. unfold next_separator.
  rewrite (skip_ws_line _ _ Hsp). simpl. rewrite Hws, Hcomma.
  now rewrite Ascii.eqb_refl.
Qed.

Lemma delimited_comma (s : string) : delimited (String "," s) = true.
Proof. reflexivity. Qed.

Lemma delimited_newline (s : string) : delimited (newline ++ s) = true.
Proof. reflexivity. Qed.

(** *** Reading back what was written *)

Lemma join_head (sep x : string) (l : list string) (t : string) :
  exists u, join sep (x :: l) ++ t = x ++ u.
Proof.
  destruct l as [|y l].
  - exists t. reflexivity.
  - exists (sep ++ join sep (y :: l) ++ t).
    change (join sep (x :: y :: l)) with (x ++ sep ++ join sep (y :: l)).
    now rewrite !append_assoc.
Qed.

Lemma join_cons2 (sep x y : string) (l : list string) :
  join sep (x :: y :: l) = x ++ sep ++ join sep (y :: l).
Proof. reflexivity. Qed.

Lemma parse_elements_join (items : list value) :
  Forall reads_back items ->
  forallb json_data items = true ->
  items <> [] ->
  forall fuel indent tail rest,
    elements_size items <= fuel ->
    all_spaces indent = true ->
    delimited tail = true ->
    next_separator "]" tail = Close rest ->
    parse_elements fuel
      (join ("," ++ newline ++ indent) (map (element_text indent) items) ++ tail)
    = POk items rest.
Proof.
  induction 1 as [|x xs Hx Hxs IH]; intros Hjson Hne; [congruence|].
  intros fuel indent tail rest Hfuel Hsp Htail Hclose.
  simpl in Hjson. apply andb_true_iff in Hjson as [Hjx Hjxs].
  unfold elements_size in Hfuel. simpl in Hfuel.
  fold (elements_size xs) in Hfuel.
  destruct fuel as [|fuel]; [lia|]. rewrite parse_elements_S.
  destruct xs as [|y ys].
  - simpl map. unfold join. simpl String.concat.
    destruct (Hx Hjx fuel indent tail ltac:(lia) Hsp Htail) as [_ ->].
    now rewrite Hclose.
  - change (map (element_text indent) (x :: y :: ys))
      with (element_text indent x :: element_text indent y
              :: map (element_text indent) ys).
    rewrite join_cons2, !append_assoc.
    change ("," ++ newline ++ indent ++
            join ("," ++ newline ++ indent)
              (element_text indent y :: map (element_text indent) ys) ++ tail)
      with (String "," (newline ++ indent ++
            join ("," ++ newline ++ indent)
              (map (element_text indent) (y :: ys)) ++ tail)).
    edestruct (Hx Hjx fuel indent) as [_ E];
      [lia | exact Hsp | apply delimited_comma | rewrite E].
    rewrite next_separator_comma.
    rewrite (parse_elements_skip_ws fuel _ _ (skip_ws_line _ _ Hsp)).
    rewrite (IH Hjxs ltac:(discriminate) fuel indent tail rest
               ltac:(lia) Hsp Htail Hclose).
    reflexivity.
Qed.

Lemma member_text_shape (indent k : string) (v : value) (t : string) :
  member_text indent (k, v) ++ t
  = String dquote (escape k ++ String dquote
      (String ":" (String " " (element_text indent v ++ t)))).
Proof.
  unfold member_text, QuoteJSONString. simpl fst. simpl snd.
  repeat (rewrite append_cons || rewrite append_assoc). reflexivity.
Qed.

Lemma parse_members_member fuel (indent k : string) (v : value) (t : string) :
  parse_members (S fuel) (member_text indent (k, v) ++ t)
  = match parse_value fuel (element_text indent v ++ t) with
    | PErr e => PErr e
    | POk v' r2 =>
        match next_separator "}" r2 with
        | Comma r3 =>
            match parse_members fuel r3 with
            | POk ms r4 => POk ((k, v') :: ms) r4
            | PErr e => PErr e
            end
        | Close r3 => POk [(k, v')] r3
        | Neither => PErr SyntaxErr
        end
    end.
Proof.
  rewrite member_text_shape, parse_members_S, parse_chars_escape.
  change (skip_ws (String ":" (String " " (element_text indent v ++ t))))
    with (String ":" (String " " (element_text indent v ++ t))).
  cbv iota beta. rewrite Ascii.eqb_refl.
  rewrite (parse_value_skip_ws fuel (String " " (element_text indent v ++ t))
             (element_text indent v ++ t)) by reflexivity.
  reflexivity.
Qed.

Lemma parse_members_join (props : list (string * value)) :
  Forall (fun kv => reads_back (snd kv)) props ->
  forallb (fun kv => json_data (snd kv)) props = true ->
  props <> [] ->
  forall fuel indent tail rest,
    members_size props <= fuel ->
    all_spaces indent = true ->
    delimited tail = true ->
    next_separator "}" tail = Close rest ->
    parse_members fuel
      (join ("," ++ newline ++ indent) (map (member_text indent) props) ++ tail)
    = POk props rest.
Proof.
  induction 1 as [|[k x] xs Hx Hxs IH]; intros Hjson Hne; [congruence|].
  intros fuel indent tail rest Hfuel Hsp Htail Hclose.
  simpl in Hjson. apply andb_true_iff in Hjson as [Hjx Hjxs].
  unfold members_size in Hfuel. simpl in Hfuel.
  fold (members_size xs) in Hfuel. simpl in Hx.
  destruct fuel as [|fuel]; [lia|].
  destruct xs as [|y ys].
  - change (join ("," ++ newline ++ indent) (map (member_text indent) [(k, x)]))
      with (member_text indent (k, x)).
    rewrite parse_members_member.
    destruct (Hx Hjx fuel indent tail ltac:(lia) Hsp Htail) as [_ ->].
    now rewrite Hclose.
  - change (map (member_text indent) ((k, x) :: y :: ys))
      with (member_text indent (k, x) :: member_text indent y
              :: map (member_text indent) ys).
    rewrite join_cons2, !append_assoc, parse_members_member.
    change ("," ++ newline ++ indent ++
            join ("," ++ newline ++ indent)
              (member_text indent y :: map (member_text indent) ys) ++ tail)
      with (String "," (newline ++ indent ++
            join ("," ++ newline ++ indent)
              (map (member_text indent) (y :: ys)) ++ tail)).
    edestruct (Hx Hjx fuel indent) as [_ E];
      [lia | exact Hsp | apply delimited_comma | rewrite E].
    rewrite next_separator_comma.
    rewrite (parse_members_skip_ws fuel _ _ (skip_ws_line _ _ Hsp)).
    rewrite (IH Hjxs ltac:(discriminate) fuel indent tail rest
               ltac:(lia) Hsp Htail Hclose).
    reflexivity.
Qed.

Lemma starts_value_number (c : ascii) (s : string) :
  (Ascii.eqb c "-" || is_digit c) = true -> starts_value (String c s) = true.
Proof.
  destruct c as [[] [] [] [] [] [] [] []]; intros H;
    try discriminate H; reflexivity.
Qed.

Lemma wrap_shape (open close : ascii) (stepback indent : string)
    (partial : list string) (rest : string) :
  wrap (String open EmptyString) (String close EmptyString)
       stepback indent partial ++ rest
  = String open (newline ++ indent ++
      join ("," ++ newline ++ indent) partial ++
      (newline ++ stepback ++ String close rest)).
Proof.
  unfold wrap. rewrite !append_assoc. reflexivity.
Qed.

(** Every JSON value reads back. *)
Lemma json_reads_back (v : value) : reads_back v.
Proof.
  induction v as [| |b|n|s|items IH|props IH] using value_ind;
    intros Hjson fuel indent rest Hfuel Hsp Hrest.
  - discriminate.
  - destruct fuel; [simpl in Hfuel; lia|]. split; reflexivity.
  - destruct fuel; [simpl in Hfuel; lia|]. destruct b; split; reflexivity.
  - destruct fuel; [simpl in Hfuel; lia|].
    change (element_text indent (VNum n)) with (number_to_string n).
    destruct (number_to_string_head n) as (c & s & E & Hc). split.
    + rewrite E. now apply starts_value_number.
    + rewrite <- (parse_number_to_string n rest Hjson Hrest).
      rewrite E, append_cons. now apply parse_value_number.
  - destruct fuel; [simpl in Hfuel; lia|].
    change (element_text indent (VStr s)) with (QuoteJSONString s).
    split; [reflexivity|].
    destruct (parse_chars_quoted s rest) as (body & -> & E).
    now rewrite parse_value_string, E.
  - destruct fuel; [simpl in Hfuel; lia|].
    unfold element_text. rewrite SerializeJSONProperty_VArr.
    destruct items as [|x xs]; [split; reflexivity|].
    cbv zeta.
    change (map (element_text (indent ++ gap)) (x :: xs))
      with (element_text (indent ++ gap) x
              :: map (element_text (indent ++ gap)) xs).
    cbv iota. split; [reflexivity|].
    rewrite (wrap_shape "[" "]"), parse_value_array.
    pose proof (all_spaces_gap _ Hsp) as Hsp'.
    rewrite (skip_ws_line _ _ Hsp').
    rewrite (parse_elements_skip_ws fuel _ _ (skip_ws_line _ _ Hsp')).
    change (element_text (indent ++ gap) x
              :: map (element_text (indent ++ gap)) xs)
      with (map (element_text (indent ++ gap)) (x :: xs)).
    simpl in Hjson.
    assert (Hf : elements_size (x :: xs) <= fuel)
      by (unfold elements_size; simpl in Hfuel |- *; lia).
    rewrite (parse_elements_join (x :: xs) IH Hjson ltac:(discriminate)
               fuel (indent ++ gap) _ rest Hf Hsp'
               (delimited_newline _)
               (next_separator_close "]" indent rest eq_refl eq_refl Hsp)).
    inversion IH as [|? ? Hx _]; subst.
    apply andb_true_iff in Hjson as [Hjx _].
    destruct (Hx Hjx (size x) (indent ++ gap) EmptyString (le_n _) Hsp' eq_refl)
      as [Hstart _].
    destruct (join_head ("," ++ newline ++ indent ++ gap)
                (element_text (indent ++ gap) x)
                (map (element_text (indent ++ gap)) xs)
                (newline ++ indent ++ String "]" rest)) as [u Eu].
    change (map (element_text (indent ++ gap)) (x :: xs))
      with (element_text (indent ++ gap) x
              :: map (element_text (indent ++ gap)) xs).
    rewrite Eu, (skip_ws_starts_value _ _ Hstart).
    destruct (element_text (indent ++ gap) x) as [|c t]; [discriminate|].
    rewrite append_cons. simpl in Hstart.
    destruct (Ascii.eqb c "]"); [|reflexivity].
    rewrite andb_false_r in Hstart. discriminate.
  - destruct fuel; [simpl in Hfuel; lia|].
    rewrite json_data_VObj in Hjson.
    apply andb_true_iff in Hjson as [Hcanon Hjson].
    unfold element_text. rewrite (SerializeJSONProperty_VObj _ _ Hjson).
    destruct props as [|[k x] xs]; [split; reflexivity|].
    cbv zeta.
    change (map (member_text (indent ++ gap)) ((k, x) :: xs))
      with (member_text (indent ++ gap) (k, x)
              :: map (member_text (indent ++ gap)) xs).
    cbv iota. split; [reflexivity|].
    rewrite (wrap_shape "{" "}"), parse_value_object.
    pose proof (all_spaces_gap _ Hsp) as Hsp'.
    rewrite (skip_ws_line _ _ Hsp').
    rewrite (parse_members_skip_ws fuel _ _ (skip_ws_line _ _ Hsp')).
    change (member_text (indent ++ gap) (k, x)
              :: map (member_text (indent ++ gap)) xs)
      with (map (member_text (indent ++ gap)) ((k, x) :: xs)).
    assert (Hf : members_size ((k, x) :: xs) <= fuel)
      by (rewrite size_VObj in Hfuel; lia).
    rewrite (parse_members_join ((k, x) :: xs) IH Hjson ltac:(discriminate)
               fuel (indent ++ gap) _ rest Hf Hsp'
               (delimited_newline _)
               (next_separator_close "}" indent rest eq_refl eq_refl Hsp)).
    rewrite (assign_canonical_id _ Hcanon).
    destruct (join_head ("," ++ newline ++ indent ++ gap)
                (member_text (indent ++ gap) (k, x))
                (map (member_text (indent ++ gap)) xs)
                (newline ++ indent ++ String "}" rest)) as [u Eu].
    change (map (member_text (indent ++ gap)) ((k, x) :: xs))
      with (member_text (indent ++ gap) (k, x)
              :: map (member_text (indent ++ gap)) xs).
    rewrite Eu, member_text_shape. reflexivity.
Qed.

Lemma join_length_cons2 (sep x y : string) (l : list string) :
  String.length (join sep (x :: y :: l))
  = String.length x + String.length sep + String.length (join sep (y :: l)).
Proof. rewrite join_cons2, !length_append. lia. Qed.

Lemma elements_size_le_join (sep indent : string) (items : list value) :
  Forall (fun v => json_data v = true ->
                   forall indent, size v <= String.length (element_text indent v))
         items ->
  forallb json_data items = true ->
  1 <= String.length sep ->
  elements_size items
  <= S (String.length (join sep (map (element_text indent) items))).
Proof.
  induction 1 as [|y ys Hy Hys IH]; intros Hjson Hsep; [simpl; lia|].
  simpl in Hjson. apply andb_true_iff in Hjson as [Hjy Hjys].
  specialize (IH Hjys Hsep). specialize (Hy Hjy indent).
  change (elements_size (y :: ys)) with (S (size y + elements_size ys)).
  destruct ys as [|z zs]; [simpl in *; lia|].
  change (map (element_text indent) (y :: z :: zs))
    with (element_text indent y :: element_text indent z
            :: map (element_text indent) zs).
  rewrite join_length_cons2.
  change (element_text indent z :: map (element_text indent) zs)
    with (map (element_text indent) (z :: zs)).
  lia.
Qed.

Lemma member_text_length (indent k : string) (v : value) :
  String.length (member_text indent (k, v))
  = 4 + String.length (escape k) + String.length (element_text indent v).
Proof.
  unfold member_text, QuoteJSONString. simpl fst. simpl snd.
  rewrite append_cons. simpl String.length. rewrite !length_append.
  simpl String.length. lia.
Qed.

Lemma members_size_le_join (sep indent : string) (props : list (string * value)) :
  Forall (fun kv => json_data (snd kv) = true ->
                    forall indent,
                      size (snd kv) <= String.length (element_text indent (snd kv)))
         props ->
  forallb (fun kv => json_data (snd kv)) props = true ->
  1 <= String.length sep ->
  members_size props
  <= S (String.length (join sep (map (member_text indent) props))).
Proof.
  induction 1 as [|[k y] ys Hy Hys IH]; intros Hjson Hsep; [simpl; lia|].
  simpl in Hjson. apply andb_true_iff in Hjson as [Hjy Hjys].
  specialize (IH Hjys Hsep). specialize (Hy Hjy indent). simpl in Hy.
  change (members_size ((k, y) :: ys)) with (S (size y + members_size ys)).
  pose proof (member_text_length indent k y) as Hm.
  destruct ys as [|z zs].
  - change (join sep (map (member_text indent) [(k, y)]))
      with (member_text indent (k, y)).
    change (members_size []) with 0. lia.
  - change (map (member_text indent) ((k, y) :: z :: zs))
      with (member_text indent (k, y) :: member_text indent z
              :: map (member_text indent) zs).
    rewrite join_length_cons2.
    change (member_text indent z :: map (member_text indent) zs)
      with (map (member_text indent) (z :: zs)).
    lia.
Qed.

Lemma wrap_length (open close stepback indent : string) (partial : list string) :
  String.length (wrap open close stepback indent partial)
  = String.length open + 1 + String.length indent
    + String.length (join ("," ++ newline ++ indent) partial)
    + 1 + String.length stepback + String.length close.
Proof.
  unfold wrap. rewrite !length_append.
  change (String.length newline) with 1. lia.
Qed.

(** A value's text is at least as long as the fuel the reader needs. *)
Lemma size_le_length (v : value) :
  json_data v = true ->
  forall indent, size v <= String.length (element_text indent v).
Proof.
  induction v as [| |b|n|s|items IH|props IH] using value_ind;
    intros Hjson indent.
  - discriminate.
  - simpl. lia.
  - destruct b; simpl; lia.
  - change (element_text indent (VNum n)) with (number_to_string n).
    destruct (number_to_string_head n) as (c & s & -> & _). simpl. lia.
  - simpl. lia.
  - change (json_data (VArr items)) with (forallb json_data items) in Hjson.
    pose proof (elements_size_le_join ("," ++ newline ++ indent ++ gap)
                  (indent ++ gap) items IH Hjson
                  ltac:(rewrite append_cons; simpl; lia)) as H.
    change (size (VArr items)) with (S (elements_size items)).
    unfold element_text. rewrite SerializeJSONProperty_VArr. cbv zeta.
    destruct (map (element_text (indent ++ gap)) items) as [|t ts] eqn:E.
    + destruct items; [|discriminate]. simpl. lia.
    + rewrite wrap_length. change (String.length "[") with 1. lia.
  - rewrite json_data_VObj in Hjson.
    apply andb_true_iff in Hjson as [_ Hjson].
    pose proof (members_size_le_join ("," ++ newline ++ indent ++ gap)
                  (indent ++ gap) props IH Hjson
                  ltac:(rewrite append_cons; simpl; lia)) as H.
    rewrite size_VObj.
    unfold element_text. rewrite (SerializeJSONProperty_VObj _ _ Hjson).
    cbv zeta.
    destruct (map (member_text (indent ++ gap)) props) as [|t ts] eqn:E.
    + destruct props; [|discriminate]. simpl. lia.
    + rewrite wrap_length. change (String.length "{") with 1. lia.
Qed.

(** Parsing the text [JSON.stringify] made of a JSON value gives the
    value. *)
Lemma JSON_parse_stringify (v : value) :
  json_data v = true ->
  exists text, JSON_stringify v = Some text /\ JSON_parse text = Returns v.
Proof.
  intros Hjson. exists (element_text EmptyString v). split.
  - apply json_data_defined, Hjson.
  - unfold JSON_parse.
    pose proof (size_le_length v Hjson EmptyString) as Hsize.
    destruct (json_reads_back v Hjson (S (String.length (element_text EmptyString v)))
                EmptyString EmptyString ltac:(lia) eq_refl eq_refl) as [_ H].
    rewrite append_nil_r in H. rewrite H. reflexivity.
Qed.

End ReaderFacts.

(** * The claims *)

Section RegistryClaims.
Import Config Shared Examples.

Lemma loaded_config_multi : loaded config_multi.
Proof. exists env_multi. reflexivity. Defined.

Lemma loaded_config_legacy : loaded config_legacy.
Proof. exists env_legacy. reflexivity. Defined.

(** C1. For a loaded configuration and a configured workspace key [k]: at
    any point of any call sequence, [getClickUpServices(k)] returns a
    services object, a second call with [k] (whatever calls happen in
    between) returns that very same object and changes nothing, and over
    any call sequence from process start [createClickUpServices] has run at
    most once for [k]. *)
Theorem getClickUpServices_same_instance_built_once
    (configuration : Configuration) (k : string)
    (Hload : loaded configuration)
    (Hk : In k (getAvailableWorkspaces configuration)) :
  forall before between calls : list (option string),
    let st0 := run_calls configuration before empty_registry in
    exists services st1,
      getClickUpServices configuration (Some k) st0 = (Ok services, st1) /\
      (let st2 := run_calls configuration between st1 in
       getClickUpServices configuration (Some k) st2 = (Ok services, st2)) /\
      constructions_for k (run_calls configuration calls empty_registry) <= 1.
Proof.
  intros before between calls st0.
  destruct (configured_resolves configuration k Hload Hk) as [v Hv].
  destruct (getClickUpServices_total configuration (Some k) st0 v Hv)
    as (services & st1 & H1).
  exists services, st1. split; [exact H1|]. split.
  - apply (getClickUpServices_again configuration _ _ _ _ between H1).
  - apply (registry_inv_at_most_once configuration).
    apply run_calls_inv, registry_inv_empty.
Qed.

Lemma getClickUpServices_same_instance_built_once_witness :
  loaded config_multi /\
  In "personal" (getAvailableWorkspaces config_multi) /\
  forall before between calls : list (option string),
    let st0 := run_calls config_multi before empty_registry in
    exists services st1,
      getClickUpServices config_multi (Some "personal") st0 = (Ok services, st1) /\
      (let st2 := run_calls config_multi between st1 in
       getClickUpServices config_multi (Some "personal") st2 = (Ok services, st2)) /\
      constructions_for "personal" (run_calls config_multi calls empty_registry) <= 1.
Proof.
  split; [exact loaded_config_multi|]. split; [simpl; tauto|].
  apply (getClickUpServices_same_instance_built_once config_multi "personal").
  - exact loaded_config_multi.
  - simpl. tauto.
Defined.

(** C2. For a loaded multi-workspace configuration, [getClickUpServices()]
    and [getClickUpServices(defaultKey)] are the same computation in every
    state, they succeed, and called one after the other they return the
    same services object. *)
Theorem getClickUpServices_undefined_is_default
    (configuration : Configuration) (cw : ClickUpWorkspacesConfig)
    (Hload : loaded configuration)
    (Hmulti : clickupWorkspaces configuration = Some cw) :
  getDefaultWorkspace configuration = default cw /\
  forall st,
    getClickUpServices configuration None st
    = getClickUpServices configuration (Some (default cw)) st /\
    exists services st',
      getClickUpServices configuration None st = (Ok services, st') /\
      getClickUpServices configuration (Some (default cw)) st' = (Ok services, st').
Proof.
  assert (Hd : getDefaultWorkspace configuration = default cw)
    by (unfold getDefaultWorkspace; now rewrite Hmulti).
  split; [exact Hd|]. intros st.
  assert (Heq : forall s, getClickUpServices configuration None s
                = getClickUpServices configuration (Some (default cw)) s).
  { intros s. unfold getClickUpServices. rewrite Hd.
    replace (or_else (Some (default cw)) (default cw)) with (or_else None (default cw));
      [reflexivity|].
    unfold or_else. now destruct (String.eqb (default cw) ""). }
  split; [apply Heq|].
  destruct (loaded_default_Ok _ Hload) as [v Hv].
  destruct (getClickUpServices_total configuration None st v Hv)
    as (services & st' & H1).
  exists services, st'. split; [exact H1|].
  rewrite <- Heq.
  apply (getClickUpServices_again configuration _ _ _ _ [] H1).
Qed.

Lemma getClickUpServices_undefined_is_default_witness :
  loaded config_multi /\
  getDefaultWorkspace config_multi = "work" /\
  forall st,
    getClickUpServices config_multi None st
    = getClickUpServices config_multi (Some "work") st /\
    exists services st',
      getClickUpServices config_multi None st = (Ok services, st') /\
      getClickUpServices config_multi (Some "work") st' = (Ok services, st').
Proof.
  split; [exact loaded_config_multi|].
  exact (getClickUpServices_undefined_is_default config_multi
           (mkWorkspaces "work"
              [ ("work", mkWorkspaceConfig "pk_work" "9001" (Some "Work account"));
                ("personal", mkWorkspaceConfig "pk_home" "9002" None) ])
           loaded_config_multi eq_refl).
Defined.

(** C9. The empty selector is read as no selector: [getClickUpServices('')]
    and [getWorkspaceConfig('')] are [getClickUpServices()] and
    [getWorkspaceConfig()]; for a loaded configuration they return the
    default workspace's credential and services object and do not throw. *)
Theorem empty_selector_is_default
    (configuration : Configuration) (Hload : loaded configuration) :
  (forall st, getClickUpServices configuration (Some "") st
              = getClickUpServices configuration None st) /\
  getWorkspaceConfig configuration (Some "") = getWorkspaceConfig configuration None /\
  (exists v,
     getWorkspaceConfig configuration (Some "") = Ok v /\
     getWorkspaceConfig configuration (Some (getDefaultWorkspace configuration)) = Ok v) /\
  (forall st, exists services st',
     getClickUpServices configuration (Some "") st = (Ok services, st') /\
     workspaceServicesMap st' !! getDefaultWorkspace configuration = Some services).
Proof.
  assert (Hw : getWorkspaceConfig configuration (Some "")
               = getWorkspaceConfig configuration None).
  { unfold getWorkspaceConfig. now destruct (clickupWorkspaces configuration). }
  split; [reflexivity|]. split; [exact Hw|].
  destruct (loaded_default_Ok _ Hload) as [v Hv]. split.
  - exists v. rewrite Hw, getWorkspaceConfig_default. tauto.
  - intros st.
    destruct (getClickUpServices_total configuration (Some "") st v)
      as (services & st' & H1); [now rewrite Hw|].
    exists services, st'. split; [exact H1|].
    apply (getClickUpServices_Ok_cached configuration _ _ _ _ H1).
Qed.

Lemma empty_selector_is_default_witness :
  loaded config_legacy /\
  (forall st, getClickUpServices config_legacy (Some "") st
              = getClickUpServices config_legacy None st) /\
  getWorkspaceConfig config_legacy (Some "") = getWorkspaceConfig config_legacy None /\
  (exists v,
     getWorkspaceConfig config_legacy (Some "") = Ok v /\
     getWorkspaceConfig config_legacy (Some (getDefaultWorkspace config_legacy)) = Ok v) /\
  (forall st, exists services st',
     getClickUpServices config_legacy (Some "") st = (Ok services, st') /\
     workspaceServicesMap st' !! getDefaultWorkspace config_legacy = Some services).
Proof.
  split; [exact loaded_config_legacy|].
  exact (empty_selector_is_default config_legacy loaded_config_legacy).
Defined.

(** C10. Importing shared.ts runs [getClickUpServices()] at once: for a
    loaded configuration the call succeeds, the factory runs exactly once,
    for the default workspace, and the map holds the default key from then
    on, through every later call sequence. *)
Theorem module_init_builds_default
    (configuration : Configuration) (Hload : loaded configuration) :
  exists services st,
    module_init configuration = (Ok services, st) /\
    constructions st = [(getDefaultWorkspace configuration, services)] /\
    forall calls,
      workspaceServicesMap (run_calls configuration calls st)
        !! getDefaultWorkspace configuration = Some services.
Proof.
  destruct (loaded_default_Ok _ Hload) as [v Hv].
  unfold module_init.
  pose proof (getClickUpServices_fresh configuration None empty_registry v
                (lookup_empty _) Hv) as H.
  simpl in H. eexists _, _. split; [exact H|]. split; [reflexivity|].
  intros calls. apply run_calls_keeps. simpl. apply lookup_insert_eq.
Qed.

Lemma module_init_builds_default_witness :
  loaded config_multi /\
  exists services st,
    module_init config_multi = (Ok services, st) /\
    constructions st = [(getDefaultWorkspace config_multi, services)] /\
    forall calls,
      workspaceServicesMap (run_calls config_multi calls st)
        !! getDefaultWorkspace config_multi = Some services.
Proof.
  split; [exact loaded_config_multi|].
  exact (module_init_builds_default config_multi loaded_config_multi).
Defined.

End RegistryClaims.

Section CredentialClaims.
Import Config Shared Helper Examples.

(** A key that is not empty, not configured and (in multi-workspace mode)
    not an inherited member name is refused by the credential lookup. *)
Lemma getWorkspaceConfig_unknown (configuration : Configuration) (k' : string) :
  k' <> "" ->
  ~ In k' (getAvailableWorkspaces configuration) ->
  (clickupWorkspaces configuration <> None -> inherited k' = false) ->
  exists msg,
    getWorkspaceConfig configuration (Some k') = Throw (new_Error msg) /\
    (clickupWorkspaces configuration = None -> msg = not_configured_message).
Proof.
  intros Hne Hk Hinh. unfold getWorkspaceConfig, getAvailableWorkspaces in *.
  destruct (clickupWorkspaces configuration) as [cw|].
  - rewrite (or_else_Some _ _ Hne).
    assert (G : get_property (workspaces cw) k' = None).
    { apply get_property_None. split; [exact Hk|]. now apply Hinh. }
    rewrite G. eexists. split; [reflexivity | discriminate].
  - assert (E : String.eqb k' "default" = false).
    { apply String.eqb_neq. intros ->. apply Hk. now left. }
    unfold truthy, strict_eq. rewrite (eqb_empty_false _ Hne), E.
    simpl. eexists. split; reflexivity.
Qed.

(** C3 (amended). In any reachable state, for every non-empty key [k']
    that is not configured (and, in multi-workspace mode, is not the name
    of a member inherited from Object.prototype),
    [getServicesForWorkspace({workspace: k'})] throws and leaves the state
    unchanged.  The error is an [Error] like the one [getWorkspaceConfig]
    raised, its message is the original message followed by the list of
    [getAvailableWorkspaces()], so it contains every configured key; in
    legacy mode that list is just [default]. *)
Theorem getServicesForWorkspace_unknown_key
    (configuration : Configuration) (k' : string) (st : Registry)
    (Hreach : reachable configuration st)
    (Hne : k' <> "")
    (Hk : ~ In k' (getAvailableWorkspaces configuration))
    (Hinh : clickupWorkspaces configuration <> None -> inherited k' = false) :
  exists original e,
    getWorkspaceConfig configuration (Some k') = Throw original /\
    getServicesForWorkspace configuration (Some k') st = (Throw e, st) /\
    err_name e = err_name original /\
    err_message e = err_message original ++ newline ++ "Available workspaces: " ++
                    join ", " (getAvailableWorkspaces configuration) /\
    starts_with (err_message e) (err_message original) /\
    (forall k, In k (getAvailableWorkspaces configuration) ->
               includes (err_message e) k) /\
    (clickupWorkspaces configuration = None ->
       getAvailableWorkspaces configuration = ["default"] /\
       err_message e = not_configured_message ++ newline ++
                       "Available workspaces: default").
Proof.
  destruct (getWorkspaceConfig_unknown configuration k' Hne Hk Hinh)
    as (msg & G & Hlegacy).
  exists (new_Error msg). eexists. split; [exact G|].
  assert (L : workspaceServicesMap st !! k' = None).
  { eapply unresolved_not_cached; [apply reachable_inv, Hreach | exact G]. }
  split.
  - unfold getServicesForWorkspace, try_catch.
    rewrite (getClickUpServices_unknown configuration (Some k') st (new_Error msg)).
    + unfold raise. reflexivity.
    + now rewrite (or_else_Some _ _ Hne).
    + exact G.
  - simpl. split; [reflexivity|]. split; [reflexivity|]. split.
    + eexists. reflexivity.
    + split.
      * intros k Hin. do 3 apply includes_app_l. now apply join_includes.
      * intros Hnone. unfold getAvailableWorkspaces. rewrite Hnone.
        split; [reflexivity|]. now rewrite (Hlegacy Hnone).
Qed.

Lemma getServicesForWorkspace_unknown_key_witness :
  reachable config_multi (snd (module_init config_multi)) /\
  "staging" <> "" /\
  ~ In "staging" (getAvailableWorkspaces config_multi) /\
  (clickupWorkspaces config_multi <> None -> inherited "staging" = false) /\
  exists e,
    getServicesForWorkspace config_multi (Some "staging")
      (snd (module_init config_multi))
    = (Throw e, snd (module_init config_multi)) /\
    includes (err_message e) "work" /\ includes (err_message e) "personal".
Proof.
  assert (R : reachable config_multi (snd (module_init config_multi)))
    by (exists [None]; reflexivity).
  assert (N : "staging" <> "") by discriminate.
  assert (K : ~ In "staging" (getAvailableWorkspaces config_multi))
    by (simpl; intros [H|[H|[]]]; discriminate).
  assert (I : clickupWorkspaces config_multi <> None -> inherited "staging" = false)
    by (intros _; reflexivity).
  split; [exact R|]. split; [exact N|]. split; [exact K|]. split; [exact I|].
  destruct (getServicesForWorkspace_unknown_key config_multi "staging" _ R N K I)
    as (original & e & _ & H & _ & _ & _ & Hall & _).
  exists e. split; [exact H|].
  split; apply Hall; simpl; tauto.
Defined.

(** C3 as stated fails: in legacy mode the key [''] is not [default] and is
    not configured, yet [getServicesForWorkspace({workspace: ''})] returns
    the default services object instead of throwing. *)
Lemma getServicesForWorkspace_empty_key_succeeds :
  loaded config_legacy /\
  clickupWorkspaces config_legacy = None /\
  "" <> "default" /\
  ~ In "" (getAvailableWorkspaces config_legacy) /\
  getServicesForWorkspace config_legacy (Some "") empty_registry
  = (Ok (mkServices 0 (Some "pk_legacy") (Some "9000")),
     mkRegistry {[ "default" := mkServices 0 (Some "pk_legacy") (Some "9000") ]}
                [("default", mkServices 0 (Some "pk_legacy") (Some "9000"))]).
Proof.
  split; [exact loaded_config_legacy|]. split; [reflexivity|].
  split; [discriminate|]. split.
  - simpl. intros [H|[]]. discriminate.
  - reflexivity.
Qed.

(** The slip the amended claim leaves out: in multi-workspace mode a name
    every object inherits is not a configured key, yet the lookup
    [workspaces[wsId]] finds the inherited member and a services object
    with no credentials is built. *)
Example getServicesForWorkspace_inherited_name :
  ~ In "toString" (getAvailableWorkspaces config_multi) /\
  fst (getServicesForWorkspace config_multi (Some "toString") empty_registry)
  = Ok (mkServices 0 None None).
Proof.
  split; [|reflexivity]. simpl. intros [H|[H|[]]]; discriminate.
Qed.

End CredentialClaims.

Section LoadClaims.
Import Config Shared Examples.

Lemma check_workspaces_keys entries ws :
  check_workspaces entries = Ok ws -> map fst ws = map fst entries.
Proof.
  revert ws. induction entries as [|[key raw] entries IH]; intros ws H; simpl in H.
  - now injection H as <-.
  - destruct (negb (truthy (raw_token raw)) || negb (truthy (raw_teamId raw)));
      [discriminate|].
    destruct (check_workspaces entries) as [ws'|e]; [|discriminate].
    injection H as <-. simpl. now rewrite (IH ws' eq_refl).
Qed.

(** With the blob present, loading yields the parsed blob and never looks
    at the legacy variables. *)
Lemma load_multi env src c :
  env_clickupWorkspaces env = Some src ->
  load env = Ok c ->
  exists cw,
    parseWorkspaces (Some src) = Ok (Some cw) /\
    get_property (workspaces cw) (default cw) <> None /\
    c = mkConfiguration (or_else (env_clickupApiKey env) "")
                        (or_else (env_clickupTeamId env) "")
                        (Some cw) (env_disabledTools env) (env_enabledTools env).
Proof.
  intros Hsrc H. unfold load in H. rewrite Hsrc in H.
  destruct (parseWorkspaces (Some src)) as [[cw|]|e] eqn:P; try discriminate.
  - exists cw. split; [reflexivity|].
    pose proof (validate_Ok _ _ H) as ->. split; [|reflexivity].
    unfold validate in H. simpl in H.
    destruct (get_property (workspaces cw) (default cw)); [discriminate 1 | discriminate].
  - simpl in P. destruct (parseWorkspaces_try src); discriminate.
Qed.

(** C4. When [CLICKUP_WORKSPACES] is present and the configuration loads,
    the configuration is in multi-workspace mode; every successful
    [getWorkspaceConfig] returns the property read from the workspace map
    under the resolved key; and any other environment with the same blob,
    whatever its legacy variables, loads too and gives the same answer for
    every selector: the legacy token and team id are never consulted. *)
Theorem workspaces_blob_takes_precedence
    (env env' : Env) (src : ParsedJson) (c : Configuration)
    (Hblob : env_clickupWorkspaces env = Some src)
    (Hblob' : env_clickupWorkspaces env' = Some src)
    (Hload : load env = Ok c) :
  exists cw,
    clickupWorkspaces c = Some cw /\
    (forall sel v,
       getWorkspaceConfig c sel = Ok v ->
       get_property (workspaces cw) (or_else sel (default cw)) = Some v) /\
    exists c',
      load env' = Ok c' /\
      clickupWorkspaces c' = Some cw /\
      forall sel, getWorkspaceConfig c' sel = getWorkspaceConfig c sel.
Proof.
  destruct (load_multi env src c Hblob Hload) as (cw & P & D & ->).
  exists cw. split; [reflexivity|]. split.
  - intros sel v. unfold getWorkspaceConfig. simpl.
    destruct (get_property (workspaces cw) (or_else sel (default cw)));
      intros H; [now injection H as -> | discriminate].
  - exists (mkConfiguration (or_else (env_clickupApiKey env') "")
                            (or_else (env_clickupTeamId env') "")
                            (Some cw) (env_disabledTools env')
                            (env_enabledTools env')).
    split; [|split; reflexivity].
    unfold load. rewrite Hblob', P. unfold validate. simpl.
    destruct (get_property (workspaces cw) (default cw)); [reflexivity | congruence].
Qed.

Lemma workspaces_blob_takes_precedence_witness :
  env_clickupWorkspaces env_multi = Some (Parsed two_workspaces) /\
  env_clickupWorkspaces env_multi_only = Some (Parsed two_workspaces) /\
  load env_multi = Ok config_multi /\
  exists cw,
    clickupWorkspaces config_multi = Some cw /\
    (forall sel v,
       getWorkspaceConfig config_multi sel = Ok v ->
       get_property (workspaces cw) (or_else sel (default cw)) = Some v) /\
    exists c',
      load env_multi_only = Ok c' /\
      clickupWorkspaces c' = Some cw /\
      forall sel, getWorkspaceConfig c' sel = getWorkspaceConfig config_multi sel.
Proof.
  split; [reflexivity|]. split; [reflexivity|]. split; [reflexivity|].
  exact (workspaces_blob_takes_precedence env_multi env_multi_only
           (Parsed two_workspaces) config_multi eq_refl eq_refl eq_refl).
Defined.

(** What the validation does achieve: a default key that is neither a key
    of the map nor an inherited member name aborts the load. *)
Lemma load_rejects_missing_default env parsed d entries :
  env_clickupWorkspaces env = Some (Parsed parsed) ->
  raw_default parsed = Some d ->
  raw_workspaces parsed = Some entries ->
  ~ In d (map fst entries) ->
  inherited d = false ->
  exists e, load env = Throw e.
Proof.
  intros Hsrc Hd Hws Hnot Hinh.
  destruct (load env) as [c|e] eqn:L; [|eauto]. exfalso.
  destruct (load_multi env _ c Hsrc L) as (cw & P & D & _).
  apply D. apply get_property_None.
  simpl in P. rewrite Hws, Hd in P. unfold truthy, or_else in P.
  destruct (String.eqb d "") eqn:T; [discriminate|]. simpl in P.
  destruct (check_workspaces entries) as [ws|] eqn:C; [|discriminate].
  injection P as <-. simpl.
  unfold Object_keys. rewrite (check_workspaces_keys _ _ C). tauto.
Qed.

(** C5 fails on the code: the blob
    [{default: 'toString', workspaces: {work: {...}}}] names a default that
    is no key of the workspace map, yet the load succeeds, because the
    check [!workspaces[defaultWorkspace]] reads the inherited
    [Object.prototype.toString]; shared.ts then builds the default services
    object with an undefined token and team id.  A default that is not an
    inherited name is rejected at load, as the claim says. *)
Theorem load_accepts_inherited_default :
  ~ In "toString" (Object_keys [("work", mkWorkspaceConfig "pk_work" "9001" None)]) /\
  load env_default_toString
  = Ok (mkConfiguration "" ""
          (Some (mkWorkspaces "toString"
                   [("work", mkWorkspaceConfig "pk_work" "9001" None)])) [] []) /\
  (forall c, load env_default_toString = Ok c ->
     fst (module_init c) = Ok (mkServices 0 None None)) /\
  load env_default_missing
  = Throw (new_Error ("Default workspace " ++ dq ++ "staging" ++ dq ++
                      " not found in workspaces configuration")).
Proof.
  split; [simpl; intros [H|[]]; discriminate|].
  split; [reflexivity|]. split; [|reflexivity].
  intros c H. change (load env_default_toString) with
    (Ok (mkConfiguration "" ""
          (Some (mkWorkspaces "toString"
                   [("work", mkWorkspaceConfig "pk_work" "9001" None)])) [] [])) in H.
  injection H as <-. reflexivity.
Qed.

End LoadClaims.

Section FilterClaims.
Import Filter.

(** The three clauses collapse into two. *)
Lemma effectiveSet_cases (catalog enabledList disabledList : gset string) :
  effectiveSet catalog enabledList disabledList
  = if decide (enabledList = ∅) then catalog ∖ disabledList
    else catalog ∩ enabledList.
Proof.
  unfold effectiveSet.
  destruct (decide (enabledList = ∅)) as [He|He].
  - rewrite decide_False by (intros H; now apply H).
    destruct (decide (disabledList = ∅)) as [Hd|Hd].
    + rewrite decide_False by (intros H; now apply H).
      now rewrite Hd, difference_empty_L.
    + now rewrite decide_True.
  - now rewrite decide_True.
Qed.

(** C6. The effective set is the catalog intersected with the enabled list
    when that list is non-empty (whatever the disabled list says), and the
    catalog minus the disabled list otherwise; with both lists empty it is
    the whole catalog.  It never contains a name outside the catalog. *)
Theorem effectiveSet_precedence (catalog enabledList disabledList : gset string) :
  effectiveSet catalog enabledList disabledList
  = (if decide (enabledList = ∅) then catalog ∖ disabledList
     else catalog ∩ enabledList) /\
  effectiveSet catalog ∅ ∅ = catalog /\
  effectiveSet catalog enabledList disabledList ⊆ catalog /\
  (forall t, t ∈ effectiveSet catalog enabledList disabledList <->
             t ∈ catalog /\
             if decide (enabledList = ∅) then t ∉ disabledList
             else t ∈ enabledList).
Proof.
  split; [apply effectiveSet_cases|]. split; [|split].
  - rewrite effectiveSet_cases, decide_True by reflexivity.
    apply difference_empty_L.
  - rewrite effectiveSet_cases. destruct (decide (enabledList = ∅)).
    + apply subseteq_difference_l. reflexivity.
    + apply intersection_subseteq_l.
  - intros t. rewrite effectiveSet_cases.
    destruct (decide (enabledList = ∅)).
    + apply elem_of_difference.
    + apply elem_of_intersection.
Qed.

(** The three worked examples of the specification. *)
Example effectiveSet_enabled_wins :
  effectiveSet {["A"; "B"; "C"; "D"]} {["A"; "C"]} {["B"]} = {["A"; "C"]}.
Proof. vm_compute. reflexivity. Qed.

Example effectiveSet_disabled_only :
  effectiveSet {["A"; "B"; "C"; "D"]} ∅ {["B"; "D"]} = {["A"; "C"]}.
Proof. vm_compute. reflexivity. Qed.

Example effectiveSet_no_lists :
  effectiveSet {["A"; "B"; "C"; "D"]} ∅ ∅ = {["A"; "B"; "C"; "D"]}.
Proof. vm_compute. reflexivity. Qed.

End FilterClaims.

Section ResponseClaims.
Import Json Response Examples.

Lemma set_property_all (P : value -> bool) props k v :
  forallb (fun kv => P (snd kv)) props = true ->
  P v = true ->
  forallb (fun kv => P (snd kv)) (set_property props k v) = true.
Proof.
  intros Hall Hv. induction props as [|[k' v'] props IH]; simpl in *.
  - now rewrite Hv.
  - apply andb_true_iff in Hall as [Hv' Hall].
    destruct (String.eqb k k'); [|destruct (key_before k k')]; simpl.
    + now rewrite Hv, Hall.
    + now rewrite Hv, Hv', Hall.
    + now rewrite Hv', (IH Hall).
Qed.

Lemma assign_all (P : value -> bool) target source :
  forallb (fun kv => P (snd kv)) target = true ->
  forallb (fun kv => P (snd kv)) source = true ->
  forallb (fun kv => P (snd kv)) (assign target source) = true.
Proof.
  unfold assign. revert target.
  induction source as [|[k v] source IH]; intros target Ht Hs; simpl in *;
    [exact Ht|].
  apply andb_true_iff in Hs as [Hv Hs].
  apply IH; [|exact Hs]. now apply set_property_all.
Qed.

(** The error object is JSON data whenever the context is, and has a
    preformatted [hierarchy] only if the context brings one. *)
Lemma error_object_json message context :
  json_data (VObj (spread context)) = true ->
  json_data (VObj (error_object message context)) = true.
Proof.
  rewrite !json_data_VObj. intros H. apply andb_true_iff in H as [Hc Hv].
  unfold error_object. apply andb_true_iff. split.
  - now apply assign_canonical.
  - now apply assign_all.
Qed.

Lemma error_object_fields message context k :
  json_data (VObj (spread context)) = true ->
  get_own (error_object message context) k
  = match get_own (spread context) k with
    | Some v => Some v
    | None => if String.eqb k "error" then Some (VStr message) else None
    end.
Proof.
  rewrite json_data_VObj. intros H. apply andb_true_iff in H as [Hc _].
  unfold error_object. rewrite (get_own_assign _ _ _ Hc). reflexivity.
Qed.

(** C7 (amended). For every message (a string, or an [Error] with that
    message) and every context that is absent or a JSON object without a
    string-valued [hierarchy] property, [createErrorResponse] returns an
    envelope with a single text part; the text is
    [JSON.stringify({ error: message, ...context }, null, 2)] and
    [JSON.parse] of it returns that object, whose fields are those of the
    context plus [error: message] unless the context has its own [error]. *)
Theorem createErrorResponse_parses_back
    (error : JsError + string) (context : option (list (string * value)))
    (Hjson : json_data (VObj (spread context)) = true)
    (Hhier : preformatted_hierarchy (VObj (spread context)) = None) :
  exists text,
    createErrorResponse error context
    = mkEnvelope [mkContent "text" (Some text)] /\
    JSON_stringify (VObj (error_object (error_message error) context))
    = Some text /\
    JSON_parse text
    = Returns (VObj (error_object (error_message error) context)) /\
    forall k,
      get_own (error_object (error_message error) context) k
      = match get_own (spread context) k with
        | Some v => Some v
        | None =>
            if String.eqb k "error" then Some (VStr (error_message error))
            else None
        end.
Proof.
  pose proof (error_object_json (error_message error) context Hjson) as Hobj.
  destruct (JSON_parse_stringify _ Hobj) as (text & Hs & Hp).
  exists text. split; [|split; [exact Hs|split; [exact Hp|]]].
  - unfold createErrorResponse, createResponse.
    assert (preformatted_hierarchy
              (VObj (error_object (error_message error) context)) = None) as ->.
    { unfold preformatted_hierarchy in *.
      rewrite (error_object_fields _ _ _ Hjson).
      destruct (get_own (spread context) "hierarchy") as [v|]; [exact Hhier|].
      reflexivity. }
    now rewrite Hs.
  - intros k. now apply error_object_fields.
Qed.

Lemma createErrorResponse_parses_back_witness :
  json_data (VObj (spread None)) = true /\
  preformatted_hierarchy (VObj (spread None)) = None /\
  exists text,
    createErrorResponse (inr "boom") None
    = mkEnvelope [mkContent "text" (Some text)] /\
    JSON_parse text = Returns (VObj [("error", VStr "boom")]).
Proof.
  split; [reflexivity|]. split; [reflexivity|].
  destruct (createErrorResponse_parses_back (inr "boom") None eq_refl eq_refl)
    as (text & H1 & _ & H3 & _).
  exists text. split; [exact H1 | exact H3].
Defined.

(** The same with a context. *)
Example createErrorResponse_with_context :
  exists text,
    createErrorResponse (inr "boom") (Some tool_context)
    = mkEnvelope [mkContent "text" (Some text)] /\
    JSON_parse text
    = Returns (VObj [("error", VStr "boom"); ("code", VNum 404);
                     ("tool", VStr "get_task")]).
Proof. eexists. split; [reflexivity | vm_compute; reflexivity]. Qed.

(** C7 as stated fails: with the context [{ hierarchy: 'tree' }] the text
    of the envelope is [tree], which [JSON.parse] rejects; it is the text
    of no object. *)
Lemma createErrorResponse_hierarchy_context :
  createErrorResponse (inr "boom") (Some hierarchy_context)
  = mkEnvelope [mkContent "text" (Some "tree")] /\
  JSON_parse "tree" = ThrowsSyntaxError /\
  JSON_stringify (VObj (error_object "boom" (Some hierarchy_context)))
  <> Some "tree".
Proof.
  split; [reflexivity|]. split; [vm_compute; reflexivity|].
  vm_compute. discriminate.
Qed.

(** C8 (amended). [createResponse] returns an envelope with exactly one
    part, of type [text].  Its text is the payload itself when the payload
    is a string; the payload's [hierarchy] when the payload is an object
    whose [hierarchy] property is a string; and in every other case
    [JSON.stringify(payload, null, 2)], which is a string unless the
    payload is [undefined]. *)
Theorem createResponse_single_text_part (data : value) :
  exists t,
    createResponse data = mkEnvelope [mkContent "text" t] /\
    (forall s, data = VStr s -> t = Some s) /\
    (forall props tree,
       data = VObj props ->
       get_own props "hierarchy" = Some (VStr tree) -> t = Some tree) /\
    ((forall s, data <> VStr s) ->
     preformatted_hierarchy data = None -> t = JSON_stringify data) /\
    (t = None <-> data = VUndefined).
Proof.
  unfold createResponse.
  destruct (preformatted_hierarchy data) as [tree|] eqn:H.
  - eexists. split; [reflexivity|].
    destruct data as [| | | | | |props]; try discriminate H.
    simpl in H. split; [discriminate|]. split; [|split; [discriminate|]].
    + intros props' tree' E G. injection E as <-. rewrite G in H.
      now injection H as ->.
    + split; discriminate.
  - destruct data as [| |b|n|s|items|props].
    all: eexists; (split; [reflexivity|]).
    all: split; [intros s' E; try discriminate E; now injection E as -> |].
    all: split; [intros props' tree' E G; try discriminate E |].
    all: try (split; [intros Hs _; try reflexivity |
                      split; intros E; try discriminate E; try reflexivity]).
    + destruct b; discriminate E.
    + exfalso. now apply (Hs s).
    + injection E as <-. simpl in H. rewrite G in H. discriminate.
Qed.

(** C8 as stated fails: the payload [{ hierarchy: 'root', count: 1 }] is
    not a string, yet the text is [root], not the payload's JSON. *)
Lemma createResponse_hierarchy_payload :
  (forall s, hierarchy_payload <> VStr s) /\
  createResponse hierarchy_payload = mkEnvelope [mkContent "text" (Some "root")] /\
  JSON_stringify hierarchy_payload <> Some "root" /\
  JSON_parse "root" = ThrowsSyntaxError.
Proof.
  split; [discriminate|]. split; [reflexivity|]. split.
  - vm_compute. discriminate.
  - vm_compute. reflexivity.
Qed.

End ResponseClaims.

(** * Further properties of the code *)

(** ** The registry: tenancy and [getAllWorkspaceServices] *)

Section RegistryExtras.
Import Config Shared Tenancy Examples.

Variable configuration : Configuration.

Lemma credentials_inv_empty : credentials_inv configuration empty_registry.
Proof. intros k s H. simpl in H. now rewrite lookup_empty in H. Qed.

Lemma getClickUpServices_credentials sel st :
  credentials_inv configuration st ->
  credentials_inv configuration (snd (getClickUpServices configuration sel st)).
Proof.
  intros Hinv.
  destruct (workspaceServicesMap st !! resolved_key configuration sel)
    as [s|] eqn:L.
  - now rewrite (getClickUpServices_cached configuration _ _ _ L).
  - destruct (getWorkspaceConfig configuration sel) as [v|e] eqn:G.
    + rewrite (getClickUpServices_fresh configuration _ _ _ L G). simpl.
      intros k s H. simpl in H.
      destruct (decide (resolved_key configuration sel = k)) as [<-|Hne].
      * unfold resolved_key in H. rewrite lookup_insert_eq in H.
        injection H as <-. exists v. split; [|split; reflexivity].
        unfold resolved_key. now rewrite getWorkspaceConfig_resolved.
      * unfold resolved_key in Hne. rewrite lookup_insert_ne in H by exact Hne.
        now apply Hinv.
    + now rewrite (getClickUpServices_unknown configuration _ _ _ L G).
Qed.

Lemma reachable_credentials st :
  reachable configuration st -> credentials_inv configuration st.
Proof.
  intros [calls ->]. generalize credentials_inv_empty.
  generalize empty_registry.
  induction calls as [|c calls IH]; intros st H; simpl; [exact H|].
  apply IH, getClickUpServices_credentials, H.
Qed.

(** The loop of [getAllWorkspaceServices] is a call sequence. *)
Lemma for_each_workspace_run ids st :
  (forall id, In id ids ->
     exists v, getWorkspaceConfig configuration (Some id) = Ok v) ->
  for_each_workspace configuration ids st
  = (Ok tt, run_calls configuration (map Some ids) st).
Proof.
  revert st. induction ids as [|id ids IH]; intros st Hall; [reflexivity|].
  destruct (Hall id (or_introl eq_refl)) as [v Hv].
  destruct (getClickUpServices_total configuration (Some id) st v Hv)
    as (s & st' & H).
  simpl. unfold bind. rewrite H. simpl.
  apply IH. intros id' Hin. apply Hall. now right.
Qed.

(** After a call sequence every selector it contained that resolves is
    cached under its resolved key. *)
Lemma run_calls_caches calls st sel v :
  In sel calls ->
  getWorkspaceConfig configuration sel = Ok v ->
  is_Some (workspaceServicesMap (run_calls configuration calls st)
             !! resolved_key configuration sel).
Proof.
  revert st. induction calls as [|c calls IH]; intros st Hin Hv; [destruct Hin|].
  simpl. destruct Hin as [->|Hin]; [|now apply IH].
  destruct (getClickUpServices_total configuration sel st v Hv)
    as (s & st' & H).
  rewrite H. simpl. exists s. apply run_calls_keeps.
  apply (getClickUpServices_Ok_cached configuration _ _ _ _ H).
Qed.

(** A call sequence whose selectors are all cached changes nothing. *)
Lemma run_calls_all_cached calls st :
  (forall sel, In sel calls ->
     is_Some (workspaceServicesMap st !! resolved_key configuration sel)) ->
  run_calls configuration calls st = st.
Proof.
  induction calls as [|c calls IH]; intros Hall; [reflexivity|].
  simpl. destruct (Hall c (or_introl eq_refl)) as [s Hs].
  rewrite (getClickUpServices_cached configuration _ _ _ Hs). simpl.
  apply IH. intros sel Hin. apply Hall. now right.
Qed.

End RegistryExtras.

Section RegistryExtraTheorems.
Import Config Shared Tenancy Examples.

(** X1. After a successful load [getAllWorkspaceServices] never throws, from
    any state: it returns the map of the module, every object that was
    cached before is still cached under its key, and every configured key
    is now cached under the key it resolves to, which is the key itself
    unless the key is the empty string. *)
Theorem getAllWorkspaceServices_caches_all
    (configuration : Configuration) (st : Registry)
    (Hload : loaded configuration) :
  exists m st',
    getAllWorkspaceServices configuration st = (Ok m, st') /\
    m = workspaceServicesMap st' /\
    (forall k s, workspaceServicesMap st !! k = Some s -> m !! k = Some s) /\
    (forall k, In k (getAvailableWorkspaces configuration) ->
               is_Some (m !! resolved_key configuration (Some k))) /\
    (forall k, In k (getAvailableWorkspaces configuration) -> k <> "" ->
               is_Some (m !! k)).
Proof.
  pose proof (for_each_workspace_run configuration
                (getAvailableWorkspaces configuration) st
                (fun id Hin => configured_resolves configuration id Hload Hin))
    as Hrun.
  eexists _, _. split.
  - unfold getAllWorkspaceServices, bind. rewrite Hrun. reflexivity.
  - split; [reflexivity|]. split; [|split].
    + intros k s Hk. now apply run_calls_keeps.
    + intros k Hk.
      destruct (configured_resolves configuration k Hload Hk) as [v Hv].
      apply (run_calls_caches configuration _ _ (Some k) v).
      * now apply in_map.
      * exact Hv.
    + intros k Hk Hne.
      destruct (configured_resolves configuration k Hload Hk) as [v Hv].
      pose proof (run_calls_caches configuration
                    (map Some (getAvailableWorkspaces configuration)) st
                    (Some k) v (in_map Some _ _ Hk) Hv) as H.
      unfold resolved_key in H. now rewrite (or_else_Some _ _ Hne) in H.
Qed.

Lemma getAllWorkspaceServices_caches_all_witness :
  loaded config_multi /\
  exists m st',
    getAllWorkspaceServices config_multi empty_registry = (Ok m, st') /\
    is_Some (m !! "work") /\ is_Some (m !! "personal").
Proof.
  split; [exact loaded_config_multi|].
  destruct (getAllWorkspaceServices_caches_all config_multi empty_registry
              loaded_config_multi) as (m & st' & H & _ & _ & _ & Hall).
  exists m, st'. split; [exact H|].
  split; apply Hall; simpl; try tauto; discriminate.
Defined.

(** X2. [getAllWorkspaceServices] builds nothing the second time: called
    again in the state it left, it returns the same map and leaves the
    state, and so the record of factory calls, unchanged. *)
Theorem getAllWorkspaceServices_idempotent
    (configuration : Configuration) (st st' : Registry)
    (m : gmap string ClickUpServices)
    (Hload : loaded configuration)
    (Hfirst : getAllWorkspaceServices configuration st = (Ok m, st')) :
  getAllWorkspaceServices configuration st' = (Ok m, st').
Proof.
  pose proof (fun st0 => for_each_workspace_run configuration
                (getAvailableWorkspaces configuration) st0
                (fun id Hin => configured_resolves configuration id Hload Hin))
    as Hrun.
  unfold getAllWorkspaceServices, bind in *.
  rewrite Hrun in Hfirst. rewrite Hrun.
  injection Hfirst as Hm Hst.
  rewrite run_calls_all_cached; [now rewrite <- Hst at 1 2; rewrite Hm, Hst|].
  intros sel Hin. apply in_map_iff in Hin as (k & <- & Hk).
  destruct (configured_resolves configuration k Hload Hk) as [v Hv].
  rewrite <- Hst.
  apply (run_calls_caches configuration _ _ (Some k) v); [now apply in_map | exact Hv].
Qed.

End RegistryExtraTheorems.

Section TenancyTheorems.
Import Config Shared Tenancy Examples.

(** The state after both workspaces of the sample blob were asked for. *)
Lemma served_both_reachable :
  reachable config_multi
    (run_calls config_multi [Some "work"; Some "personal"] empty_registry).
Proof. exists [Some "work"; Some "personal"]. reflexivity. Defined.

Lemma getAllWorkspaceServices_idempotent_witness :
  loaded config_multi /\
  getAllWorkspaceServices config_multi empty_registry
  = (Ok (workspaceServicesMap
           (run_calls config_multi [Some "work"; Some "personal"] empty_registry)),
     run_calls config_multi [Some "work"; Some "personal"] empty_registry) /\
  getAllWorkspaceServices config_multi
    (run_calls config_multi [Some "work"; Some "personal"] empty_registry)
  = (Ok (workspaceServicesMap
           (run_calls config_multi [Some "work"; Some "personal"] empty_registry)),
     run_calls config_multi [Some "work"; Some "personal"] empty_registry).
Proof.
  split; [exact loaded_config_multi|]. split; [reflexivity|].
  exact (getAllWorkspaceServices_idempotent config_multi empty_registry _ _
           loaded_config_multi eq_refl).
Defined.

(** X3. In every reachable state two different workspace keys are cached
    with two different services objects: no object is shared between
    tenants. *)
Theorem services_never_shared
    (configuration : Configuration) (st : Registry) (k k' : string)
    (s s' : ClickUpServices)
    (Hreach : reachable configuration st)
    (Hne : k <> k')
    (Hk : workspaceServicesMap st !! k = Some s)
    (Hk' : workspaceServicesMap st !! k' = Some s') :
  instance s <> instance s'.
Proof. exact (bundles_not_shared configuration st k k' s s' Hreach Hne Hk Hk'). Qed.

Lemma services_never_shared_witness :
  reachable config_multi
    (run_calls config_multi [Some "work"; Some "personal"] empty_registry) /\
  "work" <> "personal" /\
  0 <> 1.
Proof.
  split; [exact served_both_reachable|]. split; [discriminate|].
  exact (services_never_shared config_multi
           (run_calls config_multi [Some "work"; Some "personal"] empty_registry)
           "work" "personal"
           (mkServices 0 (Some "pk_work") (Some "9001"))
           (mkServices 1 (Some "pk_home") (Some "9002"))
           served_both_reachable ltac:(discriminate) eq_refl eq_refl).
Defined.

(** X4. In every reachable state the object cached under a key was built
    from the credentials [getWorkspaceConfig] gives for that key: for a key
    of the workspace map, from that workspace's token and team id, and in
    legacy mode from the legacy pair.  No tenant is served with another
    tenant's credentials. *)
Theorem cached_services_carry_own_credentials
    (configuration : Configuration) (st : Registry) (k : string)
    (s : ClickUpServices)
    (Hreach : reachable configuration st)
    (Hk : workspaceServicesMap st !! k = Some s) :
  bound_to configuration k s /\
  (forall cw w,
     clickupWorkspaces configuration = Some cw ->
     k <> "" ->
     own_property (workspaces cw) k = Some w ->
     apiKey s = Some (token w) /\ bound_teamId s = Some (teamId w)) /\
  (clickupWorkspaces configuration = None ->
     apiKey s = Some (clickupApiKey configuration) /\
     bound_teamId s = Some (clickupTeamId configuration)).
Proof.
  pose proof (reachable_credentials configuration st Hreach k s Hk) as Hb.
  split; [exact Hb|]. destruct Hb as (v & Hv & Hkey & Hteam). split.
  - intros cw w Hcw Hne Hw. unfold getWorkspaceConfig in Hv.
    rewrite Hcw in Hv. rewrite (or_else_Some _ _ Hne) in Hv.
    unfold get_property in Hv. rewrite Hw in Hv. injection Hv as <-.
    now rewrite Hkey, Hteam.
  - intros Hnone. unfold getWorkspaceConfig in Hv. rewrite Hnone in Hv.
    destruct (truthy (Some k) && negb (strict_eq (Some k) "default"));
      [discriminate|].
    injection Hv as <-. now rewrite Hkey, Hteam.
Qed.

Lemma cached_services_carry_own_credentials_witness :
  reachable config_multi
    (run_calls config_multi [Some "work"; Some "personal"] empty_registry) /\
  workspaceServicesMap
    (run_calls config_multi [Some "work"; Some "personal"] empty_registry)
    !! "personal" = Some (mkServices 1 (Some "pk_home") (Some "9002")) /\
  bound_to config_multi "personal" (mkServices 1 (Some "pk_home") (Some "9002")).
Proof.
  split; [exact served_both_reachable|]. split; [reflexivity|].
  exact (proj1 (cached_services_carry_own_credentials config_multi _ "personal"
                  (mkServices 1 (Some "pk_home") (Some "9002"))
                  served_both_reachable eq_refl)).
Defined.

End TenancyTheorems.

(** ** The load of config.ts *)

Section LoadExtras.
Import Config LoadFacts Examples.

Lemma truthy_or_else (v : option string) :
  truthy v = true -> or_else v "" <> "".
Proof.
  destruct v as [s|]; [|discriminate]. simpl.
  destruct (String.eqb s "") eqn:E; [discriminate|].
  intros _. now apply String.eqb_neq.
Qed.

Lemma falsy_or_else (v : option string) :
  truthy v = false -> or_else v "" = "".
Proof.
  destruct v as [s|]; [|reflexivity]. simpl.
  destruct (String.eqb s "") eqn:E; [reflexivity | discriminate].
Qed.

(** X5. Without [CLICKUP_WORKSPACES] the configuration loads exactly when
    both the API key and the team id are set and not empty; the loaded
    configuration is in legacy mode and its default credential is that
    pair.  Otherwise the load throws, and the message names the missing
    fields, [clickupApiKey] before [clickupTeamId]. *)
Theorem load_legacy_needs_both_credentials
    (env : Env) (Hlegacy : env_clickupWorkspaces env = None) :
  match missing_names env with
  | [] =>
      exists c,
        load env = Ok c /\
        clickupWorkspaces c = None /\
        getWorkspaceConfig c None
        = Ok (OwnWorkspace
                (mkWorkspaceConfig (or_else (env_clickupApiKey env) "")
                                   (or_else (env_clickupTeamId env) "")
                                   (Some "Default workspace")))
  | missing =>
      load env
      = Throw (new_Error
          ("Missing required environment variables: " ++ join ", " missing ++
           ". " ++
           "Either provide CLICKUP_API_KEY and CLICKUP_TEAM_ID, or CLICKUP_WORKSPACES for multi-workspace support."))
  end.
Proof.
  unfold missing_names, load. rewrite Hlegacy. simpl parseWorkspaces. cbv iota.
  unfold validate, missingEnvVars, requiredVars, config_field. simpl.
  destruct (truthy (env_clickupApiKey env)) eqn:K,
           (truthy (env_clickupTeamId env)) eqn:T; simpl.
  - pose proof (truthy_or_else _ K) as HK. pose proof (truthy_or_else _ T) as HT.
    apply String.eqb_neq in HK, HT. rewrite HK, HT. simpl.
    eexists. split; [reflexivity|]. split; reflexivity.
  - pose proof (truthy_or_else _ K) as HK. apply String.eqb_neq in HK.
    rewrite HK, (falsy_or_else _ T). reflexivity.
  - pose proof (truthy_or_else _ T) as HT. apply String.eqb_neq in HT.
    rewrite HT, (falsy_or_else _ K). reflexivity.
  - rewrite (falsy_or_else _ K), (falsy_or_else _ T). reflexivity.
Qed.

Lemma load_legacy_needs_both_credentials_witness :
  env_clickupWorkspaces (mkEnv (Some "pk_legacy") None None [] []) = None /\
  load (mkEnv (Some "pk_legacy") None None [] [])
  = Throw (new_Error
      ("Missing required environment variables: clickupTeamId. " ++
       "Either provide CLICKUP_API_KEY and CLICKUP_TEAM_ID, or CLICKUP_WORKSPACES for multi-workspace support.")).
Proof.
  split; [reflexivity|].
  exact (load_legacy_needs_both_credentials
           (mkEnv (Some "pk_legacy") None None [] []) eq_refl).
Defined.

Lemma check_workspaces_valid entries ws :
  check_workspaces entries = Ok ws ->
  forall k w, In (k, w) ws -> token w <> "" /\ teamId w <> "".
Proof.
  revert ws. induction entries as [|[key raw] entries IH]; intros ws H; simpl in H.
  - injection H as <-. intros k w [].
  - destruct (truthy (raw_token raw)) eqn:T; [|discriminate].
    destruct (truthy (raw_teamId raw)) eqn:I; [|discriminate]. simpl in H.
    destruct (check_workspaces entries) as [ws'|e]; [|discriminate].
    injection H as <-. intros k w [E|Hin].
    + injection E as <- <-. simpl.
      split; now apply truthy_or_else.
    + now apply (IH ws' eq_refl k w).
Qed.

(** X6. In a loaded multi-workspace configuration the default key is not
    empty and every workspace of the map has a non-empty token and a
    non-empty team id. *)
Theorem loaded_workspaces_have_credentials
    (c : Configuration) (cw : ClickUpWorkspacesConfig)
    (Hload : loaded c) (Hcw : clickupWorkspaces c = Some cw) :
  default cw <> "" /\
  forall k w, In (k, w) (workspaces cw) -> token w <> "" /\ teamId w <> "".
Proof.
  split; [exact (loaded_default_truthy c cw Hload Hcw)|].
  destruct Hload as [env H].
  destruct (env_clickupWorkspaces env) as [src|] eqn:Hsrc.
  - destruct (load_multi env src c Hsrc H) as (cw' & P & _ & ->).
    simpl in Hcw. injection Hcw as ->. simpl in P.
    destruct src as [msg|parsed]; [discriminate|]. simpl in P.
    destruct (raw_workspaces parsed) as [entries|]; [|discriminate].
    destruct (truthy (raw_default parsed)); [|discriminate].
    destruct (check_workspaces entries) as [ws|] eqn:C; [|discriminate].
    injection P as <-. simpl. now apply (check_workspaces_valid entries).
  - unfold load in H. rewrite Hsrc in H. simpl in H.
    apply validate_Ok in H. subst c. discriminate.
Qed.

Lemma loaded_workspaces_have_credentials_witness :
  loaded config_multi /\
  "work" <> "" /\
  forall k w,
    In (k, w) [ ("work", mkWorkspaceConfig "pk_work" "9001" (Some "Work account"));
                ("personal", mkWorkspaceConfig "pk_home" "9002" None) ] ->
    token w <> "" /\ teamId w <> "".
Proof.
  split; [exact loaded_config_multi|].
  exact (loaded_workspaces_have_credentials config_multi _
           loaded_config_multi eq_refl).
Defined.




End LoadExtras.

(** ** What a response keeps of its payload *)

Section ResponseExtras.
Import Json JsonLoss Response Bulk.

Lemma prune_VObj (props : list (string * value)) :
  prune (VObj props) = VObj (omap kept props).
Proof.
  simpl. f_equal. induction props as [|[k item] props IH]; [reflexivity|].
  rewrite IH. now destruct item.
Qed.

Lemma plain_VObj (props : list (string * value)) :
  plain (VObj props)
  = canonical (map fst props) && forallb (fun kv => plain (snd kv)) props.
Proof.
  simpl. f_equal. induction props as [|[k item] props IH]; simpl;
    [reflexivity | now rewrite IH].
Qed.

(** The member lines of an object, whatever its values. *)
Lemma SerializeJSONProperty_members (indent : string)
    (props : list (string * value)) :
  SerializeJSONProperty indent (VObj props)
  = Some (let partial :=
            omap (fun kv =>
                    match SerializeJSONProperty (indent ++ gap) (snd kv) with
                    | Some str => Some (QuoteJSONString (fst kv) ++ ": " ++ str)
                    | None => None
                    end) props in
          match partial with
          | [] => "{}"
          | _ => wrap "{" "}" indent (indent ++ gap) partial
          end).
Proof.
  simpl.
  match goal with
  | |- Some (match ?m with _ => _ end) = Some (match ?m' with _ => _ end) =>
      assert (E : m = m')
  end.
  { induction props as [|[k item] props IH]; [reflexivity|]. simpl.
    destruct (SerializeJSONProperty (indent ++ gap) item); now rewrite IH. }
  now rewrite E.
Qed.

Lemma omap_cons_eq {A B : Type} (f : A -> option B) (x : A) (l : list A) :
  omap f (x :: l)
  = match f x with Some y => y :: omap f l | None => omap f l end.
Proof. reflexivity. Qed.

Lemma element_text_undefined (indent : string) :
  element_text indent VUndefined = element_text indent VNull.
Proof. reflexivity. Qed.

(** [JSON.stringify] does not see what [prune] removes. *)
Lemma SerializeJSONProperty_prune (v : value) :
  forall indent,
    SerializeJSONProperty indent (prune v) = SerializeJSONProperty indent v.
Proof.
  induction v as [| |b|n|s|items IH|props IH] using value_ind; intros indent;
    try reflexivity.
  - change (prune (VArr items))
      with (VArr (map (fun item =>
                         match item with
                         | VUndefined => VNull
                         | _ => prune item
                         end) items)).
    rewrite !SerializeJSONProperty_VArr. rewrite map_map.
    erewrite (map_ext_in _ (element_text (indent ++ gap))); [reflexivity|].
    intros item Hin. rewrite List.Forall_forall in IH.
    specialize (IH item Hin (indent ++ gap)). unfold element_text.
    destruct item; try (now rewrite IH); reflexivity.
  - rewrite prune_VObj, !SerializeJSONProperty_members. cbv zeta.
    match goal with
    | |- Some (match ?m with _ => _ end) = Some (match ?m' with _ => _ end) =>
        assert (E : m = m')
    end.
    { induction IH as [|[k item] props Hitem _ IHprops]; [reflexivity|].
      specialize (Hitem (indent ++ gap)).
      change (snd (k, item)) with item in Hitem.
      destruct item;
        [exact IHprops
        |change (omap kept ((k, ?x) :: props))
           with ((k, prune x) :: omap kept props);
         rewrite !omap_cons_eq; cbv beta;
         change (snd (k, ?x)) with x; rewrite Hitem, IHprops;
         reflexivity ..]. }
    now rewrite E.
Qed.

Lemma kept_keys (props : list (string * value)) (y : string) :
  In y (map fst (omap kept props)) -> In y (map fst props).
Proof.
  induction props as [|[k item] props IH]; [intros []|].
  simpl. unfold kept at 1. simpl.
  destruct item; simpl; intros H; try (destruct H as [<-|H]); tauto.
Qed.

Lemma canonical_kept (props : list (string * value)) :
  canonical (map fst props) = true ->
  canonical (map fst (omap kept props)) = true.
Proof.
  induction props as [|[k item] props IH]; [reflexivity|].
  simpl. intros H. apply andb_true_iff in H as [Hall Hc].
  specialize (IH Hc).
  assert (Hk : forallb (ordered k) (map fst (omap kept props)) = true).
  { apply forallb_forall. intros y Hy. rewrite forallb_forall in Hall.
    apply Hall, kept_keys, Hy. }
  destruct item;
    [exact IH
    |change (forallb (ordered k) (map fst (omap kept props))
             && canonical (map fst (omap kept props)) = true);
     now rewrite Hk, IH ..].
Qed.

(** What is left of a value of the model is JSON data. *)
Lemma json_data_prune (v : value) :
  plain v = true -> v <> VUndefined -> json_data (prune v) = true.
Proof.
  induction v as [| |b|n|s|items IH|props IH] using value_ind;
    intros Hplain Hdef; try reflexivity.
  - congruence.
  - exact Hplain.
  - change (plain (VArr items)) with (forallb plain items) in Hplain.
    change (json_data (prune (VArr items)))
      with (forallb json_data
              (map (fun item =>
                      match item with
                      | VUndefined => VNull
                      | _ => prune item
                      end) items)).
    apply forallb_forall. intros x Hx. apply in_map_iff in Hx as (item & <- & Hin).
    rewrite List.Forall_forall in IH. rewrite forallb_forall in Hplain.
    destruct item; try reflexivity;
      apply (IH _ Hin (Hplain _ Hin)); discriminate.
  - rewrite plain_VObj in Hplain. apply andb_true_iff in Hplain as [Hc Hall].
    rewrite prune_VObj, json_data_VObj. apply andb_true_iff. split.
    + now apply canonical_kept.
    + clear Hc Hdef.
      induction IH as [|[k item] props Hitem _ IHprops]; [reflexivity|].
      simpl in Hall. apply andb_true_iff in Hall as [Hp Hall].
      change (snd (k, item)) with item in Hitem, Hp.
      destruct item;
        [exact (IHprops Hall)
        |change (omap kept ((k, ?x) :: props))
           with ((k, prune x) :: omap kept props);
         change (forallb ?f (?x :: ?l)) with (f x && forallb f l);
         rewrite (IHprops Hall), andb_true_r;
         apply (Hitem Hp); discriminate ..].
Qed.

(** What [JSON.parse] makes of the text [JSON.stringify] gives for a value
    of the model. *)
Lemma JSON_stringify_prune (v : value) :
  plain v = true -> v <> VUndefined ->
  exists text, JSON_stringify v = Some text /\ JSON_parse text = Returns (prune v).
Proof.
  intros Hplain Hdef.
  destruct (JSON_parse_stringify (prune v) (json_data_prune v Hplain Hdef))
    as (text & Hs & Hp).
  exists text. split; [|exact Hp].
  unfold JSON_stringify in *. now rewrite SerializeJSONProperty_prune in Hs.
Qed.

(** X8. For every payload of the model that is not a string, not
    [undefined] and has no string-valued [hierarchy], the text of
    [createResponse] is JSON, and [JSON.parse] reads it back as the payload
    without its [undefined] properties (an [undefined] array element comes
    back as [null]). *)
Theorem createResponse_reads_back (data : value)
    (Hplain : plain data = true)
    (Hdefined : data <> VUndefined)
    (Hnot_text : forall s, data <> VStr s)
    (Hhier : preformatted_hierarchy data = None) :
  exists text,
    createResponse data = mkEnvelope [mkContent "text" (Some text)] /\
    JSON_parse text = Returns (prune data).
Proof.
  destruct (JSON_stringify_prune data Hplain Hdefined) as (text & Hs & Hp).
  exists text. split; [|exact Hp].
  unfold createResponse. rewrite Hhier.
  destruct data; try (now rewrite Hs).
  exfalso. now apply (Hnot_text s).
Qed.

Lemma createResponse_reads_back_witness :
  exists text,
    createResponse
      (VObj [ ("message", VStr "Space updated");
              ("archived", VUndefined);
              ("members", VArr [VNum 7; VUndefined]) ])
    = mkEnvelope [mkContent "text" (Some text)] /\
    JSON_parse text
    = Returns (VObj [ ("message", VStr "Space updated");
                      ("members", VArr [VNum 7; VNull]) ]).
Proof.
  apply (createResponse_reads_back
           (VObj [ ("message", VStr "Space updated");
                   ("archived", VUndefined);
                   ("members", VArr [VNum 7; VUndefined]) ]));
    [reflexivity | discriminate | intros s; discriminate | reflexivity].
Defined.

Lemma plain_get_own (props : list (string * value)) (k : string) (v : value) :
  plain (VObj props) = true -> get_own props k = Some v -> plain v = true.
Proof.
  rewrite plain_VObj. intros H. apply andb_true_iff in H as [_ H].
  induction props as [|[k' v'] props IH]; [discriminate|].
  simpl in H. apply andb_true_iff in H as [Hv H]. simpl.
  destruct (String.eqb k k'); [intros [= <-]; exact Hv | now apply IH].
Qed.

Lemma plain_optional_id (item : value) :
  plain item = true -> plain (optional_id item) = true.
Proof.
  destruct item as [| | | | | |props]; try reflexivity.
  intros H. unfold optional_id.
  destruct (get_own props "id") as [v|] eqn:E; [|reflexivity].
  exact (plain_get_own props "id" v H E).
Qed.

Lemma plain_failure_entry (f : Failure) :
  plain (item f) = true -> plain (failure_entry f) = true.
Proof.
  intros H. unfold failure_entry. rewrite plain_VObj.
  apply andb_true_iff. split; [reflexivity|].
  simpl. rewrite andb_true_r.
  destruct (truthy_value (optional_id (item f)));
    [now apply plain_optional_id | exact H].
Qed.

(** X9. [createBulkResponse] never takes the preformatted branch of
    [createResponse]: for totals that are safe integers and failed items
    of the model its text is JSON, and [JSON.parse] reads it back as an
    object with [success: true], the three totals, and one entry per
    failure, in order. *)
Theorem createBulkResponse_reads_back (result : BulkResult)
    (Htotal : safe_integer (total (totals result)) = true)
    (Hsuccess : safe_integer (success (totals result)) = true)
    (Hfailure : safe_integer (failure (totals result)) = true)
    (Hitems : forall f, In f (failed result) -> plain (item f) = true) :
  exists text,
    createBulkResponse result = mkEnvelope [mkContent "text" (Some text)] /\
    JSON_parse text
    = Returns (VObj [ ("success", VBool true);
                      ("total", VNum (total (totals result)));
                      ("successful", VNum (success (totals result)));
                      ("failed", VNum (failure (totals result)));
                      ("failures",
                       VArr (map (fun f => prune (failure_entry f))
                                 (failed result))) ]).
Proof.
  assert (Hplain : plain (bulk_object result) = true).
  { unfold bulk_object. rewrite plain_VObj.
    apply andb_true_iff. split; [reflexivity|].
    simpl. rewrite Htotal, Hsuccess, Hfailure, andb_true_r. simpl.
    apply forallb_forall. intros x Hx.
    apply in_map_iff in Hx as (f & <- & Hin).
    now apply plain_failure_entry, Hitems. }
  destruct (JSON_stringify_prune (bulk_object result) Hplain)
    as (text & Hs & Hp); [discriminate|].
  exists text. split.
  - unfold createBulkResponse, createResponse.
    change (preformatted_hierarchy (bulk_object result)) with (@None string).
    unfold bulk_object in *. now rewrite Hs.
  - rewrite Hp. unfold bulk_object.
    change (prune (VObj ?l)) with
      (VObj [ ("success", VBool true);
              ("total", VNum (total (totals result)));
              ("successful", VNum (success (totals result)));
              ("failed", VNum (failure (totals result)));
              ("failures", prune (VArr (map failure_entry (failed result)))) ]).
    do 6 f_equal.
    change (prune (VArr ?l)) with
      (VArr (map (fun item =>
                    match item with
                    | VUndefined => VNull
                    | _ => prune item
                    end) l)).
    rewrite map_map. reflexivity.
Qed.

Lemma createBulkResponse_reads_back_witness :
  exists text,
    createBulkResponse
      (mkBulkResult (mkTotals 3 1 2)
         [ mkFailure (VObj [("id", VStr "86a1"); ("name", VStr "Draft")])
                     (new_Error "Task not found");
           mkFailure (VStr "86a2") (new_Error "Rate limit exceeded") ])
    = mkEnvelope [mkContent "text" (Some text)] /\
    JSON_parse text
    = Returns (VObj [ ("success", VBool true);
                      ("total", VNum 3);
                      ("successful", VNum 1);
                      ("failed", VNum 2);
                      ("failures",
                       VArr [ VObj [ ("id", VStr "86a1");
                                     ("error", VStr "Task not found") ];
                              VObj [ ("id", VStr "86a2");
                                     ("error", VStr "Rate limit exceeded") ] ]) ]).
Proof.
  apply (createBulkResponse_reads_back
           (mkBulkResult (mkTotals 3 1 2)
              [ mkFailure (VObj [("id", VStr "86a1"); ("name", VStr "Draft")])
                          (new_Error "Task not found");
                mkFailure (VStr "86a2") (new_Error "Rate limit exceeded") ]));
    try reflexivity.
  intros f [<-|[<-|[]]]; reflexivity.
Defined.

End ResponseExtras.

(** ** The comma-separated lists of config.ts *)

Section ListFacts.
Import Lists.

Lemma trimStart_eq (s : string) :
  trimStart s = match white_prefix s with
                | Some rest => trimStart rest
                | None => s
                end.
Proof.
  destruct s as [|a [|b [|c r3]]]; simpl; try reflexivity.
  - now destruct (space1 a).
  - destruct (space1 a); [reflexivity|]. now destruct (space2 a b).
  - destruct (space1 a); [reflexivity|]. destruct (space2 a b); [reflexivity|].
    now destruct (space3 a b c).
Qed.

Lemma white_prefix_length (s rest : string) :
  white_prefix s = Some rest -> String.length rest < String.length s.
Proof.
  destruct s as [|a [|b [|c r3]]]; simpl; try discriminate.
  - destruct (space1 a); [|discriminate]. intros [= <-]. simpl. lia.
  - destruct (space1 a); [intros [= <-]; simpl; lia|].
    destruct (space2 a b); [|discriminate]. intros [= <-]. simpl. lia.
  - destruct (space1 a); [intros [= <-]; simpl; lia|].
    destruct (space2 a b); [intros [= <-]; simpl; lia|].
    destruct (space3 a b c); [|discriminate]. intros [= <-]. simpl. lia.
Qed.

Lemma white_prefix_app (s rest t : string) :
  white_prefix s = Some rest -> white_prefix (s ++ t) = Some (rest ++ t).
Proof.
  destruct s as [|a [|b [|c r3]]]; try discriminate;
    rewrite ?append_cons; simpl.
  - destruct (space1 a); [|discriminate]. now intros [= <-].
  - destruct (space1 a); [now intros [= <-]|].
    destruct (space2 a b); [|discriminate]. now intros [= <-].
  - destruct (space1 a); [now intros [= <-]|].
    destruct (space2 a b); [now intros [= <-]|].
    destruct (space3 a b c); [|discriminate]. now intros [= <-].
Qed.

(** Induction on the length of a string. *)
Lemma string_length_ind (P : string -> Prop) :
  (forall s, (forall t, String.length t < String.length s -> P t) -> P s) ->
  forall s, P s.
Proof.
  intros step s.
  assert (H : forall n t, String.length t < n -> P t).
  { induction n as [|n IH]; intros t Ht; [lia|].
    apply step. intros u Hu. apply IH. lia. }
  apply (H (S (String.length s))). lia.
Qed.

Lemma trimStart_length (s : string) :
  String.length (trimStart s) <= String.length s.
Proof.
  induction s as [s IH] using string_length_ind.
  rewrite trimStart_eq. destruct (white_prefix s) as [rest|] eqn:E; [|lia].
  pose proof (white_prefix_length s rest E). specialize (IH rest H). lia.
Qed.

(** [trimStart] leaves exactly the strings that do not start with white
    space. *)
Lemma trimStart_fixed (s : string) :
  trimStart s = s <-> white_prefix s = None.
Proof.
  split.
  - intros H. destruct (white_prefix s) as [rest|] eqn:E; [|reflexivity].
    pose proof (white_prefix_length s rest E).
    pose proof (trimStart_length rest).
    rewrite trimStart_eq, E in H. rewrite H in *. lia.
  - intros E. now rewrite trimStart_eq, E.
Qed.

Lemma trimStart_idem (s : string) : trimStart (trimStart s) = trimStart s.
Proof.
  induction s as [s IH] using string_length_ind.
  rewrite (trimStart_eq s). destruct (white_prefix s) as [rest|] eqn:E.
  - apply IH, (white_prefix_length s rest E).
  - now apply trimStart_fixed.
Qed.

Lemma blank_app (s t : string) :
  blank s = true -> trimStart (s ++ t) = trimStart t.
Proof.
  unfold blank. induction s as [s IH] using string_length_ind.
  intros H. apply String.eqb_eq in H.
  rewrite trimStart_eq in H. destruct (white_prefix s) as [rest|] eqn:E.
  - rewrite (trimStart_eq (s ++ t)), (white_prefix_app s rest t E).
    apply IH; [apply (white_prefix_length s rest E)|].
    now apply String.eqb_eq.
  - now subst s.
Qed.

Lemma trimEnd_split (s : string) :
  exists w, s = trimEnd s ++ w /\ blank w = true.
Proof.
  induction s as [|c rest (w & E & Hw)].
  - now exists "".
  - simpl trimEnd. destruct (blank (String c rest)) eqn:B.
    + now exists (String c rest).
    + exists w. split; [|exact Hw]. rewrite append_cons. now rewrite <- E.
Qed.

Lemma blank_trimEnd (s : string) : blank (trimEnd s) = blank s.
Proof.
  destruct (trimEnd_split s) as (w & E & Hw).
  destruct (blank (trimEnd s)) eqn:B.
  - symmetry. rewrite E at 1. unfold blank.
    rewrite (blank_app _ w B). exact Hw.
  - destruct (blank s) eqn:B'; [|reflexivity].
    exfalso. clear E w Hw. revert B B'.
    destruct s as [|c rest]; [discriminate|].
    simpl trimEnd. intros B B'. rewrite B' in B. discriminate.
Qed.

Lemma trimEnd_idem (s : string) : trimEnd (trimEnd s) = trimEnd s.
Proof.
  induction s as [|c rest IH]; [reflexivity|].
  simpl trimEnd. destruct (blank (String c rest)) eqn:B; [reflexivity|].
  assert (B' : blank (String c (trimEnd rest)) = false).
  { rewrite <- B. rewrite <- (blank_trimEnd (String c rest)).
    simpl trimEnd. now rewrite B. }
  simpl trimEnd. now rewrite B', IH.
Qed.

Lemma trimStart_trimEnd (s : string) :
  trimStart s = s -> trimStart (trimEnd s) = trimEnd s.
Proof.
  intros H. apply trimStart_fixed in H. apply trimStart_fixed.
  destruct (white_prefix (trimEnd s)) as [rest|] eqn:E; [|reflexivity].
  destruct (trimEnd_split s) as (w & Es & _).
  apply (white_prefix_app _ _ w) in E. rewrite <- Es in E. congruence.
Qed.

Lemma trim_idem (s : string) : trim (trim s) = trim s.
Proof.
  unfold trim.
  rewrite (trimStart_trimEnd (trimStart s) (trimStart_idem s)).
  apply trimEnd_idem.
Qed.

Lemma has_char_cons (c a : ascii) (s : string) :
  has_char c (String a s) <-> a = c \/ has_char c s.
Proof. reflexivity. Qed.

Lemma has_char_trimStart (c : ascii) (s : string) :
  has_char c (trimStart s) -> has_char c s.
Proof.
  induction s as [s IH] using string_length_ind.
  rewrite trimStart_eq. destruct (white_prefix s) as [rest|] eqn:E; [|tauto].
  intros H. apply IH in H; [|apply (white_prefix_length s rest E)].
  clear IH. revert E H.
  destruct s as [|a [|b [|d r3]]]; simpl; try discriminate.
  - destruct (space1 a); [|discriminate]. intros [= <-] [].
  - destruct (space1 a); [intros [= <-]; rewrite !has_char_cons; tauto|].
    destruct (space2 a b); [|discriminate]. intros [= <-] [].
  - destruct (space1 a); [intros [= <-]; rewrite !has_char_cons; tauto|].
    destruct (space2 a b); [intros [= <-]; rewrite !has_char_cons; tauto|].
    destruct (space3 a b d); [|discriminate]. intros [= <-].
    rewrite !has_char_cons; tauto.
Qed.

Lemma has_char_trimEnd (c : ascii) (s : string) :
  has_char c (trimEnd s) -> has_char c s.
Proof.
  induction s as [|a rest IH]; [tauto|].
  simpl trimEnd. destruct (blank (String a rest)); [intros []|].
  rewrite !has_char_cons. tauto.
Qed.

Lemma has_char_trim (c : ascii) (s : string) :
  has_char c (trim s) -> has_char c s.
Proof. intros H. now apply has_char_trimStart, has_char_trimEnd. Qed.

Lemma split_not_nil (sep : ascii) (s : string) : split sep s <> [].
Proof.
  destruct s as [|c rest]; [discriminate|]. simpl.
  destruct (Ascii.eqb c sep); [discriminate|].
  destruct (split sep rest); discriminate.
Qed.

(** No piece of a split holds the separator. *)
Lemma split_pieces (sep : ascii) (s x : string) :
  In x (split sep s) -> ~ has_char sep x.
Proof.
  revert x. induction s as [|c rest IH]; intros x.
  - intros [<-|[]] [].
  - simpl. destruct (Ascii.eqb c sep) eqn:E.
    + intros [<-|H]; [intros []|now apply IH].
    + destruct (split sep rest) as [|piece pieces] eqn:S.
      * now destruct (split_not_nil sep rest).
      * intros [<-|H].
        -- rewrite has_char_cons. intros [->|H].
           ++ now rewrite Ascii.eqb_refl in E.
           ++ apply (IH piece); [now left | exact H].
        -- apply IH. now right.
Qed.

Lemma split_one (sep : ascii) (x : string) :
  ~ has_char sep x -> split sep x = [x].
Proof.
  induction x as [|c x IH]; [reflexivity|].
  rewrite has_char_cons. intros H. simpl.
  destruct (Ascii.eqb c sep) eqn:E.
  - apply Ascii.eqb_eq in E. tauto.
  - rewrite IH; [reflexivity | tauto].
Qed.

Lemma split_app (sep : ascii) (x rest : string) :
  ~ has_char sep x ->
  split sep (x ++ String sep rest) = x :: split sep rest.
Proof.
  induction x as [|c x IH].
  - intros _. change ("" ++ String sep rest) with (String sep rest).
    simpl. now rewrite Ascii.eqb_refl.
  - rewrite has_char_cons. intros H. rewrite append_cons. simpl.
    destruct (Ascii.eqb c sep) eqn:E.
    + apply Ascii.eqb_eq in E. tauto.
    + rewrite IH; [reflexivity | tauto].
Qed.

Lemma split_join (sep : ascii) (x : string) (xs : list string) :
  (forall y, In y (x :: xs) -> ~ has_char sep y) ->
  split sep (join (String sep "") (x :: xs)) = x :: xs.
Proof.
  revert x. induction xs as [|x' xs IH]; intros x H.
  - simpl. apply split_one, H. now left.
  - change (join (String sep "") (x :: x' :: xs))
      with (x ++ String sep "" ++ join (String sep "") (x' :: xs)).
    change (String sep "" ++ ?t) with (String sep t).
    rewrite split_app; [|apply H; now left].
    f_equal. apply IH. intros y Hy. apply H. now right.
Qed.

(** X10. Whatever the setting, the tool lists hold only names that are not
    empty, have no white space at either end and contain no comma. *)
Theorem tool_list_clean (value : option string) (x : string)
    (Hin : In x (tool_list value)) :
  x <> "" /\ trim x = x /\ ~ has_char ","%char x.
Proof.
  destruct value as [s|]; [|destruct Hin].
  unfold tool_list, parse_list in Hin.
  apply filter_In in Hin as [Hin Hne].
  apply in_map_iff in Hin as (piece & <- & Hpiece).
  split; [|split].
  - intros E. rewrite E in Hne. discriminate.
  - apply trim_idem.
  - intros H. apply has_char_trim in H.
    exact (split_pieces _ _ _ Hpiece H).
Qed.

Lemma tool_list_clean_witness :
  tool_list (Some " get_task , create_task,, ") = ["get_task"; "create_task"] /\
  "create_task" <> "" /\ trim "create_task" = "create_task" /\
  ~ has_char ","%char "create_task".
Proof.
  split; [reflexivity|].
  apply (tool_list_clean (Some " get_task , create_task,, ") "create_task").
  right. left. reflexivity.
Defined.

Lemma parse_list_join (names : list string) :
  (forall x, In x names -> clean x) ->
  parse_list (join "," names) = names.
Proof.
  intros H. destruct names as [|x xs]; [reflexivity|].
  unfold parse_list.
  rewrite (split_join ","%char x xs); [|intros y Hy; apply (H y Hy)].
  assert (Hmap : map trim (x :: xs) = x :: xs).
  { rewrite <- (map_id (x :: xs)) at 2. apply map_ext_in.
    intros y Hy. apply (H y Hy). }
  rewrite Hmap. apply forallb_filter_id. apply forallb_forall.
  intros y Hy. destruct (H y Hy) as (Hne & _).
  destruct (String.eqb y "") eqn:E; [|reflexivity].
  apply String.eqb_eq in E. contradiction.
Qed.

(** X11. A list of names written with commas between them is read back as
    it is: for names that are not empty, have no white space at either end
    and contain no comma, the tool lists of the joined text are the names,
    and so is the origin list unless there is no name at all, which gives
    the default. *)
Theorem lists_read_back (names defaultValue : list string)
    (Hclean : forall x, In x names -> clean x) :
  tool_list (Some (join "," names)) = names /\
  parseOrigins (Some (join "," names)) defaultValue
  = match names with [] => defaultValue | _ => names end.
Proof.
  split; [now apply parse_list_join|].
  unfold parseOrigins, truthy.
  destruct names as [|x xs]; [reflexivity|].
  assert (Hne : String.eqb (join "," (x :: xs)) "" = false).
  { destruct (Hclean x (or_introl eq_refl)) as (Hx & _).
    destruct x as [|c x]; [contradiction|].
    destruct xs; reflexivity. }
  rewrite Hne. now apply parse_list_join.
Qed.

Lemma lists_read_back_witness :
  tool_list (Some (join "," ["get_task"; "create_task"]))
  = ["get_task"; "create_task"] /\
  parseOrigins (Some (join "," ["get_task"; "create_task"])) []
  = ["get_task"; "create_task"].
Proof.
  apply (lists_read_back ["get_task"; "create_task"] []).
  intros x [<-|[<-|[]]]; (split; [discriminate|split; [reflexivity|]]);
    unfold has_char; simpl; intros H;
    repeat (destruct H as [H|H]; [discriminate H|]); exact H.
Defined.

End ListFacts.

(** ** The command line of config.ts *)

Section ArgsFacts.
Import Lists Args.

Lemma key_value_free (arg : string) (key : option string) (v : string) :
  key_value arg = (key, Some v) -> ~ has_char "="%char v.
Proof.
  unfold key_value.
  destruct (split "="%char arg) as [|k [|value rest]] eqn:E; try discriminate.
  intros [= _ <-]. apply (split_pieces "="%char arg).
  rewrite E. right. now left.
Qed.

Lemma assign_env_inv (key value : option string) (envArgs : EnvArgs) :
  (forall v, value = Some v -> ~ has_char "="%char v) ->
  args_inv envArgs -> args_inv (assign_env key value envArgs).
Proof.
  intros Hvalue. unfold assign_env, env_properties.
  assert (G : forall entries acc,
             (forall e, In e entries -> In (snd e) env_properties) ->
             args_inv acc ->
             args_inv (fold_left
                         (fun acc entry =>
                            if strict_eq key (fst entry)
                            then <[snd entry := value]> acc
                            else acc) entries acc)).
  { induction entries as [|entry entries IH]; intros acc Hin Hacc;
      [exact Hacc|].
    simpl. apply IH; [intros e He; apply Hin; now right|].
    destruct (strict_eq key (fst entry)); [|exact Hacc].
    intros property value' Hlook.
    destruct (decide (snd entry = property)) as [<-|Hne].
    - rewrite lookup_insert_eq in Hlook. injection Hlook as <-.
      split; [apply Hin; now left | exact Hvalue].
    - rewrite lookup_insert_ne in Hlook by exact Hne. now apply Hacc. }
  apply G. intros e He. now apply in_map.
Qed.

Lemma parse_args_inv (args : list string) :
  forall envArgs, args_inv envArgs -> args_inv (parse_args args envArgs).
Proof.
  assert (H : forall n args, length args <= n ->
              forall envArgs, args_inv envArgs ->
                              args_inv (parse_args args envArgs)).
  { induction n as [|n IH]; intros [|arg [|next rest]] Hlen envArgs Hinv;
      simpl in *; try exact Hinv; try lia.
    destruct (String.eqb arg "--env").
    - destruct (key_value next) as [key value] eqn:E.
      apply IH; [lia|]. apply assign_env_inv; [|exact Hinv].
      intros v ->. exact (key_value_free next key v E).
    - apply (IH (next :: rest)); [simpl; lia | exact Hinv]. }
  apply (H (length args)). lia.
Qed.

(** X12. Whatever the command line, [envArgs] holds values only under the
    eleven properties of the loop, and no value it holds contains ['=']:
    the text after a second ['='] of an argument is dropped. *)
Theorem parse_args_values (args : list string) (property v : string)
    (Hread : read (parse_args args ∅) property = Some v) :
  In property env_properties /\ ~ has_char "="%char v.
Proof.
  assert (Hinv : args_inv (parse_args args ∅)).
  { apply parse_args_inv. intros p value Hlook.
    rewrite lookup_empty in Hlook. discriminate. }
  unfold read in Hread.
  destruct (parse_args args ∅ !! property) as [value|] eqn:E; [|discriminate].
  destruct (Hinv property value E) as [Hin Hfree].
  split; [exact Hin | now apply Hfree].
Qed.

Lemma parse_args_values_witness :
  read (parse_args ["--env"; "CLICKUP_API_KEY=pk_81=="; "--verbose"] ∅)
       "clickupApiKey" = Some "pk_81" /\
  In "clickupApiKey" env_properties /\ ~ has_char "="%char "pk_81".
Proof.
  split; [reflexivity|].
  apply (parse_args_values ["--env"; "CLICKUP_API_KEY=pk_81=="; "--verbose"]
           "clickupApiKey" "pk_81").
  reflexivity.
Defined.

Lemma env_keys_free (name property : string) :
  In (name, property) env_keys -> ~ has_char "="%char name.
Proof.
  intros H.
  repeat (destruct H as [[= <- <-]|H];
          [unfold has_char; simpl; intros G;
           repeat (destruct G as [G|G]; [discriminate G|]); exact G|]).
  destruct H.
Qed.

Lemma assign_env_read (name property : string) (value : option string) :
  In (name, property) env_keys ->
  read (assign_env (Some name) value ∅) property = value.
Proof.
  intros H.
  repeat (destruct H as [[= <- <-]|H]; [reflexivity|]).
  destruct H.
Qed.

Lemma key_value_pair (name v : string) :
  ~ has_char "="%char name -> ~ has_char "="%char v ->
  key_value (name ++ "=" ++ v) = (Some name, Some v).
Proof.
  intros Hname Hv. unfold key_value.
  change (name ++ "=" ++ v) with (name ++ String "="%char v).
  now rewrite (split_app _ _ _ Hname), (split_one _ _ Hv).
Qed.

Lemma key_value_more (name v rest : string) :
  ~ has_char "="%char name -> ~ has_char "="%char v ->
  key_value (name ++ "=" ++ v ++ "=" ++ rest) = (Some name, Some v).
Proof.
  intros Hname Hv. unfold key_value.
  change (name ++ "=" ++ v ++ "=" ++ rest)
    with (name ++ String "="%char (v ++ String "="%char rest)).
  now rewrite (split_app _ _ _ Hname), (split_app _ _ _ Hv).
Qed.

Lemma parse_args_pair (name property v : string) :
  In (name, property) env_keys -> ~ has_char "="%char v ->
  read (parse_args ["--env"; name ++ "=" ++ v] ∅) property = Some v.
Proof.
  intros Hkey Hfree. simpl.
  rewrite (key_value_pair name v (env_keys_free name property Hkey) Hfree).
  now apply assign_env_read.
Qed.

(** X13. An argument [NAME=value] after [--env], for one of the eleven
    names, stores the value under the name's property when the value has
    no ['=']; what follows a second ['='] is dropped; and an argument that
    is the bare name stores [undefined]. *)
Theorem env_arg_recorded (name property v : string)
    (Hkey : In (name, property) env_keys)
    (Hfree : ~ has_char "="%char v) :
  read (parse_args ["--env"; name ++ "=" ++ v] ∅) property = Some v /\
  (forall rest,
     read (parse_args ["--env"; name ++ "=" ++ v ++ "=" ++ rest] ∅) property
     = Some v) /\
  read (parse_args ["--env"; name] ∅) property = None.
Proof.
  pose proof (env_keys_free name property Hkey) as Hname.
  split; [|split].
  - now apply parse_args_pair.
  - intros rest. simpl. rewrite (key_value_more name v rest Hname Hfree).
    now apply assign_env_read.
  - simpl. unfold key_value. rewrite (split_one _ _ Hname).
    now apply assign_env_read.
Qed.

Lemma env_arg_recorded_witness :
  read (parse_args ["--env"; "CLICKUP_TEAM_ID" ++ "=" ++ "9001"] ∅)
       "clickupTeamId" = Some "9001" /\
  (forall rest,
     read (parse_args ["--env"; "CLICKUP_TEAM_ID" ++ "=" ++ "9001" ++ "=" ++ rest] ∅)
          "clickupTeamId" = Some "9001") /\
  read (parse_args ["--env"; "CLICKUP_TEAM_ID"] ∅) "clickupTeamId" = None.
Proof.
  apply (env_arg_recorded "CLICKUP_TEAM_ID" "clickupTeamId" "9001").
  - right. left. reflexivity.
  - unfold has_char. simpl. intros G.
    repeat (destruct G as [G|G]; [discriminate G|]). exact G.
Defined.

Lemma has_char_app (c : ascii) (s t : string) :
  has_char c (s ++ t) <-> has_char c s \/ has_char c t.
Proof.
  induction s as [|a s IH].
  - change ("" ++ t) with t. unfold has_char at 2. simpl. tauto.
  - rewrite append_cons, !has_char_cons, IH. tauto.
Qed.

Lemma has_char_join (c : ascii) (sep : string) (xs : list string) :
  has_char c (join sep xs) ->
  has_char c sep \/ exists x, In x xs /\ has_char c x.
Proof.
  induction xs as [|x xs IH]; [intros []|].
  destruct xs as [|x' xs].
  - intros H. right. exists x. split; [now left | exact H].
  - change (join sep (x :: x' :: xs)) with (x ++ sep ++ join sep (x' :: xs)).
    rewrite !has_char_app. intros [H|[H|H]].
    + right. exists x. split; [now left | exact H].
    + now left.
    + destruct (IH H) as [G|(y & Hy & G)]; [now left|].
      right. exists y. split; [now right | exact G].
Qed.

(** X14. A tool list given on the command line is the list of the
    configuration, whatever the environment holds: for one name or more,
    each not empty, without white space at either end and without [','] or
    ['='], [--env ENABLED_TOOLS=a,b,...] makes [enabledTools] those names,
    and likewise for [DISABLED_TOOLS]. *)
Theorem command_line_tool_lists (names : list string)
    (process_env : gmap string string)
    (Hnames : names <> [])
    (Hclean : forall x, In x names -> clean x /\ ~ has_char "="%char x) :
  enabledTools_of
    (parse_args ["--env"; "ENABLED_TOOLS" ++ "=" ++ join "," names] ∅)
    process_env = names /\
  disabledTools_of
    (parse_args ["--env"; "DISABLED_TOOLS" ++ "=" ++ join "," names] ∅)
    process_env = names.
Proof.
  assert (Hfree : ~ has_char "="%char (join "," names)).
  { intros H. apply has_char_join in H as [H|(x & Hx & H)].
    - unfold has_char in H. simpl in H. destruct H as [H|[]]. discriminate H.
    - now apply (Hclean x Hx). }
  assert (Htruthy : truthy (Some (join "," names)) = true).
  { destruct names as [|x xs]; [contradiction|].
    destruct (Hclean x (or_introl eq_refl)) as ((Hx & _) & _).
    destruct x as [|c x]; [contradiction|]. destruct xs; reflexivity. }
  assert (Hlist : tool_list (Some (join "," names)) = names).
  { apply parse_list_join. intros x Hx. now apply Hclean. }
  split.
  - unfold enabledTools_of, or_setting.
    rewrite (parse_args_pair "ENABLED_TOOLS" "enabledTools" (join "," names));
      [now rewrite Htruthy | do 6 right; left; reflexivity | exact Hfree].
  - unfold disabledTools_of, or_setting.
    rewrite (parse_args_pair "DISABLED_TOOLS" "disabledTools" (join "," names));
      [now rewrite Htruthy, Htruthy | do 5 right; left; reflexivity
      | exact Hfree].
Qed.

Lemma command_line_tool_lists_witness :
  enabledTools_of
    (parse_args ["--env"; "ENABLED_TOOLS" ++ "=" ++ join "," ["get_task"; "get_list"]] ∅)
    {[ "ENABLED_TOOLS" := "create_task" ]} = ["get_task"; "get_list"] /\
  disabledTools_of
    (parse_args ["--env"; "DISABLED_TOOLS" ++ "=" ++ join "," ["get_task"; "get_list"]] ∅)
    {[ "ENABLED_TOOLS" := "create_task" ]} = ["get_task"; "get_list"].
Proof.
  apply (command_line_tool_lists ["get_task"; "get_list"]
           {[ "ENABLED_TOOLS" := "create_task" ]}); [discriminate|].
  intros x [<-|[<-|[]]];
    (split; [split; [discriminate|split; [reflexivity|]]|]);
    unfold has_char; simpl; intros G;
    repeat (destruct G as [G|G]; [discriminate G|]); exact G.
Defined.

End ArgsFacts.

(** ** The discovery tool *)

Section WorkspaceToolFacts.
Import Config Json JsonLoss Response WorkspaceTools Examples.

Lemma map_result_Ok {A B : Type} (f : A -> result B) (xs : list A) :
  (forall x, In x xs -> exists y, f x = Ok y) ->
  exists ys, map_result f xs = Ok ys /\ Forall2 (fun x y => f x = Ok y) xs ys.
Proof.
  induction xs as [|x xs IH]; intros H.
  - exists []. split; [reflexivity | constructor].
  - destruct (H x (or_introl eq_refl)) as [y Hy].
    destruct IH as (ys & E & F); [intros z Hz; apply H; now right|].
    exists (y :: ys). simpl. rewrite Hy, E. split; [reflexivity|].
    now constructor.
Qed.

Lemma map_result_all {A B : Type} (f : A -> result B) (Q : A -> B -> Prop)
    (xs : list A) (ys : list B) :
  (forall x y, f x = Ok y -> Q x y) ->
  Forall2 (fun x y => f x = Ok y) xs ys -> Forall2 Q xs ys.
Proof.
  intros H F. induction F as [|x y xs ys Hxy _ IH]; constructor;
    [now apply H | exact IH].
Qed.

Lemma Forall2_right {A B : Type} (Q : B -> Prop) (xs : list A) (ys : list B) :
  Forall2 (fun _ y => Q y) xs ys -> Forall Q ys.
Proof. intros F. induction F; constructor; assumption. Qed.

Lemma workspace_info_plain (c : Configuration) (d id : string) (e : value) :
  workspace_info c d id = Ok e -> plain e = true /\ e <> VUndefined.
Proof.
  unfold workspace_info.
  destruct (getWorkspaceConfig c (Some id)) as [config|]; [|discriminate].
  intros [= <-]. split; [|discriminate].
  destruct (pv_teamId config), (truthy (pv_description config)),
    (pv_description config), (String.eqb id "default"); reflexivity.
Qed.

Lemma workspace_info_describes (c : Configuration) (id : string) (e : value) :
  workspace_info c (getDefaultWorkspace c) id = Ok e ->
  describes c id (prune e).
Proof.
  unfold workspace_info, describes.
  destruct (getWorkspaceConfig c (Some id)) as [config|]; [|discriminate].
  intros [= <-]. rewrite prune_VObj. eexists _, config.
  split; [reflexivity|]. split; [reflexivity|].
  destruct (pv_teamId config), (truthy (pv_description config)),
    (pv_description config), (String.eqb id "default");
    (repeat split; try reflexivity; simpl; tauto).
Qed.

(** X15. After a successful load [handleGetAvailableWorkspaces] never
    answers with an error: its text is JSON that reads back as
    [{default, workspaces, count}], where [count] is the number of
    configured keys and [workspaces] has one entry per configured key, in
    the order of [getAvailableWorkspaces]; each entry gives the key, the
    team id of the configuration that key resolves to and whether the key
    is the default, and no entry has a [token] property. *)
Theorem handleGetAvailableWorkspaces_lists_all (c : Configuration)
    (Hload : loaded c)
    (Hcount : (Z.of_nat (length (getAvailableWorkspaces c))
               <= 9007199254740991)%Z) :
  exists text entries,
    handleGetAvailableWorkspaces c = mkEnvelope [mkContent "text" (Some text)] /\
    JSON_parse text
    = Returns (VObj [ ("default", VStr (getDefaultWorkspace c));
                      ("workspaces", VArr entries);
                      ("count",
                       VNum (Z.of_nat (length (getAvailableWorkspaces c)))) ]) /\
    Forall2 (describes c) (getAvailableWorkspaces c) entries.
Proof.
  destruct (map_result_Ok (workspace_info c (getDefaultWorkspace c))
              (getAvailableWorkspaces c)) as (infos & Hmap & Hall).
  { intros id Hin. destruct (configured_resolves c id Hload Hin) as [v Hv].
    unfold workspace_info. rewrite Hv. eauto. }
  pose proof (Forall2_length _ _ _ Hall) as Hlen.
  set (result := VObj [ ("default", VStr (getDefaultWorkspace c));
                        ("workspaces", VArr infos);
                        ("count", VNum (Z.of_nat (length infos))) ]).
  assert (Hinfos : Forall (fun e => plain e = true /\ e <> VUndefined) infos).
  { apply (Forall2_right _ (getAvailableWorkspaces c)).
    apply (map_result_all _ _ _ _ (workspace_info_plain c _) Hall). }
  assert (Hplain : plain result = true).
  { unfold result. rewrite plain_VObj. apply andb_true_iff.
    split; [reflexivity|]. simpl. rewrite andb_true_r.
    apply andb_true_iff. split.
    - apply forallb_forall. intros e He.
      rewrite List.Forall_forall in Hinfos. now apply Hinfos.
    - unfold safe_integer. rewrite <- Hlen. apply Z.leb_le. lia. }
  destruct (JSON_stringify_prune result Hplain) as (text & Hs & Hp);
    [discriminate|].
  exists text, (map prune infos). split; [|split].
  - unfold handleGetAvailableWorkspaces. rewrite Hmap.
    fold result. unfold createResponse.
    change (preformatted_hierarchy result) with (@None string).
    unfold result in *. now rewrite Hs.
  - assert (Hentries : map (fun item => match item with
                                       | VUndefined => VNull
                                       | _ => prune item
                                       end) infos = map prune infos).
    { apply map_ext_in. intros e He.
      rewrite List.Forall_forall in Hinfos. destruct (Hinfos e He) as [_ Hd].
      now destruct e. }
    rewrite Hp. unfold result. rewrite prune_VObj. simpl.
    now rewrite Hentries, Hlen.
  - apply Forall2_fmap_r.
    apply (map_result_all _ _ _ _ (workspace_info_describes c) Hall).
Qed.

Lemma handleGetAvailableWorkspaces_lists_all_witness :
  loaded config_multi /\
  exists text entries,
    handleGetAvailableWorkspaces config_multi
    = mkEnvelope [mkContent "text" (Some text)] /\
    JSON_parse text
    = Returns (VObj [ ("default", VStr (getDefaultWorkspace config_multi));
                      ("workspaces", VArr entries);
                      ("count",
                       VNum (Z.of_nat
                               (length (getAvailableWorkspaces config_multi)))) ]) /\
    Forall2 (describes config_multi) (getAvailableWorkspaces config_multi)
            entries.
Proof.
  split; [exact loaded_config_multi|].
  apply (handleGetAvailableWorkspaces_lists_all config_multi
           loaded_config_multi).
  simpl. lia.
Defined.

End WorkspaceToolFacts.

(** ** The dependency and link handlers *)

(** Case analysis on the checks of a handler. *)
Ltac handler_cases :=
  repeat match goal with
         | |- context [truthy ?v] =>
             let T := fresh "T" in destruct (truthy v) eqn:T; simpl
         end.

Section HandlerFacts.
Import Config Shared Helper Tenancy Json JsonLoss Response Remote.
Import DependencyTools Examples.

Variable configuration : Configuration.
Variable taskService : list Request -> Request -> result value.


(** An error reply without context reads back as [{error: message}]. *)
Lemma createErrorResponse_reply (message : string) :
  exists text,
    createErrorResponse (inr message) None
    = mkEnvelope [mkContent "text" (Some text)] /\
    JSON_parse text = Returns (VObj [("error", VStr message)]).
Proof.
  destruct (JSON_parse_stringify (VObj [("error", VStr message)]) eq_refl)
    as (text & Hs & Hp).
  exists text. split; [|exact Hp].
  unfold createErrorResponse, createResponse.
  change (preformatted_hierarchy _) with (@None string).
  change (error_object (error_message (inr message)) None)
    with [("error", VStr message)].
  now rewrite Hs.
Qed.

Lemma reachable_step (sel : option string) (st : Registry) :
  reachable configuration st ->
  reachable configuration (snd (getClickUpServices configuration sel st)).
Proof.
  intros [calls ->]. exists (calls ++ [sel])%list.
  now rewrite run_calls_app.
Qed.

(** The helper in a reachable state: it serves a selector that resolves
    from the cache of its workspace, and otherwise throws with the state
    untouched. *)
Lemma getServicesForWorkspace_run (sel : option string) (st : Registry) :
  reachable configuration st ->
  match getWorkspaceConfig configuration sel with
  | Ok _ =>
      exists services st',
        getServicesForWorkspace configuration sel st = (Ok services, st') /\
        workspaceServicesMap st' !! resolved_key configuration sel
        = Some services /\
        bound_to configuration (resolved_key configuration sel) services /\
        reachable configuration st'
  | Throw e =>
      getServicesForWorkspace configuration sel st
      = (Throw (new_Error (err_message e ++ newline ++
                           "Available workspaces: " ++
                           join ", " (getAvailableWorkspaces configuration))),
         st)
  end.
Proof.
  intros Hreach.
  destruct (getWorkspaceConfig configuration sel) as [v|e] eqn:G.
  - destruct (getClickUpServices_total configuration sel st v G)
      as (services & st' & H).
    exists services, st'. unfold getServicesForWorkspace, try_catch.
    rewrite H. split; [reflexivity|].
    pose proof (getClickUpServices_Ok_cached configuration _ _ _ _ H) as Hc.
    split; [exact Hc|].
    pose proof (reachable_step sel st Hreach) as Hr. rewrite H in Hr.
    split; [|exact Hr].
    exact (reachable_credentials configuration st' Hr _ _ Hc).
  - unfold getServicesForWorkspace, try_catch.
    rewrite (getClickUpServices_unknown configuration sel st e); [reflexivity| |exact G].
    apply (unresolved_not_cached configuration st _ e);
      [now apply reachable_inv|].
    now rewrite getWorkspaceConfig_resolved.
Qed.


Ltac handler_run H :=
  unfold wtry, wbind, on_registry, await, wret;
  match goal with
  | Hreach : reachable _ (registry ?w) |- context [getServicesForWorkspace ?c ?sel _] =>
      pose proof (getServicesForWorkspace_run sel (registry w) Hreach) as H
  end.

(** X17. Which calls the four handlers make.  From a reachable registry,
    a handler whose parameters pass its checks and whose workspace
    selector resolves makes exactly one call, the one for its tool, on the
    services object cached for the selector's workspace, and that object
    carries the credentials of that workspace.  In every other case the
    handler leaves the registry and the record of calls as they were. *)
Theorem dependency_handlers_routed
    (params : DependencyParams) (lparams : LinkParams) (w : World)
    (Hreach : reachable configuration (registry w)) :
  routed configuration (dependency_params_ok params) (workspace params)
    (AddDependency (task_id params) (depends_on params) (dependency_of params))
    w (snd (handleAddDependency configuration taskService params w)) /\
  routed configuration (dependency_params_ok params) (workspace params)
    (DeleteDependency (task_id params) (depends_on params)
                      (dependency_of params))
    w (snd (handleDeleteDependency configuration taskService params w)) /\
  routed configuration (link_params_ok lparams) (link_workspace lparams)
    (AddTaskLink (link_task_id lparams) (links_to lparams))
    w (snd (handleAddTaskLink configuration taskService lparams w)) /\
  routed configuration (link_params_ok lparams) (link_workspace lparams)
    (DeleteTaskLink (link_task_id lparams) (links_to lparams))
    w (snd (handleDeleteTaskLink configuration taskService lparams w)).
Proof.
  unfold handleAddDependency, handleDeleteDependency, handleAddTaskLink,
    handleDeleteTaskLink, routed, dependency_params_ok, link_params_ok.
  repeat split;
    handler_cases; try reflexivity;
    (let H := fresh "H" in
     handler_run H;
     match type of H with
     | match ?g with _ => _ end => destruct g as [v|e]
     end; simpl;
     [destruct H as (services & st' & -> & Hc & Hb & Hr); simpl;
      exists services;
      match goal with
      | |- context [taskService ?log ?r] => destruct (taskService log r)
      end; simpl; now repeat split
     |rewrite H; simpl; now destruct w]).
Qed.

(** X18. A selector that does not resolve costs no call: from a reachable
    registry, each handler whose parameters pass its checks answers such a
    selector without touching the registry or calling the service, and its
    text reads back as [{error: ...}] with the handler's prefix, the
    message of the lookup and the list of available workspaces. *)
Theorem dependency_handlers_unknown_workspace
    (params : DependencyParams) (lparams : LinkParams) (w : World)
    (e e' : JsError)
    (Hreach : reachable configuration (registry w))
    (Hok : dependency_params_ok params = true)
    (Hunknown : getWorkspaceConfig configuration (workspace params) = Throw e)
    (Hlok : link_params_ok lparams = true)
    (Hlunknown : getWorkspaceConfig configuration (link_workspace lparams)
                 = Throw e') :
  refuses (handleAddDependency configuration taskService params w) w
    ("Error adding dependency: " ++ unavailable configuration e) /\
  refuses (handleDeleteDependency configuration taskService params w) w
    ("Error removing dependency: " ++ unavailable configuration e) /\
  refuses (handleAddTaskLink configuration taskService lparams w) w
    ("Error adding task link: " ++ unavailable configuration e') /\
  refuses (handleDeleteTaskLink configuration taskService lparams w) w
    ("Error removing task link: " ++ unavailable configuration e').
Proof.
  unfold dependency_params_ok, link_params_ok in *.
  apply andb_true_iff in Hok as [Htask Htarget].
  apply andb_true_iff in Hlok as [Hltask Hlto].
  unfold handleAddDependency, handleDeleteDependency, handleAddTaskLink,
    handleDeleteTaskLink, refuses, unavailable.
  rewrite Htask, Hltask, Hlto. simpl negb. cbv iota.
  assert (Hboth : negb (truthy (depends_on params)) &&
                  negb (truthy (dependency_of params)) = false).
  { destruct (truthy (depends_on params)), (truthy (dependency_of params));
      try reflexivity; discriminate. }
  rewrite Hboth.
  repeat split;
    (let H := fresh "H" in
     handler_run H;
     first [rewrite Hunknown in H | rewrite Hlunknown in H];
     rewrite H; simpl;
     match goal with
     | |- context [createErrorResponse (inr ?m) None] =>
         destruct (createErrorResponse_reply m) as (text & -> & Hp)
     end;
     exists text; split; [now destruct w | exact Hp]).
Qed.

(** X19. What [handleAddDependency] answers once its parameters pass the
    checks and the selector resolves, for a service that resolves with
    values of the model: when the call is rejected, the text reads back as
    [{error: ...}] with the message of the rejection after the handler's
    prefix; when it resolves, as [{message, dependency}] with the sentence
    for the direction asked and the data of the service, the [dependency]
    member being left out when the service gave [undefined]. *)
Theorem handleAddDependency_reply
    (params : DependencyParams) (w : World) (v : PropertyValue)
    (Hreach : reachable configuration (registry w))
    (Hok : dependency_params_ok params = true)
    (Hresolves : getWorkspaceConfig configuration (workspace params) = Ok v)
    (Hdata : forall log r x, taskService log r = Ok x -> plain x = true) :
  exists services text w',
    handleAddDependency configuration taskService params w
    = (Ok (mkEnvelope [mkContent "text" (Some text)]), w') /\
    JSON_parse text
    = Returns
        match taskService (requests w)
                (mkRequest services
                   (AddDependency (task_id params) (depends_on params)
                                  (dependency_of params))) with
        | Throw error =>
            VObj [("error",
                   VStr ("Error adding dependency: " ++ err_message error))]
        | Ok dependency =>
            VObj (("message",
                   VStr ("Dependency added successfully. " ++
                         if truthy (depends_on params)
                         then "Task " ++ template (task_id params) ++
                              " now depends on task " ++
                              template (depends_on params)
                         else "Task " ++ template (dependency_of params) ++
                              " now depends on task " ++
                              template (task_id params)))
                  :: match dependency with
                     | VUndefined => []
                     | _ => [("dependency", prune dependency)]
                     end)
        end.
Proof.
  unfold dependency_params_ok in Hok.
  apply andb_true_iff in Hok as [Htask Htarget].
  assert (Hboth : negb (truthy (depends_on params)) &&
                  negb (truthy (dependency_of params)) = false).
  { destruct (truthy (depends_on params)), (truthy (dependency_of params));
      try reflexivity; discriminate. }
  unfold handleAddDependency. rewrite Htask, Hboth. simpl negb. cbv iota.
  handler_run H. rewrite Hresolves in H.
  destruct H as (services & st' & -> & _). simpl.
  exists services.
  destruct (taskService (requests w) _) as [dependency|error] eqn:E; simpl.
  - set (message := VStr _).
    assert (Hplain : plain (VObj [("message", message);
                                  ("dependency", dependency)]) = true).
    { rewrite plain_VObj. apply andb_true_iff. split; [reflexivity|].
      simpl. now rewrite (Hdata _ _ _ E). }
    destruct (JSON_stringify_prune _ Hplain) as (text & Hs & Hp);
      [discriminate|].
    exists text. eexists. split.
    + unfold createResponse.
      change (preformatted_hierarchy _) with (@None string).
      now rewrite Hs.
    + rewrite Hp, prune_VObj. now destruct dependency.
  - destruct (createErrorResponse_reply
                ("Error adding dependency: " ++ err_message error))
      as (text & -> & Hp).
    exists text. eexists. split; [reflexivity | exact Hp].
Qed.

End HandlerFacts.

Section HandlerWitnesses.
Import Config Shared Helper Tenancy Json JsonLoss Response Remote.
Import DependencyTools Examples.

Lemma reachable_empty (configuration : Configuration) :
  reachable configuration empty_registry.
Proof. now exists []. Qed.

Lemma dependency_handlers_routed_witness :
  routed config_multi true (Some "personal")
    (AddDependency (Some "86a1") (Some "86a2") None)
    sample_world
    (snd (handleAddDependency config_multi sample_taskService
            (mkDependencyParams (Some "86a1") (Some "86a2") None
                                (Some "personal"))
            sample_world)) /\
  routed config_multi false None
    (AddTaskLink (Some "86a1") None)
    sample_world
    (snd (handleAddTaskLink config_multi sample_taskService
            (mkLinkParams (Some "86a1") None None) sample_world)).
Proof.
  destruct (dependency_handlers_routed config_multi sample_taskService
              (mkDependencyParams (Some "86a1") (Some "86a2") None
                                  (Some "personal"))
              (mkLinkParams (Some "86a1") None None) sample_world
              (reachable_empty config_multi)) as (H1 & _ & H3 & _).
  split; [exact H1 | exact H3].
Defined.

Lemma dependency_handlers_unknown_workspace_witness :
  refuses (handleAddDependency config_multi sample_taskService
             (mkDependencyParams (Some "86a1") (Some "86a2") None
                                 (Some "staging"))
             sample_world)
    sample_world
    ("Error adding dependency: " ++
     "Workspace " ++ dq ++ "staging" ++ dq ++
     " not found. Available workspaces: work, personal" ++ newline ++
     "Available workspaces: work, personal").
Proof.
  destruct (dependency_handlers_unknown_workspace config_multi
              sample_taskService
              (mkDependencyParams (Some "86a1") (Some "86a2") None
                                  (Some "staging"))
              (mkLinkParams (Some "86a1") (Some "86a2") (Some "staging"))
              sample_world _ _
              (reachable_empty config_multi) eq_refl eq_refl eq_refl eq_refl)
    as (H & _).
  exact H.
Defined.

Lemma handleAddDependency_reply_witness :
  exists text w',
    handleAddDependency config_multi sample_taskService
      (mkDependencyParams (Some "86a1") (Some "86a2") None (Some "personal"))
      sample_world
    = (Ok (mkEnvelope [mkContent "text" (Some text)]), w') /\
    JSON_parse text
    = Returns
        (VObj [ ("message",
                 VStr "Dependency added successfully. Task 86a1 now depends on task 86a2");
                ("dependency",
                 VObj [("task_id", VStr "86a1"); ("depends_on", VStr "86a2")]) ]).
Proof.
  destruct (handleAddDependency_reply config_multi sample_taskService
              (mkDependencyParams (Some "86a1") (Some "86a2") None
                                  (Some "personal"))
              sample_world
              (OwnWorkspace (mkWorkspaceConfig "pk_home" "9002" None))
              (reachable_empty config_multi) eq_refl eq_refl)
    as (services & text & w' & H & Hp).
  - intros log r x. unfold sample_taskService.
    destruct (call r) as [t d o| | | |]; try discriminate.
    destruct (strict_eq d "86a2"); [now intros [= <-] | discriminate].
  - exists text, w'. split; [exact H | exact Hp].
Defined.

End HandlerWitnesses.

(** ** The dependency service *)

Section TaskDependencyFacts.
Import Json Lists Remote TaskDependencies.

Lemma HEX_safe (n : nat) : n < 16 -> form_safe (HEX n) = true.
Proof.
  intros H. do 16 (destruct n as [|n]; [reflexivity|]). lia.
Qed.

Lemma form_byte_safe (c x : ascii) :
  has_char x (form_byte c) -> form_safe x = true.
Proof.
  unfold form_byte. destruct (unreserved c) eqn:U.
  - intros [<-|[]]. unfold form_safe. now rewrite U.
  - destruct (Ascii.eqb c " ").
    + intros [<-|[]]. reflexivity.
    + unfold percent_encode. intros [<-|[<-|[<-|[]]]].
      * reflexivity.
      * apply HEX_safe, Nat.Div0.div_lt_upper_bound.
        pose proof (nat_ascii_bounded c). lia.
      * apply HEX_safe, Nat.mod_upper_bound. lia.
Qed.

(** An encoded name or value is made of letters, digits and
    [* - . _ + %] only. *)
Lemma form_urlencode_safe (s : string) (x : ascii) :
  has_char x (form_urlencode s) -> form_safe x = true.
Proof.
  induction s as [|c s IH]; [intros []|].
  simpl. rewrite has_char_app. intros [H|H].
  - exact (form_byte_safe c x H).
  - exact (IH H).
Qed.

Lemma form_urlencode_free (s : string) (x : ascii) :
  form_safe x = false -> ~ has_char x (form_urlencode s).
Proof.
  intros Hx H. apply form_urlencode_safe in H. congruence.
Qed.

Lemma pair_free (p : string * string) :
  ~ has_char "&"%char
      (form_urlencode (fst p) ++ "=" ++ form_urlencode (snd p)).
Proof.
  rewrite !has_char_app. intros [H|[H|H]].
  - now apply (form_urlencode_free (fst p) "&"%char).
  - destruct H as [H|[]]. discriminate H.
  - now apply (form_urlencode_free (snd p) "&"%char).
Qed.

Lemma pair_split (p : string * string) :
  split "="%char (form_urlencode (fst p) ++ "=" ++ form_urlencode (snd p))
  = [form_urlencode (fst p); form_urlencode (snd p)].
Proof.
  change (?a ++ "=" ++ ?b) with (a ++ String "="%char b).
  rewrite split_app by now apply form_urlencode_free.
  rewrite split_one by now apply form_urlencode_free.
  reflexivity.
Qed.

(** A query string splits back into the pairs it was made from. *)
Lemma URLSearchParams_toString_split (params : list (string * string)) :
  params <> [] ->
  map (split "="%char) (split "&"%char (URLSearchParams_toString params))
  = map (fun p => [form_urlencode (fst p); form_urlencode (snd p)]) params.
Proof.
  intros Hne. unfold URLSearchParams_toString.
  destruct params as [|p params]; [contradiction|].
  set (f := fun p : string * string =>
              form_urlencode (fst p) ++ "=" ++ form_urlencode (snd p)).
  change (join "&" (map f (p :: params)))
    with (join (String "&"%char "") (f p :: map f params)).
  rewrite split_join.
  - change (f p :: map f params) with (map f (p :: params)).
    rewrite map_map. apply map_ext. intros q. apply pair_split.
  - intros y Hy. change (f p :: map f params) with (map f (p :: params)) in Hy.
    apply in_map_iff in Hy as (q & <- & _). apply pair_free.
Qed.

Lemma URLSearchParams_toString_chars (params : list (string * string))
    (x : ascii) :
  has_char x (URLSearchParams_toString params) ->
  form_safe x = true \/ x = "="%char \/ x = "&"%char.
Proof.
  unfold URLSearchParams_toString. intros H.
  apply has_char_join in H as [[<-|[]]|(y & Hy & H)]; [tauto|].
  apply in_map_iff in Hy as (p & <- & _).
  rewrite !has_char_app in H. destruct H as [H|[[<-|[]]|H]]; [|tauto|];
    left; exact (form_urlencode_safe _ _ H).
Qed.

Variable client : list HttpRequest -> HttpRequest -> result value.
Variable handleError : JsError -> string -> JsError.

(** X20. [deleteDependency] sends nothing when neither task is given: it
    throws what [handleError] makes of its own error.  Otherwise it sends
    exactly one [DELETE], to the dependency path of the task with a query
    that splits at [&] and [=] into exactly the parameters given, each
    value encoded with letters, digits and [* - . _ + %] only: no value
    can add a parameter or end the query. *)
Theorem deleteDependency_request
    (taskId : string) (dependsOn dependencyOf : option string)
    (log : list HttpRequest) :
  match dependency_query dependsOn dependencyOf with
  | [] =>
      deleteDependency client handleError taskId dependsOn dependencyOf log
      = (Throw (handleError
                  (new_Error
                     "Either depends_on or dependency_of query parameter is required")
                  "Failed to remove dependency"),
         log)
  | params =>
      exists query,
        snd (deleteDependency client handleError taskId dependsOn
                              dependencyOf log)
        = (log ++ [mkHttp DELETE ("/task/" ++ taskId ++ "/dependency?" ++ query)
                          None])%list /\
        map (split "="%char) (split "&"%char query)
        = map (fun p => [fst p; form_urlencode (snd p)]) params /\
        forall x, has_char x query ->
                  form_safe x = true \/ x = "="%char \/ x = "&"%char
  end.
Proof.
  unfold deleteDependency, dependency_query.
  destruct (truthy dependsOn) eqn:T1, (truthy dependencyOf) eqn:T2; simpl;
    try reflexivity;
    match goal with
    | |- context [URLSearchParams_toString ?params] =>
        exists (URLSearchParams_toString params);
        (split; [|split];
         [unfold wtry, wbind, send, wret, wraise; simpl;
          now destruct (client log _)
         |now rewrite URLSearchParams_toString_split by discriminate
         |apply URLSearchParams_toString_chars])
    end.
Qed.

End TaskDependencyFacts.

(** ** The hierarchy tool *)

Section HierarchyFacts.
Import Config Shared Helper Tenancy Json Response Remote Lists.
Import HierarchyTool Examples.

Lemma WorkspaceNode_ind (P : WorkspaceNode -> Prop)
    (Hnode : forall name id type children,
        Forall P children -> P (Node name id type children)) :
  forall node, P node.
Proof.
  fix IH 1. intros [name id type children]. apply Hnode.
  induction children as [|child children IHchildren];
    constructor; [apply IH | exact IHchildren].
Qed.

Variable capitalized : string -> string.

Lemma formatNodeAsTree_eq name id type children level isLast parentPrefix :
  formatNodeAsTree capitalized (Node name id type children) level isLast
                   parentPrefix
  = ((match level with
      | 0 => ""
      | _ => parentPrefix ++ (if isLast then "└── " else "├── ")
      end) ++ label capitalized (Node name id type children))
    :: format_children capitalized level
         (match level with
          | 0 => ""
          | _ => parentPrefix ++ (if isLast then "    " else "│   ")
          end) children.
Proof.
  simpl. f_equal. induction children as [|child rest IH]; [reflexivity|].
  simpl. now rewrite IH.
Qed.

Lemma drawing_free (s : string) :
  In s ["└── "; "├── "; "    "; "│   "; ""] ->
  ~ has_char (ascii_of_nat 10) s.
Proof.
  intros H.
  repeat (destruct H as [<-|H];
          [unfold has_char; simpl; intros G;
           repeat (destruct G as [G|G]; [discriminate G|]); exact G|]).
  destruct H.
Qed.

Lemma drawing_app_free (parentPrefix s : string) :
  ~ has_char (ascii_of_nat 10) parentPrefix ->
  In s ["└── "; "├── "; "    "; "│   "; ""] ->
  ~ has_char (ascii_of_nat 10) (parentPrefix ++ s).
Proof.
  intros Hp Hs. rewrite has_char_app. intros [H|H]; [now apply Hp|].
  now apply (drawing_free s Hs).
Qed.

(** Every line shows one node, and the lines follow the nodes in
    pre-order. *)
Lemma formatNodeAsTree_shows (node : WorkspaceNode) :
  forall level isLast parentPrefix,
    ~ has_char (ascii_of_nat 10) parentPrefix ->
    Forall2 (shows capitalized)
            (formatNodeAsTree capitalized node level isLast parentPrefix)
            (preorder node).
Proof.
  induction node as [name id type children IH] using WorkspaceNode_ind.
  intros level isLast parentPrefix Hfree.
  rewrite formatNodeAsTree_eq.
  change (preorder (Node name id type children))
    with (Node name id type children :: flat_map preorder children).
  constructor.
  - eexists. split; [reflexivity|].
    destruct level; [apply (drawing_free ""); simpl; tauto|].
    apply drawing_app_free; [exact Hfree|].
    destruct isLast; simpl; tauto.
  - assert (Hchild : ~ has_char (ascii_of_nat 10)
                       match level with
                       | 0 => ""
                       | S _ => parentPrefix ++
                                (if isLast then "    " else "│   ")
                       end).
    { destruct level; [apply (drawing_free ""); simpl; tauto|].
      apply drawing_app_free; [exact Hfree|].
      destruct isLast; simpl; tauto. }
    revert Hchild. generalize (match level with
                               | 0 => ""
                               | S _ => parentPrefix ++
                                        (if isLast then "    " else "│   ")
                               end).
    intros childPrefix Hchild.
    induction IH as [|child rest Hc _ IHrest]; [constructor|].
    simpl. apply Forall2_app; [now apply Hc | exact IHrest].
Qed.

Lemma shows_free (lines : list string) (nodes : list WorkspaceNode) :
  Forall2 (shows capitalized) lines nodes ->
  (forall n, In n nodes -> ~ has_char (ascii_of_nat 10) (label capitalized n)) ->
  forall y, In y lines -> ~ has_char (ascii_of_nat 10) y.
Proof.
  intros F. induction F as [|line n lines nodes (drawing & -> & Hd) _ IH];
    intros Hlabels y; [intros []|].
  intros [<-|Hy].
  - rewrite has_char_app. intros [H|H]; [now apply Hd|].
    apply (Hlabels n); [now left | exact H].
  - apply IH; [|exact Hy]. intros m Hm. apply Hlabels. now right.
Qed.

(** X21. The text of [formatTreeOutput] has one line per node of the
    hierarchy, the nodes in pre-order: when no name, id or capitalized type
    holds a line feed, splitting the text at line feeds gives, node by
    node, the node's name and id after the drawing of its branch, and the
    first line is the root's without any drawing. *)
Theorem formatTreeOutput_lines (root : WorkspaceNode)
    (Hlabels : forall n, In n (preorder root) ->
                         ~ has_char (ascii_of_nat 10) (label capitalized n)) :
  Forall2 (shows capitalized)
          (split (ascii_of_nat 10) (formatTreeOutput capitalized root))
          (preorder root) /\
  exists rest,
    split (ascii_of_nat 10) (formatTreeOutput capitalized root)
    = label capitalized root :: rest.
Proof.
  pose proof (formatNodeAsTree_shows root 0 true "" (drawing_free "" ltac:(simpl; tauto)))
    as Hshows.
  assert (Hsplit : split (ascii_of_nat 10) (formatTreeOutput capitalized root)
                   = formatNodeAsTree capitalized root 0 true "").
  { unfold formatTreeOutput.
    pose proof (shows_free _ _ Hshows Hlabels) as Hfree.
    destruct (formatNodeAsTree capitalized root 0 true "") as [|x xs] eqn:E.
    - destruct root. rewrite formatNodeAsTree_eq in E. discriminate.
    - change newline with (String (ascii_of_nat 10) "").
      now apply split_join. }
  rewrite Hsplit. split; [exact Hshows|].
  destruct root as [name id type children]. rewrite formatNodeAsTree_eq.
  eexists. reflexivity.
Qed.

Variable configuration : Configuration.
Variable workspaceService : list Request -> Request -> result WorkspaceNode.


End HierarchyFacts.

Section HierarchyWitnesses.
Import Config Shared Helper Tenancy Json Response Remote Lists.
Import HierarchyTool Examples.

Lemma formatTreeOutput_lines_witness :
  Forall2 (shows ascii_capitalized)
          (split (ascii_of_nat 10)
                 (formatTreeOutput ascii_capitalized sample_tree))
          (preorder sample_tree) /\
  exists rest,
    split (ascii_of_nat 10) (formatTreeOutput ascii_capitalized sample_tree)
    = label ascii_capitalized sample_tree :: rest.
Proof.
  apply (formatTreeOutput_lines ascii_capitalized sample_tree).
  intros n H.
  repeat (destruct H as [<-|H];
          [unfold has_char; simpl; intros G;
           repeat (destruct G as [G|G]; [discriminate G|]); exact G|]).
  destruct H.
Defined.


End HierarchyWitnesses.

(** ** The tool enhancer *)

Section ToolEnhancerFacts.
Import Json ToolEnhancer.

(** Writing a property twice leaves the second value at the place the
    first write chose. *)
Lemma set_property_twice props k v v' :
  set_property (set_property props k v) k v' = set_property props k v'.
Proof.
  induction props as [|[k0 v0] props IH]; simpl.
  - now rewrite String.eqb_refl.
  - destruct (String.eqb k k0) eqn:E; [|destruct (key_before k k0) eqn:B];
      simpl.
    + now rewrite E.
    + now rewrite String.eqb_refl.
    + now rewrite E, B, IH.
Qed.

(** A key passes the properties it is neither equal to nor enumerated
    before. *)
Lemma set_property_skip front back k v :
  Forall (fun kv => String.eqb k (fst kv) = false /\
                    key_before k (fst kv) = false) front ->
  set_property (front ++ back) k v = (front ++ set_property back k v)%list.
Proof.
  induction 1 as [|[k0 v0] front [E B] _ IH]; [reflexivity|].
  simpl in *. now rewrite E, B, IH.
Qed.

(** Copying properties that continue an enumeration appends them. *)
Lemma assign_continue front back :
  canonical (map fst (front ++ back)%list) = true ->
  assign front back = (front ++ back)%list.
Proof.
  unfold assign. induction back as [|[k v] back IH] using rev_ind.
  - now rewrite app_nil_r.
  - intros H. rewrite fold_left_app. simpl. rewrite app_assoc in H.
    rewrite IH.
    + rewrite app_assoc. now apply set_property_snoc.
    + rewrite map_app in H. now apply canonical_app_l in H.
Qed.

Lemma index_not_eqb (i k : string) :
  array_index i <> None -> array_index k = None -> String.eqb k i = false.
Proof.
  intros Hi Hk. apply String.eqb_neq. intros ->. contradiction.
Qed.

Lemma key_before_none (k k' : string) :
  array_index k = None -> key_before k k' = false.
Proof. unfold key_before. now intros ->. Qed.

Lemma key_before_index (k k' : string) :
  key_before k k' = true -> array_index k <> None.
Proof. unfold key_before. now destruct (array_index k). Qed.

Lemma headed_set_property k props k' v' :
  headed k props -> headed k (set_property props k' v').
Proof.
  intros (indices & v & rest & -> & Hk & Hidx). revert Hidx.
  induction indices as [|[i vi] indices IH]; intros Hidx; simpl.
  - destruct (String.eqb k' k) eqn:E; [|destruct (key_before k' k) eqn:B].
    + exists [], v', rest. repeat split; [exact Hk | constructor].
    + exists [(k', v')], v, rest. repeat split; [exact Hk|].
      constructor; [|constructor]. exact (key_before_index _ _ B).
    + exists [], v, (set_property rest k' v').
      repeat split; [exact Hk | constructor].
  - inversion Hidx as [|? ? Hi Hrest]; subst.
    destruct (String.eqb k' i) eqn:E; [|destruct (key_before k' i) eqn:B].
    + exists ((i, v') :: indices), v, rest.
      repeat split; [exact Hk|]. now constructor.
    + exists ((k', v') :: (i, vi) :: indices), v, rest.
      repeat split; [exact Hk|]. constructor; [|exact Hidx].
      exact (key_before_index _ _ B).
    + destruct (IH Hrest) as (indices' & v2 & rest' & -> & _ & Hidx').
      exists ((i, vi) :: indices'), v2, rest'.
      repeat split; [exact Hk|]. now constructor.
Qed.

Lemma headed_assign k target source :
  headed k target -> headed k (assign target source).
Proof.
  unfold assign. revert target.
  induction source as [|[k' v'] source IH]; intros target H; [exact H|].
  simpl. apply IH, headed_set_property, H.
Qed.

(** Among canonical keys, indices that come before a key are smaller
    than every index after them. *)
Lemma canonical_indices_skip (indices : list (string * value)) (i : string)
    (tail : list string) :
  canonical (map fst indices ++ i :: tail)%list = true ->
  Forall (fun kv => String.eqb i (fst kv) = false /\
                    key_before i (fst kv) = false) indices.
Proof.
  induction indices as [|[j vj] indices IH]; [constructor|].
  simpl. intros H. apply andb_true_iff in H as [Hall Hc].
  constructor; [|now apply IH].
  rewrite forallb_app in Hall. apply andb_true_iff in Hall as [_ Hall].
  simpl in Hall. apply andb_true_iff in Hall as [Hji _].
  unfold ordered in Hji. apply andb_true_iff in Hji as [Hne Hord].
  simpl. split.
  - rewrite String.eqb_sym. now apply negb_true_iff.
  - unfold key_before.
    destruct (array_index i) as [a|]; [|reflexivity].
    destruct (array_index j) as [b|]; [|discriminate].
    apply N.ltb_lt in Hord. apply N.ltb_ge. lia.
Qed.

(** Indices copied onto an object that has one key, not an index, all go
    before that key. *)
Lemma assign_indices k v (indices : list (string * value)) (tail : list string) :
  array_index k = None ->
  Forall (fun kv => array_index (fst kv) <> None) indices ->
  canonical (map fst indices ++ tail)%list = true ->
  assign [(k, v)] indices = (indices ++ [(k, v)])%list.
Proof.
  intros Hk. unfold assign. revert tail.
  induction indices as [|[i vi] indices IH] using rev_ind;
    intros tail Hidx Hc; [reflexivity|].
  apply Forall_app in Hidx as [Hidx Hi].
  inversion Hi as [|? ? Hi' _]; subst. simpl in Hi'.
  rewrite fold_left_app. simpl.
  rewrite map_app, <- app_assoc in Hc. simpl in Hc.
  rewrite (IH (i :: tail) Hidx Hc).
  rewrite (set_property_skip indices [(k, v)] i vi
             (canonical_indices_skip indices i tail Hc)).
  simpl. rewrite String.eqb_sym, (index_not_eqb i k Hi' Hk).
  unfold key_before. rewrite Hk.
  destruct (array_index i); [|contradiction].
  now rewrite <- app_assoc.
Qed.

(** An object whose first key after the indices is [k] absorbs
    [{k: v, ...object}]. *)
Lemma headed_absorb k v props :
  headed k props -> canonical (map fst props) = true ->
  assign [(k, v)] props = props.
Proof.
  intros (indices & v0 & rest & -> & Hk & Hidx) Hc.
  unfold assign. rewrite fold_left_app. fold (assign [(k, v)] indices).
  rewrite map_app in Hc.
  rewrite (assign_indices k v indices _ Hk Hidx Hc).
  simpl fold_left at 1.
  change (fold_left ?f ((k, v0) :: rest) ?acc)
    with (fold_left f rest (f acc (k, v0))).
  cbv beta. simpl fst. simpl snd.
  rewrite (set_property_skip indices [(k, v)] k v0).
  - simpl. rewrite String.eqb_refl.
    fold (assign (indices ++ [(k, v0)])%list rest).
    rewrite assign_continue; rewrite <- app_assoc; [reflexivity|].
    now rewrite map_app.
  - eapply Forall_impl; [exact Hidx|]. intros [i vi] Hi. simpl in *.
    split; [exact (index_not_eqb i k Hi Hk) | exact (key_before_none _ _ Hk)].
Qed.

Lemma member_set_property props k v :
  member (VObj (set_property props k v)) k = v.
Proof.
  unfold member. now rewrite get_own_set_property, String.eqb_refl.
Qed.

Lemma not_index_type : array_index "type" = None.
Proof. reflexivity. Qed.

(** X23. Enhancing an enhanced tool changes nothing: for a tool of the
    type [Tool], [enhanceToolWithWorkspace] applied to its own result
    returns that result, key order included; so does
    [enhanceToolsWithWorkspace] on a list of such tools. *)
Theorem enhanceToolWithWorkspace_idempotent
    (tools : list (list (string * value)))
    (Htyped : forall tool, In tool tools -> typed_tool tool = true) :
  (forall tool, In tool tools ->
     enhanceToolWithWorkspace (enhanceToolWithWorkspace tool)
     = enhanceToolWithWorkspace tool) /\
  enhanceToolsWithWorkspace (enhanceToolsWithWorkspace tools)
  = enhanceToolsWithWorkspace tools.
Proof.
  assert (Hone : forall tool,
             enhanceToolWithWorkspace (enhanceToolWithWorkspace tool)
             = enhanceToolWithWorkspace tool).
  { intros tool. unfold enhanceToolWithWorkspace at 1.
    set (enhanced := enhanceToolWithWorkspace tool).
    assert (Hschema : member (VObj enhanced) "inputSchema"
                      = member (VObj (enhanceToolWithWorkspace tool))
                               "inputSchema") by reflexivity.
    unfold enhanceToolWithWorkspace in Hschema at 1.
    rewrite member_set_property in Hschema. rewrite Hschema.
    set (schema := set_property _ "properties" _) in *.
    assert (Hprops : member (VObj schema) "properties"
                     = member (VObj schema) "properties") by reflexivity.
    unfold schema in Hprops at 2. rewrite member_set_property in Hprops.
    rewrite Hprops.
    set (properties := assign (assign [] _) workspaceParameter) in *.
    simpl own_properties.
    assert (Hcp : canonical (map fst properties) = true).
    { unfold properties. now repeat apply assign_canonical. }
    assert (Hcs : canonical (map fst schema) = true).
    { unfold schema. apply set_property_canonical.
      now apply assign_canonical. }
    assert (Hce : canonical (map fst enhanced) = true).
    { unfold enhanced, enhanceToolWithWorkspace.
      apply set_property_canonical. now apply assign_canonical. }
    rewrite (assign_canonical_id properties Hcp).
    replace (assign properties workspaceParameter) with properties.
    2:{ unfold properties at 2. unfold workspaceParameter, assign at 1. simpl.
        unfold properties. unfold workspaceParameter at 1. unfold assign at 1.
        simpl. now rewrite set_property_twice. }
    rewrite (headed_absorb "type" _ schema); [|clear -schema|exact Hcs].
    2:{ unfold schema. apply headed_set_property, headed_assign.
        exists [], (VStr "object"), []. repeat split; constructor. }
    replace (set_property schema "properties" (VObj properties)) with schema.
    2:{ unfold schema at 2. now rewrite set_property_twice. }
    rewrite (assign_canonical_id enhanced Hce).
    unfold enhanced at 1. unfold enhanceToolWithWorkspace.
    now rewrite set_property_twice. }
  split; [intros tool _; apply Hone|].
  unfold enhanceToolsWithWorkspace. rewrite map_map.
  apply map_ext. exact Hone.
Qed.

Lemma enhanceToolWithWorkspace_idempotent_witness :
  enhanceToolWithWorkspace (enhanceToolWithWorkspace sample_tool)
  = enhanceToolWithWorkspace sample_tool /\
  enhanceToolsWithWorkspace (enhanceToolsWithWorkspace [sample_tool])
  = enhanceToolsWithWorkspace [sample_tool].
Proof.
  destruct (enhanceToolWithWorkspace_idempotent [sample_tool]) as [H1 H2].
  - intros tool [<-|[]]. reflexivity.
  - split; [apply H1; now left | exact H2].
Defined.

(** X24. What the enhancer adds and what it keeps, for a tool of the type
    [Tool]: every property of the tool but [inputSchema] is kept; in the
    schema every property but [type] and [properties] is kept, and [type]
    is the tool's when the schema has one and ["object"] otherwise; in the
    properties [workspace] is the common workspace parameter, replacing
    one the tool may already have, and every other property is kept. *)
Theorem enhanceToolWithWorkspace_adds_workspace
    (tool : list (string * value)) (Htyped : typed_tool tool = true) :
  let schema := own_properties (member (VObj tool) "inputSchema") in
  let properties :=
    own_properties (member (member (VObj tool) "inputSchema") "properties") in
  let enhanced := enhanceToolWithWorkspace tool in
  let schema' := own_properties (member (VObj enhanced) "inputSchema") in
  let properties' :=
    own_properties (member (member (VObj enhanced) "inputSchema") "properties") in
  (forall k, k <> "inputSchema" -> get_own enhanced k = get_own tool k) /\
  (forall k, k <> "properties" -> k <> "type" ->
             get_own schema' k = get_own schema k) /\
  get_own schema' "type"
  = Some (match get_own schema "type" with
          | Some t => t
          | None => VStr "object"
          end) /\
  get_own properties' "workspace" = get_own workspaceParameter "workspace" /\
  (forall k, k <> "workspace" -> get_own properties' k = get_own properties k).
Proof.
  unfold typed_tool in Htyped.
  repeat (apply andb_true_iff in Htyped as [Htyped ?]).
  intros schema properties enhanced schema' properties'.
  assert (Hs' : schema'
                = set_property (assign [("type", VStr "object")] schema)
                    "properties"
                    (VObj (assign (assign [] properties) workspaceParameter))).
  { unfold schema', enhanced, enhanceToolWithWorkspace.
    now rewrite member_set_property. }
  assert (Hp' : properties'
                = assign (assign [] properties) workspaceParameter).
  { unfold properties', enhanced, enhanceToolWithWorkspace.
    now rewrite !member_set_property. }
  assert (Neq : forall a b : string, a <> b -> String.eqb a b = false).
  { intros a b. apply String.eqb_neq. }
  split; [|split; [|split; [|split]]].
  - intros k Hk. unfold enhanced, enhanceToolWithWorkspace.
    rewrite get_own_set_property, (Neq _ _ Hk).
    rewrite get_own_assign by assumption. now destruct (get_own tool k).
  - intros k Hk Ht. rewrite Hs', get_own_set_property, (Neq _ _ Hk).
    rewrite get_own_assign by assumption. simpl.
    rewrite (Neq _ _ Ht). now destruct (get_own schema k).
  - rewrite Hs', get_own_set_property. simpl String.eqb. cbv iota.
    rewrite get_own_assign by assumption.
    now destruct (get_own schema "type").
  - rewrite Hp'. now rewrite get_own_assign.
  - intros k Hk. rewrite Hp', get_own_assign by reflexivity.
    simpl. rewrite (Neq _ _ Hk).
    rewrite get_own_assign by assumption.
    now destruct (get_own properties k).
Qed.

Lemma enhanceToolWithWorkspace_adds_workspace_witness :
  get_own (enhanceToolWithWorkspace sample_tool) "name"
  = Some (VStr "add_dependency") /\
  get_own (own_properties
             (member (member (VObj (enhanceToolWithWorkspace sample_tool))
                             "inputSchema") "properties")) "workspace"
  = get_own workspaceParameter "workspace".
Proof.
  destruct (enhanceToolWithWorkspace_adds_workspace sample_tool eq_refl)
    as (H1 & _ & _ & H4 & _).
  split; [apply (H1 "name"); discriminate | exact H4].
Defined.

End ToolEnhancerFacts.

(** ** Tool calls in sequence *)

Section SessionFacts.
Import Config Shared Helper Tenancy Json Response Remote.
Import DependencyTools HierarchyTool Session.

Variable configuration : Configuration.
Variable taskService : list Request -> Request -> result value.
Variable workspaceService : list Request -> Request -> result WorkspaceNode.
Variable capitalized : string -> string.

Lemma getServicesForWorkspace_keeps (sel : option string) (st : Registry)
    (k : string) (s : ClickUpServices) :
  workspaceServicesMap st !! k = Some s ->
  workspaceServicesMap (snd (getServicesForWorkspace configuration sel st)) !! k
  = Some s.
Proof.
  intros H. unfold getServicesForWorkspace, try_catch.
  pose proof (getClickUpServices_keeps configuration sel st k s H) as G.
  now destruct (getClickUpServices configuration sel st) as [[services|e] st'].
Qed.

(** One awaited call on the services of a selector keeps the invariants. *)
Lemma await_step (sel : option string) (c : Call) (w : World) :
  reachable configuration (registry w) ->
  requests_inv configuration w ->
  match getServicesForWorkspace configuration sel (registry w) with
  | (Ok services, st') =>
      reachable configuration st' /\
      requests_inv configuration
        (mkWorld st' (requests w ++ [mkRequest services c]))
  | (Throw _, st') => mkWorld st' (requests w) = w
  end.
Proof.
  intros Hreach Hinv.
  pose proof (getServicesForWorkspace_run configuration sel (registry w) Hreach)
    as H.
  pose proof (fun k s => getServicesForWorkspace_keeps sel (registry w) k s)
    as Hkeep.
  destruct (getWorkspaceConfig configuration sel) as [v|e].
  - destruct H as (services & st' & E & Hc & Hb & Hr).
    rewrite E in *. simpl in Hkeep. split; [exact Hr|].
    intros r Hin. simpl in Hin. apply in_app_iff in Hin as [Hin|[<-|[]]].
    + destruct (Hinv r Hin) as (k & Hk & Hbound).
      exists k. split; [now apply Hkeep | exact Hbound].
    + exists (resolved_key configuration sel). now split.
  - rewrite H. now destruct w.
Qed.

Lemma handle_step (c : ToolCall) (w : World) :
  reachable configuration (registry w) ->
  requests_inv configuration w ->
  let w' := snd (handle configuration taskService workspaceService
                        capitalized c w) in
  reachable configuration (registry w') /\ requests_inv configuration w'.
Proof.
  intros Hreach Hinv.
  assert (Hstep : forall sel call, _)
    by exact (fun sel call => await_step sel call w Hreach Hinv).
  destruct c as [params|params|params|params|sel]; simpl;
    unfold handleAddDependency, handleDeleteDependency, handleAddTaskLink,
      handleDeleteTaskLink, handleGetWorkspaceHierarchy;
    unfold wtry, wbind, on_registry, await, wret;
    handler_cases; try (now split).
  all: match goal with
       | |- context [getServicesForWorkspace _ ?sel _] =>
           first
             [ pose proof (Hstep sel
                             (AddDependency (task_id params) (depends_on params)
                                            (dependency_of params))) as H;
               match goal with |- context [AddDependency] => idtac end
             | pose proof (Hstep sel
                             (DeleteDependency (task_id params)
                                (depends_on params) (dependency_of params)))
                 as H;
               match goal with |- context [DeleteDependency] => idtac end
             | pose proof (Hstep sel
                             (AddTaskLink (link_task_id params)
                                          (links_to params))) as H;
               match goal with |- context [AddTaskLink] => idtac end
             | pose proof (Hstep sel
                             (DeleteTaskLink (link_task_id params)
                                             (links_to params))) as H;
               match goal with |- context [DeleteTaskLink] => idtac end
             | pose proof (Hstep sel GetWorkspaceHierarchy) as H ]
       end.
  all: destruct (getServicesForWorkspace configuration _ (registry w))
         as [[services|e] st']; simpl;
       try (destruct w as [st rq]; simpl in *; injection H as ->;
            now split);
       match goal with
       | |- context [taskService ?log ?r] => destruct (taskService log r)
       | |- context [workspaceService ?log ?r] =>
           destruct (workspaceService log r)
       end; simpl; exact H.
Qed.

(** X25. However many of these tools are called, in whatever order and
    with whatever parameters and service behaviour, starting from an empty
    registry: the registry stays one that calls of [getClickUpServices]
    produce, so no workspace has its services built twice; and every
    service call ever made was made on a services object that is cached,
    under a workspace key whose credentials that object carries. *)
Theorem tool_calls_keep_tenancy (calls : list ToolCall) :
  reachable configuration
    (registry (run_tools configuration taskService workspaceService
                         capitalized calls start)) /\
  (forall k,
     constructions_for k
       (registry (run_tools configuration taskService workspaceService
                            capitalized calls start)) <= 1) /\
  requests_inv configuration
    (run_tools configuration taskService workspaceService capitalized
               calls start).
Proof.
  assert (H : forall w,
             reachable configuration (registry w) ->
             requests_inv configuration w ->
             let w' := run_tools configuration taskService workspaceService
                                 capitalized calls w in
             reachable configuration (registry w') /\
             requests_inv configuration w').
  { induction calls as [|c calls IH]; intros w Hreach Hinv; simpl;
      [now split|].
    destruct (handle_step c w Hreach Hinv) as [Hr Hi].
    now apply IH. }
  destruct (H start) as [Hr Hi].
  - now exists [].
  - intros r [].
  - split; [exact Hr|]. split; [|exact Hi].
    intros k. apply (registry_inv_at_most_once configuration).
    now apply (reachable_inv configuration).
Qed.

End SessionFacts.
